(** * SnippetManager: the block highlighter and the tag filter

    A shallow embedding of [src/syntax_highlighter.py] (the rule tables
    built by [_setup_delimiters_and_rules] and the per-block state
    machine [highlightBlock]) and of the tag handling of
    [src/snippet_manager.py] ([_save_snippet], [load_snippets]).

    Text is a list of characters of the Basic Multilingual Plane, each
    of them one offset unit, so that the lengths Python computes and the
    offsets the pattern engine reports count the same thing.  Offsets,
    lengths and block states are Python integers, hence [Z]; positions
    inside the pattern matcher are [nat].

    The host side of [QSyntaxHighlighter] is the block being
    highlighted: the [setFormat] calls made on it, in order, and its
    state, which a call of [highlightBlock] finds as the last call left
    it.  The recursion of [highlightBlock] on the tail of the text is a
    recursion on fuel, the number of calls the interpreter still allows
    on its stack.

    The store is the table of snippets as a list of rows, with the
    conditions of [load_snippets] evaluated on a row. *)

From Stdlib Require Import Ascii String List ZArith Lia Bool Arith.
From Stdlib Require Import Permutation DecimalString.
Import ListNotations.

(** ** Characters *)

Module Chars.

Definition code (c : ascii) : nat := nat_of_ascii c.

Definition between (lo hi c : ascii) : bool :=
  (code lo <=? code c) && (code c <=? code hi).

Definition is_upper (c : ascii) : bool := between "A" "Z" c.
Definition is_lower (c : ascii) : bool := between "a" "z" c.
Definition is_digit (c : ascii) : bool := between "0" "9" c.

Definition to_lower (c : ascii) : ascii :=
  if is_upper c then ascii_of_nat (code c + 32) else c.
Definition to_upper (c : ascii) : ascii :=
  if is_lower c then ascii_of_nat (code c - 32) else c.
Definition swap_case (c : ascii) : ascii :=
  if is_upper c then to_lower c else to_upper c.

(** [\w] of the pattern engine (no Unicode properties requested). *)
Definition is_word (c : ascii) : bool :=
  is_upper c || is_lower c || is_digit c || Ascii.eqb c "_".

Definition LF : ascii := ascii_of_nat 10.
Definition TAB : ascii := ascii_of_nat 9.
Definition CR : ascii := ascii_of_nat 13.
Definition DQ : ascii := ascii_of_nat 34.

(** [str.lower()] on a language name. *)
Definition lower (s : string) : string :=
  string_of_list_ascii (map to_lower (list_ascii_of_string s)).

End Chars.

(** ** The pattern engine

    [QRegularExpression] is used through [match(text, offset)] and
    [globalMatch(text)], and only the whole match (start and length) is
    read.  The fragment below covers every pattern of the rule tables:
    literals, [.], classes, groups, alternation, greedy and lazy
    quantifiers, [^], [$], [\b], lookahead and lookbehind.  Matching is
    backtracking: [ends r pos] lists the end positions of the matches of
    [r] starting at [pos] in the order in which a backtracking matcher
    reaches them, so its head is the match that is reported. *)

Module Regex.

Import Chars.

Inductive regex : Type :=
| Eps
| Chr (c : ascii)
| Any
| Cls (neg : bool) (items : list (ascii * ascii))
| Seq (r1 r2 : regex)
| Alt (r1 r2 : regex)
| Rep (lazy : bool) (lo : nat) (hi : option nat) (r : regex)
| Bol
| Eol
| WordB
| Look (behind neg : bool) (r : regex).

Section Matching.

Variable caseless : bool.
Variable text : list ascii.

Definition char_eq (c d : ascii) : bool :=
  Ascii.eqb c d || (caseless && Ascii.eqb (swap_case c) d).

Definition in_items (items : list (ascii * ascii)) (d : ascii) : bool :=
  existsb (fun it => between (fst it) (snd it) d
                     || (caseless && between (fst it) (snd it) (swap_case d)))
          items.

Definition word_at (i : nat) : bool :=
  match nth_error text i with
  | Some c => is_word c
  | None => false
  end.

Definition boundary (pos : nat) : bool :=
  xorb (match pos with 0 => false | S p => word_at p end) (word_at pos).

(** One character consumed at [pos] when [ok] accepts it. *)
Definition one (ok : ascii -> bool) (pos : nat) : list nat :=
  match nth_error text pos with
  | Some d => if ok d then [S pos] else []
  | None => []
  end.

(** Iteration of a quantifier.  [step] gives the ends of one iteration;
    an iteration that does not advance ends the loop.  [fuel] bounds the
    number of iterations by the number of characters left, which is what
    advancing iterations can use. *)
Fixpoint rep (step : nat -> list nat) (lazy : bool) (fuel lo : nat)
             (hi : option nat) (pos : nat) : list nat :=
  let stop := if lo =? 0 then [pos] else [] in
  let more :=
    match fuel, hi with
    | 0, _ => []
    | _, Some 0 => []
    | S fuel', _ =>
        flat_map (fun e => if pos <? e
                           then rep step lazy fuel' (pred lo) (option_map pred hi) e
                           else [])
                 (step pos)
    end in
  if lazy then stop ++ more else more ++ stop.

Fixpoint ends (r : regex) (pos : nat) : list nat :=
  match r with
  | Eps => [pos]
  | Chr c => one (char_eq c) pos
  | Any => one (fun d => negb (Ascii.eqb d LF)) pos
  | Cls neg items => one (fun d => xorb neg (in_items items d)) pos
  | Seq r1 r2 => flat_map (ends r2) (ends r1 pos)
  | Alt r1 r2 => ends r1 pos ++ ends r2 pos
  | Rep lazy lo hi r1 => rep (ends r1) lazy (S (length text)) lo hi pos
  | Bol => if pos =? 0 then [pos] else []
  | Eol => if pos =? length text then [pos] else []
  | WordB => if boundary pos then [pos] else []
  | Look false neg r1 =>
      if xorb neg (match ends r1 pos with [] => false | _ => true end)
      then [pos] else []
  | Look true neg r1 =>
      if xorb neg (existsb (fun p => existsb (Nat.eqb pos) (ends r1 p))
                           (seq 0 (S pos)))
      then [pos] else []
  end.

(** Leftmost match at or after [pos], trying [S n] positions. *)
Fixpoint search (r : regex) (n pos : nat) : option (nat * nat) :=
  match ends r pos with
  | e :: _ => Some (pos, e - pos)
  | [] => match n with
          | 0 => None
          | S n' => search r n' (S pos)
          end
  end.

Definition search_from (r : regex) (offset : nat) : option (nat * nat) :=
  if offset <=? length text
  then search r (length text - offset) offset
  else None.

(** The match iterator: the next match is searched from the end of the
    previous one; after an empty match the engine first asks for a
    non-empty match at the same place, then moves one character on. *)
Fixpoint iterate (r : regex) (fuel offset : nat) (prev_empty : bool)
  : list (nat * nat) :=
  match fuel with
  | 0 => []
  | S fuel' =>
      let found :=
        if prev_empty then
          match find (fun e => negb (e =? offset)) (ends r offset) with
          | Some e => Some (offset, e - offset)
          | None => search_from r (S offset)
          end
        else search_from r offset in
      match found with
      | None => []
      | Some (s, l) => (s, l) :: iterate r fuel' (s + l) (l =? 0)
      end
  end.

Definition all_matches (r : regex) : list (nat * nat) :=
  iterate r (2 * length text + 3) 0 false.

End Matching.

(** *** Reading a pattern string *)

Definition word_items : list (ascii * ascii) :=
  [("a", "z"); ("A", "Z"); ("0", "9"); ("_", "_")]%char.
Definition space_items : list (ascii * ascii) :=
  [(TAB, CR); (" ", " ")]%char.
Definition digit_items : list (ascii * ascii) := [("0", "9")]%char.

Definition is_alnum (c : ascii) : bool :=
  is_upper c || is_lower c || is_digit c.

(** An escape outside a class. *)
Definition escape (c : ascii) : option regex :=
  match c with
  | "b" => Some WordB
  | "w" => Some (Cls false word_items)
  | "W" => Some (Cls true word_items)
  | "s" => Some (Cls false space_items)
  | "S" => Some (Cls true space_items)
  | "d" => Some (Cls false digit_items)
  | "D" => Some (Cls true digit_items)
  | "n" => Some (Chr LF)
  | "t" => Some (Chr TAB)
  | "r" => Some (Chr CR)
  | _ => if is_alnum c then None else Some (Chr c)
  end%char.

(** An escape inside a class, as a list of ranges. *)
Definition class_escape (c : ascii) : option (list (ascii * ascii)) :=
  match c with
  | "w" => Some word_items
  | "s" => Some space_items
  | "d" => Some digit_items
  | "n" => Some [(LF, LF)]
  | "t" => Some [(TAB, TAB)]
  | "r" => Some [(CR, CR)]
  | _ => if is_alnum c then None else Some [(c, c)]
  end%char.

(** The items of a class up to its closing bracket. *)
Fixpoint class_items (s : list ascii) : option (list (ascii * ascii) * list ascii) :=
  match s with
  | [] => None
  | "]" :: rest => Some ([], rest)
  | "\" :: c :: rest =>
      match class_escape c, class_items rest with
      | Some its, Some (more, rest') => Some (its ++ more, rest')
      | _, _ => None
      end
  | lo :: "-" :: "]" :: rest => Some ([(lo, lo); ("-", "-")], rest)
  | _ :: "-" :: "\" :: _ => None
  | lo :: "-" :: hi :: rest =>
      match class_items rest with
      | Some (more, rest') => Some ((lo, hi) :: more, rest')
      | None => None
      end
  | c :: rest =>
      match class_items rest with
      | Some (more, rest') => Some ((c, c) :: more, rest')
      | None => None
      end
  end%char.

Fixpoint number (acc : nat) (s : list ascii) : nat * list ascii :=
  match s with
  | c :: rest => if is_digit c then number (10 * acc + (code c - 48)) rest
                 else (acc, s)
  | [] => (acc, s)
  end.

(** [{m}], [{m,}] and [{m,n}]; anything else after a brace is no quantifier. *)
Definition braces (s : list ascii) : option (nat * option nat * list ascii) :=
  match s with
  | c :: _ =>
      if is_digit c then
        let (lo, s1) := number 0 s in
        match s1 with
        | "}" :: s2 => Some (lo, Some lo, s2)
        | "," :: "}" :: s2 => Some (lo, None, s2)
        | "," :: d :: s2 =>
            if is_digit d then
              let (hi, s3) := number 0 (d :: s2) in
              match s3 with
              | "}" :: s4 => Some (lo, Some hi, s4)
              | _ => None
              end
            else None
        | _ => None
        end
      else None
  | [] => None
  end%char.

Definition laziness (s : list ascii) : bool * list ascii :=
  match s with
  | "?" :: rest => (true, rest)
  | _ => (false, s)
  end%char.

Definition quantified (a : regex) (s : list ascii) : regex * list ascii :=
  match s with
  | "*" :: s1 => let (lz, s2) := laziness s1 in (Rep lz 0 None a, s2)
  | "+" :: s1 => let (lz, s2) := laziness s1 in (Rep lz 1 None a, s2)
  | "?" :: s1 => let (lz, s2) := laziness s1 in (Rep lz 0 (Some 1) a, s2)
  | "{" :: s1 =>
      match braces s1 with
      | Some (lo, hi, s2) => let (lz, s3) := laziness s2 in (Rep lz lo hi a, s3)
      | None => (a, s)
      end
  | _ => (a, s)
  end%char.

Definition closing (wrap : regex -> regex) (p : option (regex * list ascii))
  : option (regex * list ascii) :=
  match p with
  | Some (r, ")" :: rest) => Some (wrap r, rest)
  | _ => None
  end%char.

Fixpoint alternation (fuel : nat) (s : list ascii) : option (regex * list ascii) :=
  match fuel with
  | 0 => None
  | S fuel' =>
      match sequence fuel' s with
      | Some (r1, "|" :: s1) =>
          match alternation fuel' s1 with
          | Some (r2, s2) => Some (Alt r1 r2, s2)
          | None => None
          end
      | other => other
      end
  end%char
with sequence (fuel : nat) (s : list ascii) : option (regex * list ascii) :=
  match fuel with
  | 0 => None
  | S fuel' =>
      match s with
      | [] => Some (Eps, s)
      | "|" :: _ => Some (Eps, s)
      | ")" :: _ => Some (Eps, s)
      | _ =>
          match atom fuel' s with
          | Some (a, s1) =>
              let (q, s2) := quantified a s1 in
              match sequence fuel' s2 with
              | Some (Eps, s3) => Some (q, s3)
              | Some (r, s3) => Some (Seq q r, s3)
              | None => None
              end
          | None => None
          end
      end
  end%char
with atom (fuel : nat) (s : list ascii) : option (regex * list ascii) :=
  match fuel with
  | 0 => None
  | S fuel' =>
      match s with
      | "(" :: "?" :: ":" :: s1 => closing (fun r => r) (alternation fuel' s1)
      | "(" :: "?" :: "=" :: s1 => closing (Look false false) (alternation fuel' s1)
      | "(" :: "?" :: "!" :: s1 => closing (Look false true) (alternation fuel' s1)
      | "(" :: "?" :: "<" :: "=" :: s1 => closing (Look true false) (alternation fuel' s1)
      | "(" :: "?" :: "<" :: "!" :: s1 => closing (Look true true) (alternation fuel' s1)
      | "(" :: "?" :: _ => None
      | "(" :: s1 => closing (fun r => r) (alternation fuel' s1)
      | "[" :: "^" :: s1 =>
          match class_items s1 with
          | Some (its, rest) => Some (Cls true its, rest)
          | None => None
          end
      | "[" :: s1 =>
          match class_items s1 with
          | Some (its, rest) => Some (Cls false its, rest)
          | None => None
          end
      | "\" :: c :: s1 =>
          match escape c with
          | Some r => Some (r, s1)
          | None => None
          end
      | "\" :: [] => None
      | "." :: s1 => Some (Any, s1)
      | "^" :: s1 => Some (Bol, s1)
      | "$" :: s1 => Some (Eol, s1)
      | "*" :: _ => None
      | "+" :: _ => None
      | "?" :: _ => None
      | c :: s1 => Some (Chr c, s1)
      | [] => None
      end
  end%char.

Definition parse (p : string) : option regex :=
  let s := list_ascii_of_string p in
  match alternation (4 * length s + 4) s with
  | Some (r, []) => Some r
  | _ => None
  end.

(** A pattern that may match the empty string, decided on its syntax. *)
Fixpoint nullable (r : regex) : bool :=
  match r with
  | Eps => true
  | Chr _ => false
  | Any => false
  | Cls _ _ => false
  | Seq r1 r2 => nullable r1 && nullable r2
  | Alt r1 r2 => nullable r1 || nullable r2
  | Rep _ lo _ r1 => (lo =? 0) || nullable r1
  | Bol => true
  | Eol => true
  | WordB => true
  | Look _ _ _ => true
  end.

End Regex.

(** ** The highlighter object *)

Module Highlighter.

Import Chars Regex.

Open Scope string_scope.

(** State constants for multi-line highlighting. *)
Definition STATE_NORMAL : Z := -1.
Definition STATE_ML_COMMENT : Z := 1.
Definition STATE_ML_STRING_DQ : Z := 2.
Definition STATE_ML_STRING_SQ : Z := 3.

(** Default colors (used if the setting is missing). *)
Definition DEFAULT_COLORS : list (string * string) :=
  [("keyword", "#C586C0"); ("comment", "#6A9955"); ("string", "#CE9178");
   ("number", "#B5CEA8"); ("function", "#DCDCAA"); ("class_type", "#4EC9B0");
   ("operator_brace", "#D4D4D4"); ("preprocessor_decorator", "#808080");
   ("tag", "#569CD6"); ("attribute", "#9CDCFE"); ("selector", "#D7BA7D");
   ("property", "#9CDCFE")].

Definition default_color (key : string) : string :=
  match find (fun kv => String.eqb (fst kv) key) DEFAULT_COLORS with
  | Some kv => snd kv
  | None => ""
  end.

Inductive QColor : Type := Color (name : string).

Record QTextCharFormat : Type := {
  foreground : option QColor;
  bold : bool;
  italic : bool;
  underline : bool;
  background : option QColor
}.

Definition plain (c : QColor) : QTextCharFormat :=
  {| foreground := Some c; bold := false; italic := false;
     underline := false; background := None |}.
Definition setFontWeightBold (f : QTextCharFormat) : QTextCharFormat :=
  {| foreground := foreground f; bold := true; italic := italic f;
     underline := underline f; background := background f |}.
Definition setFontItalic (f : QTextCharFormat) : QTextCharFormat :=
  {| foreground := foreground f; bold := bold f; italic := true;
     underline := underline f; background := background f |}.
Definition setUnderline (f : QTextCharFormat) : QTextCharFormat :=
  {| foreground := foreground f; bold := bold f; italic := italic f;
     underline := true; background := background f |}.
Definition setBackground (c : QColor) (f : QTextCharFormat) : QTextCharFormat :=
  {| foreground := foreground f; bold := bold f; italic := italic f;
     underline := underline f; background := Some c |}.

(** A compiled pattern; a pattern string that does not read is an
    invalid expression, which matches nothing. *)
Record QRegularExpression : Type := {
  pattern : option regex;
  CaseInsensitiveOption : bool
}.

Definition QRegularExpression_ (p : string) : QRegularExpression :=
  {| pattern := parse p; CaseInsensitiveOption := false |}.
Definition QRegularExpression_i (p : string) : QRegularExpression :=
  {| pattern := parse p; CaseInsensitiveOption := true |}.

Definition to_Z_pair (m : nat * nat) : Z * Z :=
  (Z.of_nat (fst m), Z.of_nat (snd m)).

(** [re.match(text, offset)]: [Some (capturedStart, capturedLength)] when
    [hasMatch()]. *)
Definition match_ (re : QRegularExpression) (text : list ascii) (offset : Z)
  : option (Z * Z) :=
  match pattern re with
  | Some r =>
      if (offset <? 0)%Z then None
      else option_map to_Z_pair
             (search_from (CaseInsensitiveOption re) text r (Z.to_nat offset))
  | None => None
  end.

(** [re.globalMatch(text)], as the list the iterator runs through. *)
Definition globalMatch (re : QRegularExpression) (text : list ascii)
  : list (Z * Z) :=
  match pattern re with
  | Some r => map to_Z_pair (all_matches (CaseInsensitiveOption re) text r)
  | None => []
  end.

Record SyntaxHighlighter : Type := {
  highlighting_rules : list (QRegularExpression * QTextCharFormat);
  ml_comment_start : option QRegularExpression;
  ml_comment_end : option QRegularExpression;
  ml_string_dq_start : option QRegularExpression;
  ml_string_dq_end : option QRegularExpression;
  ml_string_sq_start : option QRegularExpression;
  ml_string_sq_end : option QRegularExpression;
  comment_format : QTextCharFormat;
  string_format : QTextCharFormat
}.

Definition append (rule : QRegularExpression * QTextCharFormat)
                  (self : SyntaxHighlighter) : SyntaxHighlighter :=
  {| highlighting_rules := highlighting_rules self ++ [rule];
     ml_comment_start := ml_comment_start self;
     ml_comment_end := ml_comment_end self;
     ml_string_dq_start := ml_string_dq_start self;
     ml_string_dq_end := ml_string_dq_end self;
     ml_string_sq_start := ml_string_sq_start self;
     ml_string_sq_end := ml_string_sq_end self;
     comment_format := comment_format self;
     string_format := string_format self |}.

Definition extend (rules : list (QRegularExpression * QTextCharFormat))
                  (self : SyntaxHighlighter) : SyntaxHighlighter :=
  {| highlighting_rules := highlighting_rules self ++ rules;
     ml_comment_start := ml_comment_start self;
     ml_comment_end := ml_comment_end self;
     ml_string_dq_start := ml_string_dq_start self;
     ml_string_dq_end := ml_string_dq_end self;
     ml_string_sq_start := ml_string_sq_start self;
     ml_string_sq_end := ml_string_sq_end self;
     comment_format := comment_format self;
     string_format := string_format self |}.

Definition set_ml_comment (s e : QRegularExpression)
                          (self : SyntaxHighlighter) : SyntaxHighlighter :=
  {| highlighting_rules := highlighting_rules self;
     ml_comment_start := Some s;
     ml_comment_end := Some e;
     ml_string_dq_start := ml_string_dq_start self;
     ml_string_dq_end := ml_string_dq_end self;
     ml_string_sq_start := ml_string_sq_start self;
     ml_string_sq_end := ml_string_sq_end self;
     comment_format := comment_format self;
     string_format := string_format self |}.

Definition set_ml_string_dq (s e : QRegularExpression)
                            (self : SyntaxHighlighter) : SyntaxHighlighter :=
  {| highlighting_rules := highlighting_rules self;
     ml_comment_start := ml_comment_start self;
     ml_comment_end := ml_comment_end self;
     ml_string_dq_start := Some s;
     ml_string_dq_end := Some e;
     ml_string_sq_start := ml_string_sq_start self;
     ml_string_sq_end := ml_string_sq_end self;
     comment_format := comment_format self;
     string_format := string_format self |}.

Definition set_ml_string_sq (s e : QRegularExpression)
                            (self : SyntaxHighlighter) : SyntaxHighlighter :=
  {| highlighting_rules := highlighting_rules self;
     ml_comment_start := ml_comment_start self;
     ml_comment_end := ml_comment_end self;
     ml_string_dq_start := ml_string_dq_start self;
     ml_string_dq_end := ml_string_dq_end self;
     ml_string_sq_start := Some s;
     ml_string_sq_end := Some e;
     comment_format := comment_format self;
     string_format := string_format self |}.

(** [language in names]. *)
Definition among (names : list string) (name : string) : bool :=
  existsb (String.eqb name) names.

Definition py_keywords : list string :=
  ["and"; "as"; "assert"; "async"; "await"; "break"; "class"; "continue";
   "def"; "del"; "elif"; "else"; "except"; "False"; "finally"; "for";
   "from"; "global"; "if"; "import"; "in"; "is"; "lambda"; "None";
   "nonlocal"; "not"; "or"; "pass"; "raise"; "return"; "True"; "try";
   "while"; "with"; "yield"].

Definition py_builtins : list string :=
  ["int"; "str"; "float"; "list"; "dict"; "tuple"; "set"; "bool"; "print";
   "len"; "range"; "open"; "super"; "isinstance"; "type"].

Definition cpp_types : list string :=
  ["int"; "float"; "double"; "char"; "void"; "bool"; "string"; "vector";
   "map"; "set"; "pair"; "tuple"; "istream"; "ostream"; "fstream"; "size_t"].

Definition cpp_keywords : list string :=
  ["alignas"; "alignof"; "and"; "and_eq"; "asm"; "atomic_cancel";
   "atomic_commit"; "atomic_noexcept"; "auto"; "bitand"; "bitor"; "bool";
   "break"; "case"; "catch"; "char"; "char8_t"; "char16_t"; "char32_t";
   "class"; "compl"; "concept"; "const"; "consteval"; "constexpr";
   "constinit"; "const_cast"; "continue"; "co_await"; "co_return";
   "co_yield"; "decltype"; "default"; "delete"; "do"; "double";
   "dynamic_cast"; "else"; "enum"; "explicit"; "export"; "extern"; "false";
   "float"; "for"; "friend"; "goto"; "if"; "inline"; "int"; "long";
   "mutable"; "namespace"; "new"; "noexcept"; "not"; "not_eq"; "nullptr";
   "operator"; "or"; "or_eq"; "private"; "protected"; "public"; "reflexpr";
   "register"; "reinterpret_cast"; "requires"; "return"; "short"; "signed";
   "sizeof"; "static"; "static_assert"; "static_cast"; "struct"; "switch";
   "synchronized"; "template"; "this"; "thread_local"; "throw"; "true";
   "try"; "typedef"; "typeid"; "typename"; "union"; "unsigned"; "using";
   "virtual"; "void"; "volatile"; "wchar_t"; "while"; "xor"; "xor_eq"].

Definition sql_keywords : list string :=
  ["SELECT"; "FROM"; "WHERE"; "INSERT"; "UPDATE"; "DELETE"; "CREATE";
   "ALTER"; "DROP"; "TABLE"; "VIEW"; "INDEX"; "JOIN"; "LEFT"; "RIGHT";
   "INNER"; "OUTER"; "ON"; "AS"; "GROUP"; "BY"; "ORDER"; "ASC"; "DESC";
   "AND"; "OR"; "NOT"; "NULL"; "IN"; "LIKE"; "BETWEEN"; "CASE"; "WHEN";
   "THEN"; "ELSE"; "END"; "DISTINCT"; "HAVING"; "UNION"; "ALL"; "EXISTS";
   "VALUES"; "INTO"; "SET"; "BEGIN"; "TRANSACTION"; "COMMIT"; "ROLLBACK";
   "PRIMARY"; "FOREIGN"; "KEY"; "REFERENCES"; "CONSTRAINT"; "DEFAULT";
   "CHECK"; "TRIGGER"; "PROCEDURE"; "FUNCTION"; "CAST"; "CONVERT";
   "DECLARE"; "EXEC"; "EXECUTE"; "GO"; "IF"; "IS"; "VARCHAR"; "INT";
   "FLOAT"; "DATETIME"; "TEXT"; "BLOB"].

Definition sql_funcs : list string :=
  ["COUNT"; "SUM"; "AVG"; "MIN"; "MAX"; "GETDATE"; "NOW"; "DATE";
   "SUBSTRING"; "LOWER"; "UPPER"; "ABS"; "ROUND"; "COALESCE"; "ISNULL"].

Definition cs_keywords : list string :=
  ["abstract"; "as"; "base"; "bool"; "break"; "byte"; "case"; "catch";
   "char"; "checked"; "class"; "const"; "continue"; "decimal"; "default";
   "delegate"; "do"; "double"; "else"; "enum"; "event"; "explicit";
   "extern"; "false"; "finally"; "fixed"; "float"; "for"; "foreach";
   "goto"; "if"; "implicit"; "in"; "int"; "interface"; "internal"; "is";
   "lock"; "long"; "namespace"; "new"; "null"; "object"; "operator"; "out";
   "override"; "params"; "private"; "protected"; "public"; "readonly";
   "ref"; "return"; "sbyte"; "sealed"; "short"; "sizeof"; "stackalloc";
   "static"; "string"; "struct"; "switch"; "this"; "throw"; "true"; "try";
   "typeof"; "uint"; "ulong"; "unchecked"; "unsafe"; "ushort"; "using";
   "virtual"; "void"; "volatile"; "while"; "get"; "set"; "value"; "var";
   "add"; "remove"; "yield"; "dynamic"; "await"; "async"].

Definition css_vals : list string :=
  ["auto"; "inherit"; "initial"; "unset"; "none"; "block"; "inline";
   "flex"; "grid"; "bold"; "italic"; "normal"; "absolute"; "relative";
   "fixed"; "static"].

Definition js_keywords : list string :=
  ["break"; "case"; "catch"; "class"; "const"; "continue"; "debugger";
   "default"; "delete"; "do"; "else"; "export"; "extends"; "false";
   "finally"; "for"; "function"; "if"; "import"; "in"; "instanceof"; "let";
   "new"; "null"; "return"; "super"; "switch"; "this"; "throw"; "true";
   "try"; "typeof"; "var"; "void"; "while"; "with"; "yield"; "async";
   "await"; "static"; "get"; "set"; "arguments"; "of"; "undefined"].

Definition js_builtins : list string :=
  ["console"; "Math"; "JSON"; "Promise"; "Object"; "Array"; "String";
   "Number"; "Boolean"; "Date"; "RegExp"; "Error"; "Symbol"; "Map"; "Set";
   "WeakMap"; "WeakSet"; "Intl"; "isNaN"; "parseFloat"; "parseInt";
   "document"; "window"; "fetch"; "setTimeout"; "setInterval";
   "clearTimeout"; "clearInterval"; "alert"; "confirm"; "prompt"].

(** The double quote and the line feed, for pattern strings. *)
Definition dq : string := String DQ "".
Definition lf : string := String LF "".

Section Setup.

(** The settings store: the value stored under a key, if any. *)
Variable settings : string -> option string.

Definition value (key default : string) : string :=
  match settings key with
  | Some v => v
  | None => default
  end.

(** *** [_load_colors] *)

Definition keyword_color := Color (value "syntax_colors/keyword" (default_color "keyword")).
Definition comment_color := Color (value "syntax_colors/comment" (default_color "comment")).
Definition string_color := Color (value "syntax_colors/string" (default_color "string")).
Definition number_color := Color (value "syntax_colors/number" (default_color "number")).
Definition function_color := Color (value "syntax_colors/function" (default_color "function")).
Definition class_type_color := Color (value "syntax_colors/class_type" (default_color "class_type")).
Definition op_brace_color_str := value "syntax_colors/operator_brace" (default_color "operator_brace").
Definition operator_color := Color op_brace_color_str.
Definition brace_color := Color op_brace_color_str.
Definition predec_color_str := value "syntax_colors/preprocessor_decorator" (default_color "preprocessor_decorator").
Definition preprocessor_color := Color predec_color_str.
Definition decorator_color := Color predec_color_str.
Definition tag_color := Color (value "syntax_colors/tag" (default_color "tag")).
Definition attribute_color := Color (value "syntax_colors/attribute" (default_color "attribute")).
Definition selector_color := Color (value "syntax_colors/selector" (default_color "selector")).
Definition property_color := Color (value "syntax_colors/property" (default_color "property")).
Definition value_color := string_color.
Definition css_value_color := string_color.
Definition md_header_color := tag_color.
Definition md_emphasis_color := keyword_color.
Definition md_code_color := number_color.
Definition cpp_type_color := class_type_color.
Definition cpp_literal_color := number_color.
Definition self_format_color := attribute_color.
Definition builtin_format_color := class_type_color.
Definition regex_format_color := string_color.

(** *** Common formats *)

Definition keyword_format := setFontWeightBold (plain keyword_color).
Definition operator_format := plain operator_color.
Definition brace_format := plain brace_color.
Definition comment_format_ := setFontItalic (plain comment_color).
Definition string_format_ := plain string_color.
Definition number_format := plain number_color.
Definition function_format := plain function_color.
Definition class_type_format := plain class_type_color.
Definition decorator_format := plain decorator_color.
Definition preprocessor_format := plain preprocessor_color.
Definition tag_format := setFontWeightBold (plain tag_color).
Definition attribute_format := setFontItalic (plain attribute_color).
Definition value_format := plain value_color.
Definition selector_format := setFontWeightBold (plain selector_color).
Definition property_format := plain property_color.
Definition css_value_format := plain css_value_color.
Definition md_header_format := setFontWeightBold (plain md_header_color).
Definition md_emphasis_format := setFontWeightBold (plain md_emphasis_color).
Definition md_italic_format := setFontItalic (plain md_emphasis_color).
Definition md_code_format := setBackground (Color "#404040") (plain md_code_color).
Definition md_code_block_marker_format := plain comment_color.
Definition link_format := setUnderline (plain tag_color).
Definition entity_format := plain number_color.
Definition unit_format := plain number_color.
Definition color_format := plain number_color.
Definition self_format := plain self_format_color.
Definition builtin_format := plain builtin_format_color.
Definition regex_format := plain regex_format_color.
Definition cpp_type_format := plain cpp_type_color.
Definition cpp_literal_format := setFontWeightBold (plain cpp_literal_color).

Definition function_call_rule : QRegularExpression * QTextCharFormat :=
  (QRegularExpression_ "\b\w+(?=\s*\()", function_format).

(** One rule per word: the pattern is the word between [before] and
    [after], as the source's formatted strings build it. *)
Definition word_rules (mk : string -> QRegularExpression) (before after : string)
                      (format : QTextCharFormat) (words : list string)
  : list (QRegularExpression * QTextCharFormat) :=
  map (fun w => (mk (before ++ w ++ after), format)) words.

(** The object before [_setup_delimiters_and_rules] fills it. *)
Definition blank : SyntaxHighlighter :=
  {| highlighting_rules := [];
     ml_comment_start := None;
     ml_comment_end := None;
     ml_string_dq_start := None;
     ml_string_dq_end := None;
     ml_string_sq_start := None;
     ml_string_sq_end := None;
     comment_format := comment_format_;
     string_format := string_format_ |}.

Definition python_rules (self : SyntaxHighlighter) : SyntaxHighlighter :=
  let self := append (QRegularExpression_ "\bdef\s+(\w+)", function_format) self in
  let self := append (QRegularExpression_ "\bclass\s+(\w+)", class_type_format) self in
  let self := append (QRegularExpression_ "^\s*@\w+", decorator_format) self in
  let self := append (QRegularExpression_ "\bself\b", self_format) self in
  let self := append (QRegularExpression_ "\bcls\b", self_format) self in
  let self := append function_call_rule self in
  let self := extend (word_rules QRegularExpression_ "\b" "\b" builtin_format py_builtins) self in
  let self := extend (word_rules QRegularExpression_ "\b" "\b" keyword_format py_keywords) self in
  self.

Definition cpp_rules (self : SyntaxHighlighter) : SyntaxHighlighter :=
  let self := extend (word_rules QRegularExpression_ "\b(std::)?" "\b" cpp_type_format cpp_types) self in
  let self := append (QRegularExpression_ "\b(true|false|nullptr)\b", cpp_literal_format) self in
  let self := append (QRegularExpression_ "\b(class|struct)\s+(\w+)", class_type_format) self in
  let self := append (QRegularExpression_ "\b\w+(?=\s*\()", function_format) self in
  let self := append (QRegularExpression_ "^\s*#\w+.*", preprocessor_format) self in
  let self := append (QRegularExpression_ "\bthis\b", self_format) self in
  let self := append function_call_rule self in
  let self := extend (word_rules QRegularExpression_ "\b" "\b" keyword_format cpp_keywords) self in
  self.

Definition sql_rules (self : SyntaxHighlighter) : SyntaxHighlighter :=
  let self := extend (word_rules QRegularExpression_i "\b" "\b" function_format sql_funcs) self in
  let self := extend (word_rules QRegularExpression_i "\b" "\b" keyword_format sql_keywords) self in
  self.

Definition markdown_rules (self : SyntaxHighlighter) : SyntaxHighlighter :=
  let self := append (QRegularExpression_ "^#{1,6}\s+.*", md_header_format) self in
  let self := append (QRegularExpression_ "\*\*(.*?)\*\*", md_emphasis_format) self in
  let self := append (QRegularExpression_ "__([^_]+)__", md_emphasis_format) self in
  let self := append (QRegularExpression_ "\*([^*]+)\*", md_italic_format) self in
  let self := append (QRegularExpression_ "_([^_]+)_", md_italic_format) self in
  let self := append (QRegularExpression_ "`(.+?)`", md_code_format) self in
  let self := append (QRegularExpression_ "^```.*", md_code_block_marker_format) self in
  let self := append (QRegularExpression_ "!?\[.*?\]\(.*?\)", link_format) self in
  let self := append (QRegularExpression_ "^\s*[-*+]\s+.*", operator_format) self in
  let self := append (QRegularExpression_ "^>\s+.*", comment_format_) self in
  self.

Definition cs_rules (self : SyntaxHighlighter) : SyntaxHighlighter :=
  let self := append (QRegularExpression_ "\b(class|interface|enum|struct)\s+(\w+)", class_type_format) self in
  let self := append (QRegularExpression_ "\b\w+\s+(\w+)\s*\(", function_format) self in
  let self := append (QRegularExpression_ "^\s*\[.*\]", decorator_format) self in
  let self := append (QRegularExpression_ "^\s*#\w+.*", preprocessor_format) self in
  let self := append (QRegularExpression_ "\bthis\b", self_format) self in
  let self := append function_call_rule self in
  let self := extend (word_rules QRegularExpression_ "\b" "\b" keyword_format cs_keywords) self in
  self.

Definition html_rules (self : SyntaxHighlighter) : SyntaxHighlighter :=
  let self := set_ml_comment (QRegularExpression_ "<!--") (QRegularExpression_ "-->") self in
  let self := append (QRegularExpression_ "</?([a-zA-Z0-9\-]+)\b", tag_format) self in
  let self := append (QRegularExpression_ "<!DOCTYPE\b", tag_format) self in
  let self := append (QRegularExpression_ "\b([a-zA-Z\-]+)\s*=", attribute_format) self in
  let self := append (QRegularExpression_ "&[a-zA-Z0-9#]+;", entity_format) self in
  self.

Definition css_rules (self : SyntaxHighlighter) : SyntaxHighlighter :=
  let self := append (QRegularExpression_ "^\s*([\*\.#]?[a-zA-Z0-9\-_]+(?:\s*[,>+~ ]\s*[\*\.#]?[a-zA-Z0-9\-_]+)*)", selector_format) self in
  let self := append (QRegularExpression_ ":[a-zA-Z\-]+(\(.*?\))?", selector_format) self in
  let self := append (QRegularExpression_ "\b([a-zA-Z\-]+)\s*:", property_format) self in
  let self := append (QRegularExpression_ "\b\d+(px|em|rem|%|pt|vh|vw|s|ms)\b", unit_format) self in
  let self := append (QRegularExpression_ "#[0-9a-fA-F]{3,8}\b", color_format) self in
  let self := append (QRegularExpression_ "\b(rgb|rgba|hsl|hsla)\(.*?\)", color_format) self in
  let self := extend (word_rules QRegularExpression_ "\b" "\b" css_value_format css_vals) self in
  self.

Definition javascript_rules (self : SyntaxHighlighter) : SyntaxHighlighter :=
  let self := extend (word_rules QRegularExpression_ "\b" "\b" builtin_format js_builtins) self in
  let self := append (QRegularExpression_ "\b(function|const|let|var)\s+\*?(\w+)", function_format) self in
  let self := append (QRegularExpression_ "=>", operator_format) self in
  let self := append (QRegularExpression_ "\bclass\s+(\w+)", class_type_format) self in
  let self := append (QRegularExpression_ "/[^/\n\\]*(?:\\.[^/\n\\]*)*/[gimyus]*", regex_format) self in
  let self := append (QRegularExpression_ "\bthis\b", self_format) self in
  let self := append function_call_rule self in
  let self := extend (word_rules QRegularExpression_ "\b" "\b" keyword_format js_keywords) self in
  self.

(** *** [_setup_delimiters_and_rules] *)

(** [if condition: statement], on the object. *)
Definition when (condition : bool) (statement : SyntaxHighlighter -> SyntaxHighlighter)
                (self : SyntaxHighlighter) : SyntaxHighlighter :=
  if condition then statement self else self.

Definition _setup_delimiters_and_rules (language : string) : SyntaxHighlighter :=
  let self := blank in
  (* General patterns *)
  let self := append (QRegularExpression_ (dq ++ ".*?(?<!\\)" ++ dq), string_format_) self in
  let self := append (QRegularExpression_ "'.*?(?<!\\)'", string_format_) self in
  let self := when (language =? "javascript")
                (append (QRegularExpression_ "`.*?`", string_format_)) self in
  let self := when (language =? "c++")
                (append (QRegularExpression_ ("R" ++ dq ++ "\((?:(?!\)).)*\)" ++ dq), string_format_)) self in
  let self := append (QRegularExpression_ "\b[0-9]+\.?[0-9]*([eE][-+]?[0-9]+)?\b", number_format) self in
  let self := append (QRegularExpression_ "\b0[xX][0-9a-fA-F]+\b", number_format) self in
  let self := append (QRegularExpression_ "\b0[bB][01]+\b", number_format) self in
  let self := append (QRegularExpression_ "\b0[oO]?[0-7]+\b", number_format) self in
  let ops := "[=\+\-\*\/%<>&\|\^~!:\.\?,\.;]" in
  let braces := "[\(\)\{\}\[\]]" in
  let self := append (QRegularExpression_ ops, operator_format) self in
  let self := append (QRegularExpression_ braces, brace_format) self in
  (* Multi-line comment delimiters *)
  let self := when (among ["c++"; "c#"; "javascript"; "css"] language)
                (set_ml_comment (QRegularExpression_ "/\*") (QRegularExpression_ "\*/")) self in
  let self := when (language =? "html")
                (set_ml_comment (QRegularExpression_ "<!--") (QRegularExpression_ "-->")) self in
  let self := when (language =? "python")
                (fun self =>
                   let self := set_ml_string_dq (QRegularExpression_ (dq ++ dq ++ dq))
                                                (QRegularExpression_ (dq ++ dq ++ dq)) self in
                   set_ml_string_sq (QRegularExpression_ "'''") (QRegularExpression_ "'''") self)
                self in
  (* Single line comments *)
  let self := when (among ["python"; "markdown"; "text"] language)
                (append (QRegularExpression_ ("#[^" ++ lf ++ "]*"), comment_format_)) self in
  let self := when (among ["c++"; "c#"; "javascript"] language)
                (append (QRegularExpression_ ("//[^" ++ lf ++ "]*"), comment_format_)) self in
  let self := when (language =? "sql")
                (append (QRegularExpression_ ("--[^" ++ lf ++ "]*"), comment_format_)) self in
  (* Single line strings *)
  let self := append (QRegularExpression_ (dq ++ ".*?(?<!\\)" ++ dq), string_format_) self in
  let self := append (QRegularExpression_ "'.*?(?<!\\)'", string_format_) self in
  let self := when (language =? "javascript")
                (append (QRegularExpression_ "`.*?`", string_format_)) self in
  let self := when (language =? "c++")
                (append (QRegularExpression_ ("R" ++ dq ++ "\((?:(?!\)).)*\)" ++ dq), string_format_)) self in
  (* Language specific rules *)
  if language =? "python" then python_rules self
  else if language =? "c++" then cpp_rules self
  else if language =? "sql" then sql_rules self
  else if language =? "markdown" then markdown_rules self
  else if language =? "c#" then cs_rules self
  else if language =? "html" then html_rules self
  else if language =? "css" then css_rules self
  else if language =? "javascript" then javascript_rules self
  else self.

(** [SyntaxHighlighter(document, language)]. *)
Definition __init__ (language : string) : SyntaxHighlighter :=
  _setup_delimiters_and_rules (lower language).

End Setup.

(** ** The block being highlighted

    What the host keeps for the current block: the [setFormat] calls, in
    the order they were made, and the state of the block, which
    [setCurrentBlockState] overwrites and which otherwise stays as it was
    before the call. *)

Record Block : Type := {
  formats : list (Z * Z * QTextCharFormat);
  currentBlockState : Z
}.

Definition setFormat (start count : Z) (format : QTextCharFormat) (b : Block) : Block :=
  {| formats := formats b ++ [(start, count, format)];
     currentBlockState := currentBlockState b |}.

Definition setCurrentBlockState (state : Z) (b : Block) : Block :=
  {| formats := formats b; currentBlockState := state |}.

(** A block on which nothing has been painted yet. *)
Definition fresh (state : Z) : Block :=
  {| formats := []; currentBlockState := state |}.

(** The format a character ends with: [setFormat] ignores a call that
    starts outside the block, cuts it at the end of the block, and a
    later call overwrites an earlier one. *)
Definition covers (n i : Z) (span : Z * Z * QTextCharFormat) : bool :=
  let '(start, count, _) := span in
  (0 <=? start)%Z && (start <? n)%Z && (start <=? i)%Z
  && (i <? Z.min (start + count) n)%Z.

Definition format_at (n : Z) (spans : list (Z * Z * QTextCharFormat)) (i : Z)
  : option QTextCharFormat :=
  fold_left (fun cur span => if covers n i span then Some (snd span) else cur)
            spans None.

(** ** [highlightBlock] *)

(** [len(text)].  A text is the list of its characters, and a character
    is one unit of the offsets that the pattern engine reports and that
    [setFormat] takes: the texts are those of the Basic Multilingual
    Plane.  On a character outside it the interpreter counts one and the
    host two; such a text is not among these. *)
Definition len (text : list ascii) : Z := Z.of_nat (length text).

(** An index of a slice, brought into the text. *)
Definition index (n i : Z) : Z :=
  if (i <? 0)%Z then Z.max 0 (i + n) else Z.min i n.

(** [text[a:b]] and [text[a:]]. *)
Definition slice (text : list ascii) (a b : Z) : list ascii :=
  let a' := index (len text) a in
  let b' := index (len text) b in
  firstn (Z.to_nat (b' - a')) (skipn (Z.to_nat a') text).

Definition slice_from (text : list ascii) (a : Z) : list ascii :=
  skipn (Z.to_nat (index (len text) a)) text.

Section HighlightBlock.

Variable self : SyntaxHighlighter.

(** [previousBlockState()]: the same value all through one call, also in
    the recursive call on the tail. *)
Variable previous_state : Z.

(** [previous_state == state and ml_end]. *)
Definition active (state : Z) (ml_end : option QRegularExpression)
  : option QRegularExpression :=
  if (previous_state =? state)%Z then ml_end else None.

(** One branch of the continuation handling; the three branches of the
    source differ in the end pattern, the state and the format only.
    The result is [(start_index, current_state, block)]. *)
Definition continue_construct (ml_end : QRegularExpression) (state : Z)
    (format : QTextCharFormat) (text : list ascii) (b : Block)
  : Z * Z * Block :=
  match match_ ml_end text 0 with
  | None =>
      (0, state, setCurrentBlockState state (setFormat 0 (len text) format b))%Z
  | Some (end_index, construct_len) =>
      ((end_index + construct_len)%Z, STATE_NORMAL,
       setCurrentBlockState STATE_NORMAL
         (setFormat 0 (end_index + construct_len) format b))
  end.

Definition continuation (text : list ascii) (b : Block) : Z * Z * Block :=
  match active STATE_ML_COMMENT (ml_comment_end self) with
  | Some ml_end =>
      continue_construct ml_end STATE_ML_COMMENT (comment_format self) text b
  | None =>
  match active STATE_ML_STRING_DQ (ml_string_dq_end self) with
  | Some ml_end =>
      continue_construct ml_end STATE_ML_STRING_DQ (string_format self) text b
  | None =>
  match active STATE_ML_STRING_SQ (ml_string_sq_end self) with
  | Some ml_end =>
      continue_construct ml_end STATE_ML_STRING_SQ (string_format self) text b
  | None => (0%Z, STATE_NORMAL, b)
  end end end.

(** One check for the start of a multi-line construct; [found] is
    [(next_ml_start, matched_state, match_len)]. *)
Definition check_start (ml_start : option QRegularExpression) (state : Z)
    (text : list ascii) (start_index : Z) (found : Z * Z * Z) : Z * Z * Z :=
  match ml_start with
  | Some re =>
      match match_ re text start_index with
      | Some (idx, l) =>
          if (fst (fst found) =? -1)%Z || (idx <? fst (fst found))%Z
          then (idx, state, l)
          else found
      | None => found
      end
  | None => found
  end.

Definition find_ml_start (text : list ascii) (start_index : Z) : Z * Z * Z :=
  check_start (ml_string_sq_start self) STATE_ML_STRING_SQ text start_index
    (check_start (ml_string_dq_start self) STATE_ML_STRING_DQ text start_index
       (check_start (ml_comment_start self) STATE_ML_COMMENT text start_index
          (-1, STATE_NORMAL, 0)%Z)).

(** The single-line rules, in table order, each over all its matches. *)
Definition apply_rule (start_index : Z) (sub_text : list ascii) (b : Block)
    (rule : QRegularExpression * QTextCharFormat) : Block :=
  fold_left (fun b m => setFormat (start_index + fst m) (snd m) (snd rule) b)
            (globalMatch (fst rule) sub_text) b.

Definition apply_rules (start_index : Z) (sub_text : list ascii) (b : Block) : Block :=
  match sub_text with
  | [] => b
  | _ => fold_left (apply_rule start_index sub_text) (highlighting_rules self) b
  end.

(** The end pattern and the format of the construct that starts. *)
Definition ml_end_of (current_state : Z) : option QRegularExpression * QTextCharFormat :=
  if (current_state =? STATE_ML_COMMENT)%Z
  then (ml_comment_end self, comment_format self)
  else if (current_state =? STATE_ML_STRING_DQ)%Z
  then (ml_string_dq_end self, string_format self)
  else if (current_state =? STATE_ML_STRING_SQ)%Z
  then (ml_string_sq_end self, string_format self)
  else (None, comment_format self).

Definition end_match (ml_end_regex : option QRegularExpression)
    (text : list ascii) (offset : Z) : option (Z * Z) :=
  match ml_end_regex with
  | Some re => match_ re text offset
  | None => None
  end.

(** The scan phase, from [start_index]: the body of
    [if start_index < len(text) or len(text) == 0].  [recurse] is the
    call of [highlightBlock] on the tail; the result is
    [(current_state, block)]. *)
Definition scan (recurse : list ascii -> Block -> option Block)
    (text : list ascii) (start_index current_state : Z) (b : Block)
  : option (Z * Block) :=
  if (start_index <? len text)%Z || (len text =? 0)%Z then
    let '(next_ml_start, matched_state, match_len) :=
      find_ml_start text start_index in
    let process_end_index :=
      if (next_ml_start =? -1)%Z then len text else next_ml_start in
    let sub_text := slice text start_index process_end_index in
    let b := apply_rules start_index sub_text b in
    if (next_ml_start =? -1)%Z then Some (current_state, b)
    else
      let current_state := matched_state in
      let '(ml_end_regex, ml_format) := ml_end_of current_state in
      match end_match ml_end_regex text (next_ml_start + match_len) with
      | Some (end_index, end_len) =>
          let b := setFormat next_ml_start
                     (end_index + end_len - next_ml_start) ml_format b in
          let start_index := (end_index + end_len)%Z in
          match recurse (slice_from text start_index) b with
          | Some b => Some (STATE_NORMAL, b)
          | None => None
          end
      | None =>
          Some (current_state,
                setFormat next_ml_start (len text - next_ml_start) ml_format b)
      end
  else Some (current_state, b).

(** The last statement: the final state is written for a block whose
    previous state is normal. *)
Definition finish (scanned : option (Z * Block)) : option Block :=
  match scanned with
  | Some (current_state, b) =>
      Some (if (previous_state =? STATE_NORMAL)%Z
            then setCurrentBlockState current_state b
            else b)
  | None => None
  end.

(** [fuel] is the number of calls the interpreter still allows on its
    stack: the call takes one, and so does each call on a tail inside
    it.  [None] is the [RecursionError] of a call that finds none left,
    which ends the whole call. *)
Fixpoint highlightBlock (fuel : nat) (text : list ascii) (b : Block) : option Block :=
  match fuel with
  | 0 => None
  | S fuel' =>
      let '(start_index, current_state, b) := continuation text b in
      finish (scan (highlightBlock fuel') text start_index current_state b)
  end.

(** One call of the host on a block with [S (length text)] calls
    allowed.  A tail of the text is taken at each level of the
    recursion, so that many are enough for every text whenever each
    level shortens it, and the result is the one of every larger number.
    The interpreter allows about a thousand: on a text shorter than that
    this is its result. *)
Definition highlight (text : list ascii) (b : Block) : option Block :=
  highlightBlock (S (length text)) text b.

End HighlightBlock.

(** ** Notions used in the statements *)

Open Scope Z_scope.

(** A pattern string that was read. *)
Definition compiled (re : QRegularExpression) : bool :=
  match pattern re with
  | Some _ => true
  | None => false
  end.

Definition compiled_opt (re : option QRegularExpression) : bool :=
  match re with
  | Some re => compiled re
  | None => true
  end.

(** Every pattern of the object was read. *)
Definition patterns_compiled (self : SyntaxHighlighter) : bool :=
  forallb (fun rule => compiled (fst rule)) (highlighting_rules self)
  && compiled_opt (ml_comment_start self) && compiled_opt (ml_comment_end self)
  && compiled_opt (ml_string_dq_start self) && compiled_opt (ml_string_dq_end self)
  && compiled_opt (ml_string_sq_start self) && compiled_opt (ml_string_sq_end self).

(** A compiled pattern none of whose matches is empty. *)
Definition advances (re : QRegularExpression) : bool :=
  match pattern re with
  | Some r => negb (nullable r)
  | None => true
  end.

Definition advances_opt (re : option QRegularExpression) : bool :=
  match re with
  | Some re => advances re
  | None => true
  end.

(** The start and end patterns of the table match no empty string. *)
Definition delimiters_advance (self : SyntaxHighlighter) : bool :=
  advances_opt (ml_comment_start self) && advances_opt (ml_comment_end self)
  && advances_opt (ml_string_dq_start self) && advances_opt (ml_string_dq_end self)
  && advances_opt (ml_string_sq_start self) && advances_opt (ml_string_sq_end self).

Definition inside (n : Z) (span : Z * Z * QTextCharFormat) : Prop :=
  0 <= fst (fst span) /\ 0 <= snd (fst span)
  /\ fst (fst span) + snd (fst span) <= n.

Definition spans_inside (n : Z) (b : Block) : Prop :=
  Forall (inside n) (formats b).

(** What [find_ml_start] reports: nothing, or a start at or after
    [start_index] that lies in the text. *)
Definition start_ok (advance : bool) (text : list ascii) (start_index : Z)
    (found : Z * Z * Z) : Prop :=
  fst (fst found) = -1 \/
  (start_index <= fst (fst found) /\ 0 <= snd found
   /\ fst (fst found) + snd found <= len text
   /\ (advance = true -> 0 < snd found)).

(** The spans of the single-line rules over [sub_text]. *)
Definition rule_spans (self : SyntaxHighlighter) (start_index : Z)
    (sub_text : list ascii)
  : list (Z * Z * QTextCharFormat) :=
  match sub_text with
  | [] => []
  | _ => flat_map (fun rule =>
                     map (fun m => (start_index + fst m, snd m, snd rule))
                         (globalMatch (fst rule) sub_text))
                  (highlighting_rules self)
  end.

(** Two blocks with the same spans, whatever their states. *)
Definition same (b1 b2 : Block) : Prop := formats b1 = formats b2.

Definition same_result (r1 r2 : option Block) : Prop :=
  match r1, r2 with
  | Some b1, Some b2 => same b1 b2
  | None, None => True
  | _, _ => False
  end.

Definition same_scanned (r1 r2 : option (Z * Block)) : Prop :=
  match r1, r2 with
  | Some (_, b1), Some (_, b2) => same b1 b2
  | None, None => True
  | _, _ => False
  end.

(** No continuation branch is taken for [previous_state]. *)
Definition inactive (self : SyntaxHighlighter) (previous_state : Z) : Prop :=
  active previous_state STATE_ML_COMMENT (ml_comment_end self) = None
  /\ active previous_state STATE_ML_STRING_DQ (ml_string_dq_end self) = None
  /\ active previous_state STATE_ML_STRING_SQ (ml_string_sq_end self) = None.

(** The names [_setup_delimiters_and_rules] recognises. *)
Definition languages : list string :=
  ["python"; "c++"; "sql"; "markdown"; "c#"; "html"; "css"; "javascript";
   "text"].

Definition construct_states : list Z :=
  [STATE_ML_COMMENT; STATE_ML_STRING_DQ; STATE_ML_STRING_SQ].

(** A settings store with nothing stored: every colour is its default. *)
Definition defaults : string -> option string := fun _ => None.

(** The text of a block, from a string. *)
Definition text_of (s : string) : list ascii := list_ascii_of_string s.

End Highlighter.

(** ** Tags of a snippet: [_save_snippet] and the tag filter of [load_snippets] *)

Module Snippets.

Import Chars.

Open Scope string_scope.

(** The characters [str.strip()] removes. *)
Definition is_space (c : ascii) : bool :=
  let n := code c in
  (((9 <=? n) && (n <=? 13)) || ((28 <=? n) && (n <=? 32))
   || (n =? 133) || (n =? 160))%nat.

Fixpoint lstrip (s : list ascii) : list ascii :=
  match s with
  | c :: rest => if is_space c then lstrip rest else s
  | [] => []
  end.

Definition strip (s : list ascii) : list ascii :=
  rev (lstrip (rev (lstrip s))).

(** [s.split(sep)] for a one-character separator. *)
Fixpoint split (sep : ascii) (s : list ascii) : list (list ascii) :=
  match s with
  | [] => [[]]
  | c :: rest =>
      if Ascii.eqb c sep then [] :: split sep rest
      else match split sep rest with
           | piece :: pieces => (c :: piece) :: pieces
           | [] => [[c]]
           end
  end.

(** [sep.join(pieces)]. *)
Fixpoint join (sep : list ascii) (pieces : list (list ascii)) : list ascii :=
  match pieces with
  | [] => []
  | [piece] => piece
  | piece :: rest => piece ++ sep ++ join sep rest
  end.

Definition nonempty (s : list ascii) : bool :=
  match s with
  | [] => false
  | _ => true
  end.

(** The tags string [_save_snippet] stores for the text of the tags input. *)
Definition saved_tags (tags_input : string) : string :=
  string_of_list_ascii
    (join [","%char]
       (map strip
          (filter (fun t => nonempty (strip t))
             (split "," (strip (list_ascii_of_string tags_input)))))).

(** The character that ends a C string. *)
Definition NUL : ascii := ascii_of_nat 0.

(** What the store reads of a text it takes as a C string: the part
    before the first [NUL]. *)
Fixpoint until_nul (s : list ascii) : list ascii :=
  match s with
  | [] => []
  | c :: rest => if Ascii.eqb c NUL then [] else c :: until_nul rest
  end.

(** The number of bytes of a text in the store, which keeps it in UTF-8:
    one byte for a character below 128, two for the others. *)
Definition bytes (s : list ascii) : Z :=
  fold_right (fun c n => ((if (code c <? 128)%nat then 1 else 2) + n)%Z) 0%Z s.

(** The longest pattern [LIKE] takes, in bytes. *)
Definition SQLITE_MAX_LIKE_PATTERN_LENGTH : Z := 50000.

(** The comparison of [LIKE] on what is read of the pattern and of the
    text: [%] stands for any run of characters, [_] for one character,
    the letters [A] to [Z] compare without case. *)
Fixpoint patternCompare (pat text : list ascii) : bool :=
  match pat with
  | [] => negb (nonempty text)
  | "%"%char :: pat' =>
      (fix any (t : list ascii) : bool :=
         patternCompare pat' t || match t with
                                  | [] => false
                                  | _ :: t' => any t'
                                  end) text
  | "_"%char :: pat' =>
      match text with
      | _ :: text' => patternCompare pat' text'
      | [] => false
      end
  | c :: pat' =>
      match text with
      | d :: text' => Ascii.eqb (to_lower c) (to_lower d) && patternCompare pat' text'
      | [] => false
      end
  end.

(** [text LIKE pat] of the store, for a text that is not NULL.  A pattern
    of more than 50000 bytes is an error, [None]: the query raises
    [OperationalError].  Otherwise the pattern and the text are compared
    up to their first [NUL]. *)
Definition like (pat text : list ascii) : option bool :=
  if (SQLITE_MAX_LIKE_PATTERN_LENGTH <? bytes pat)%Z then None
  else Some (patternCompare (until_nul pat) (until_nul text)).

Definition LIKE (text pat : string) : option bool :=
  like (list_ascii_of_string pat) (list_ascii_of_string text).

(** [a OR b] in a condition: [b] is evaluated when [a] is false, and an
    error ends the query. *)
Definition OR (a b : option bool) : option bool :=
  match a with
  | Some true => Some true
  | Some false => b
  | None => None
  end.

(** The four parameters of the tag condition. *)
Definition tag_in_the_middle (tag_filter : string) : string := "%," ++ tag_filter ++ ",%".
Definition tag_at_the_start (tag_filter : string) : string := tag_filter ++ ",%".
Definition tag_at_the_end (tag_filter : string) : string := "%," ++ tag_filter.
Definition tag_is_the_only_one (tag_filter : string) : string := tag_filter.

(** [(tags LIKE ? OR tags LIKE ? OR tags LIKE ? OR tags = ?)]; the
    equality compares the whole texts, case and [NUL] included. *)
Definition tag_condition (tag_filter tags : string) : option bool :=
  OR (OR (OR (LIKE tags (tag_in_the_middle tag_filter))
             (LIKE tags (tag_at_the_start tag_filter)))
         (LIKE tags (tag_at_the_end tag_filter)))
     (Some (String.eqb tags (tag_is_the_only_one tag_filter))).

(** Whether a row passes the tag filter of [load_snippets]: the condition
    is added when a filter is given and is not [All Tags]. *)
Definition passes_tag_filter (tag_filter : option string) (tags : string)
  : option bool :=
  match tag_filter with
  | Some f =>
      if negb (String.eqb f "") && negb (String.eqb f "All Tags")
      then tag_condition f tags
      else Some true
  | None => Some true
  end.

End Snippets.

(** ** The document: [rehighlight] *)

Module Document.

Import Chars Regex Highlighter.

Open Scope Z_scope.

(** [QSyntaxHighlighter.rehighlight()]: the blocks of the document in
    order.  A block is its text and the state it carries from before;
    its formats are cleared before [highlightBlock] is called on it, and
    [previousBlockState()] is the state the block before it was left in,
    [-1] for the first block. *)
Fixpoint rehighlight_from (self : SyntaxHighlighter) (previous_state : Z)
    (document : list (list ascii * Z)) : option (list Block) :=
  match document with
  | [] => Some []
  | (text, state) :: rest =>
      match highlight self previous_state text (fresh state) with
      | Some b =>
          match rehighlight_from self (currentBlockState b) rest with
          | Some bs => Some (b :: bs)
          | None => None
          end
      | None => None
      end
  end.

Definition rehighlight (self : SyntaxHighlighter)
    (document : list (list ascii * Z)) : option (list Block) :=
  rehighlight_from self (-1) document.

(** [_update_highlighter(language)] of the window: a new highlighter on
    the document of the editor, then [rehighlight()]. *)
Definition _update_highlighter (settings : string -> option string)
    (language : string) (document : list (list ascii * Z))
  : option (list Block) :=
  rehighlight (__init__ settings language) document.

(** The start pattern of the construct of a state. *)
Definition ml_start_of (self : SyntaxHighlighter) (state : Z)
  : option QRegularExpression :=
  if state =? STATE_ML_COMMENT then ml_comment_start self
  else if state =? STATE_ML_STRING_DQ then ml_string_dq_start self
  else if state =? STATE_ML_STRING_SQ then ml_string_sq_start self
  else None.

(** A state from which the continuation handling can go on: the normal
    state, or the state of a construct whose end pattern the object
    has. *)
Definition closable (self : SyntaxHighlighter) (state : Z) : Prop :=
  state = STATE_NORMAL \/ fst (ml_end_of self state) <> None.

(** Each construct of the object has both patterns or none. *)
Definition paired (self : SyntaxHighlighter) : bool :=
  forallb (fun state =>
             match ml_start_of self state, fst (ml_end_of self state) with
             | Some _, Some _ => true
             | None, None => true
             | _, _ => false
             end)
          construct_states.

(** The object has no multi-line construct. *)
Definition no_constructs (self : SyntaxHighlighter) : bool :=
  forallb (fun state =>
             match ml_start_of self state, fst (ml_end_of self state) with
             | None, None => true
             | _, _ => false
             end)
          construct_states.

(** The languages [_setup_delimiters_and_rules] gives a construct to. *)
Definition construct_languages : list string :=
  ["c++"; "c#"; "javascript"; "css"; "html"; "python"]%string.

(** The positions of the spans, without their formats. *)
Definition places (spans : list (Z * Z * QTextCharFormat)) : list (Z * Z) :=
  map fst spans.

(** Two objects with the same patterns, in the rules and in the
    constructs. *)
Definition same_patterns (self1 self2 : SyntaxHighlighter) : Prop :=
  map fst (highlighting_rules self1) = map fst (highlighting_rules self2)
  /\ ml_comment_start self1 = ml_comment_start self2
  /\ ml_comment_end self1 = ml_comment_end self2
  /\ ml_string_dq_start self1 = ml_string_dq_start self2
  /\ ml_string_dq_end self1 = ml_string_dq_end self2
  /\ ml_string_sq_start self1 = ml_string_sq_start self2
  /\ ml_string_sq_end self1 = ml_string_sq_end self2.

(** Two blocks with spans at the same places and with the same state. *)
Definition alike (b1 b2 : Block) : Prop :=
  places (formats b1) = places (formats b2)
  /\ currentBlockState b1 = currentBlockState b2.

Definition alike_result (r1 r2 : option Block) : Prop :=
  match r1, r2 with
  | Some b1, Some b2 => alike b1 b2
  | None, None => True
  | _, _ => False
  end.

Definition alike_scanned (r1 r2 : option (Z * Block)) : Prop :=
  match r1, r2 with
  | Some (c1, b1), Some (c2, b2) => c1 = c2 /\ alike b1 b2
  | None, None => True
  | _, _ => False
  end.

(** A line of [n] comments, each opened and closed at once. *)
Definition closed_comments (n : nat) : list ascii :=
  concat (repeat (text_of "/**/") n).

End Document.

(** ** The table of snippets: the conditions of [load_snippets], [get_unique_tags] and saving *)

Module Store.

Import Chars Snippets.

Open Scope string_scope.

(** [get_unique_tags]: the tags one row adds to the collected set,
    [{tag.strip() for tag in tags_in_snippet_str.split(',') if tag.strip()}],
    in the order of the row. *)
Definition tags_this_row (tags_in_snippet_str : string) : list string :=
  map (fun tag => string_of_list_ascii (strip tag))
      (filter (fun tag => nonempty (strip tag))
         (split "," (list_ascii_of_string tags_in_snippet_str))).

(** A string without the two wildcards of [LIKE] and without [NUL]. *)
Definition literal (s : list ascii) : Prop :=
  Forall (fun c => c <> "%"%char /\ c <> "_"%char /\ c <> NUL) s.

(** A tag without wildcards, without [NUL] and without a comma. *)
Definition plain_tag (s : list ascii) : Prop :=
  Forall (fun c => c <> "%"%char /\ c <> "_"%char /\ c <> NUL /\ c <> ","%char) s.

(** Equal up to the case of the letters [A] to [Z]. *)
Definition caseless (s t : list ascii) : Prop :=
  map to_lower s = map to_lower t.

(** A string that starts with a character [strip] keeps, or is empty. *)
Definition headed (s : list ascii) : Prop :=
  match s with
  | [] => True
  | c :: _ => is_space c = false
  end.

(** A run of the characters [strip] removes. *)
Definition spaces (s : list ascii) : Prop :=
  Forall (fun c => is_space c = true) s.

(** The pieces between the commas, trimmed, without the empty ones. *)
Definition pieces (s : list ascii) : list (list ascii) :=
  map strip (filter (fun t => nonempty (strip t)) (split "," s)).

(** *** The table [snippets] *)

(** A row of the table made by [init_db].  A column that is not declared
    [NOT NULL] may hold NULL, which is [None]. *)
Record Row := {
  snippet_id : string;
  title : string;
  code : option string;
  language : option string;
  tags : option string;
  description : option string;
  created_at : option string;
  updated_at : option string
}.

(** The rows of the table, in the order in which they were inserted. *)
Definition Table := list Row.

Definition has_id (snippet_id_ : string) (row : Row) : bool :=
  String.eqb (snippet_id row) snippet_id_.

(** [add_snippet]: [new_id] is [uuid.uuid4().hex] and
    [timestamp_str_for_db] the formatted time of the call.  The insertion
    raises when the table has a row with that primary key. *)
Definition add_snippet (db : Table) (new_id timestamp_str_for_db : string)
    (title_ code_ language_ tags_ description_ : string) : option (Table * string) :=
  if existsb (has_id new_id) db then None
  else Some ((db ++ [{| snippet_id := new_id;
                       title := title_;
                       code := Some code_;
                       language := Some language_;
                       tags := Some tags_;
                       description := Some description_;
                       created_at := Some timestamp_str_for_db;
                       updated_at := Some timestamp_str_for_db |}])%list,
             new_id).

(** [update_snippet], with the trigger [update_snippet_timestamp] of
    [init_db], which sets [updated_at] of the updated row to
    [CURRENT_TIMESTAMP]. *)
Definition update_snippet (db : Table) (CURRENT_TIMESTAMP : string)
    (snippet_id_ title_ code_ language_ tags_ description_ : string) : Table :=
  map (fun row =>
         if has_id snippet_id_ row
         then {| snippet_id := snippet_id row;
                 title := title_;
                 code := Some code_;
                 language := Some language_;
                 tags := Some tags_;
                 description := Some description_;
                 created_at := created_at row;
                 updated_at := Some CURRENT_TIMESTAMP |}
         else row)
      db.

(** [delete_snippet]. *)
Definition delete_snippet (db : Table) (snippet_id_ : string) : Table :=
  filter (fun row => negb (has_id snippet_id_ row)) db.

(** [get_snippet_details]: the row, or [None]. *)
Definition get_snippet_details (db : Table) (snippet_id_ : string) : option Row :=
  find (has_id snippet_id_) db.

(** *** The search condition of [load_snippets] *)

(** [column LIKE ?].  On a column that is NULL the store still takes the
    pattern, so a pattern that is too long is an error; otherwise the
    result is NULL, and a condition that is NULL selects no row. *)
Definition column_like (column : option string) (pat : string) : option bool :=
  match column with
  | Some text => LIKE text pat
  | None =>
      if (SQLITE_MAX_LIKE_PATTERN_LENGTH <? bytes (list_ascii_of_string pat))%Z
      then None
      else Some false
  end.

(** [(title LIKE ? OR tags LIKE ? OR language LIKE ? OR description LIKE ?
    OR code LIKE ?)], each parameter being [like_term]. *)
Definition search_condition (search_term : string) (row : Row) : option bool :=
  let like_term := "%" ++ search_term ++ "%" in
  OR (OR (OR (OR (LIKE (title row) like_term)
                 (column_like (tags row) like_term))
             (column_like (language row) like_term))
         (column_like (description row) like_term))
     (column_like (code row) like_term).

(** Whether a Python string counts as true. *)
Definition truthy (s : string) : bool := negb (String.eqb s "").

(** The texts the search condition looks at: the columns that are not
    NULL. *)
Definition searched_columns (row : Row) : list string :=
  (title row
   :: match tags row with Some t => [t] | None => [] end
   ++ match language row with Some t => [t] | None => [] end
   ++ match description row with Some t => [t] | None => [] end
   ++ match code row with Some t => [t] | None => [] end)%list.

(** [term] occurs in [text], up to the case of the letters. *)
Definition occurs (term text : list ascii) : Prop :=
  exists before found rest,
    text = (before ++ found ++ rest)%list /\ caseless found term.

(** The primary key: no two rows have the same [id]. *)
Definition primary_key (db : Table) : Prop := NoDup (map snippet_id db).

(** *** [_save_snippet] *)

Definition strip_ (s : string) : string :=
  string_of_list_ascii (strip (list_ascii_of_string s)).

(** The fields of the details panel and the snippet being edited. *)
Record Panel := {
  title_input : string;
  code_edit : string;
  language_combo : string;
  tags_input : string;
  description_edit : string;
  current_snippet_id : option string
}.

(** What [_save_snippet] does to the table: nothing when the title is
    empty after trimming or when the store raises; otherwise the row
    being edited is updated, or a new row is added. *)
Definition _save_snippet (db : Table) (new_id now : string) (self : Panel) : Table :=
  let title_ := strip_ (title_input self) in
  if negb (truthy title_) then db
  else
    let code_ := code_edit self in
    let language_ := language_combo self in
    let tags_ := saved_tags (tags_input self) in
    let description_ := strip_ (description_edit self) in
    match current_snippet_id self with
    | Some id_ =>
        if truthy id_
        then update_snippet db now id_ title_ code_ language_ tags_ description_
        else match add_snippet db new_id now title_ code_ language_ tags_ description_ with
             | Some (db', _) => db'
             | None => db
             end
    | None =>
        match add_snippet db new_id now title_ code_ language_ tags_ description_ with
        | Some (db', _) => db'
        | None => db
        end
    end.

End Store.

(** ** The line number area: [LineNumberArea.sizeHint] *)

Module Editor.

Open Scope Z_scope.

(** The loop [while max_val >= 10: max_val //= 10; digits += 1]. *)
Fixpoint count_digits (fuel : nat) (max_val digits : Z) : option Z :=
  match fuel with
  | O => None
  | S fuel =>
      if max_val >=? 10
      then count_digits fuel (max_val / 10) (digits + 1)
      else Some digits
  end.

(** [sizeHint]: [blockCount] is the number of blocks of the editor and
    [advance] the width of the character [9] in its font; the result is
    the width and the height of the hint. *)
Definition sizeHint (blockCount advance : Z) : option (Z * Z) :=
  let digits := 1 in
  let max_val := Z.max 1 blockCount in
  match count_digits (S (Z.to_nat max_val)) max_val digits with
  | Some digits =>
      let space := 5 + advance * digits in
      Some (space, 0)
  | None => None
  end.

End Editor.

(** ** The preferences dialog *)

Module Preferences.

Open Scope string_scope.

(** Display name and settings key of the elements whose colour can be
    chosen. *)
Definition SYNTAX_ELEMENTS : list (string * string) :=
  [("Keyword", "keyword");
   ("Comment", "comment");
   ("String", "string");
   ("Number", "number");
   ("Function/Method", "function");
   ("Class/Type", "class_type");
   ("Operator/Brace", "operator_brace");
   ("Preprocessor/Decorator", "preprocessor_decorator");
   ("HTML/XML Tag", "tag");
   ("HTML/XML Attribute", "attribute");
   ("CSS Selector", "selector");
   ("CSS Property", "property")].

(** The default colours of the dialog. *)
Definition DEFAULT_COLORS : list (string * string) :=
  [("keyword", "#C586C0");
   ("comment", "#6A9955");
   ("string", "#CE9178");
   ("number", "#B5CEA8");
   ("function", "#DCDCAA");
   ("class_type", "#4EC9B0");
   ("operator_brace", "#D4D4D4");
   ("preprocessor_decorator", "#808080");
   ("tag", "#569CD6");
   ("attribute", "#9CDCFE");
   ("selector", "#D7BA7D");
   ("property", "#9CDCFE")].

(** [d.get(key)] and [d.get(key, default)] of a dictionary, and
    [d[key] = v], which keeps the place of a key that is there and puts a
    new key last. *)
Definition get (d : list (string * string)) (key : string) : option string :=
  match find (fun kv => String.eqb (fst kv) key) d with
  | Some kv => Some (snd kv)
  | None => None
  end.

Definition get_or (d : list (string * string)) (key default : string) : string :=
  match get d key with
  | Some v => v
  | None => default
  end.

Fixpoint set_item (d : list (string * string)) (key v : string) : list (string * string) :=
  match d with
  | [] => [(key, v)]
  | (k, x) :: rest =>
      if String.eqb k key then (k, v) :: rest else (k, x) :: set_item rest key v
  end.

(** [setValue(key, v)] of the settings store, which is read with
    [Highlighter.value].  The store keeps texts; a number is kept in
    decimal. *)
Definition setValue (settings : string -> option string) (key v : string) :
    string -> option string :=
  fun k => if String.eqb k key then Some v else settings k.

(** [_load_syntax_colors]: the colours of the settings, or the defaults. *)
Definition _load_syntax_colors (settings : string -> option string) :
    list (string * string) :=
  fold_left
    (fun _current_syntax_colors item =>
       let key := snd item in
       let default_color := get_or DEFAULT_COLORS key "#ffffff" in
       let color_str := Highlighter.value settings ("syntax_colors/" ++ key) default_color in
       set_item _current_syntax_colors key color_str)
    SYNTAX_ELEMENTS [].

(** [_change_color]: [current_item] is the text of the selected item of
    the list, if one is selected, and [new_color] the name of the colour
    the colour dialog returns, [None] when it returns no valid colour. *)
Definition _change_color (current_item new_color : option string)
    (_current_syntax_colors : list (string * string)) : list (string * string) :=
  match current_item with
  | None => _current_syntax_colors
  | Some display_name =>
      match get SYNTAX_ELEMENTS display_name with
      | None => _current_syntax_colors
      | Some key =>
          if String.eqb key "" then _current_syntax_colors
          else match new_color with
               | Some name => set_item _current_syntax_colors key name
               | None => _current_syntax_colors
               end
      end
  end.

(** [_reset_current_color]. *)
Definition _reset_current_color (current_item : option string)
    (_current_syntax_colors : list (string * string)) : list (string * string) :=
  match current_item with
  | None => _current_syntax_colors
  | Some display_name =>
      match get SYNTAX_ELEMENTS display_name with
      | None => _current_syntax_colors
      | Some key =>
          if String.eqb key "" then _current_syntax_colors
          else
            let default_color := get_or DEFAULT_COLORS key "#ffffff" in
            set_item _current_syntax_colors key default_color
      end
  end.

(** [_save_settings]: [theme] is the text of the theme box when
    [QT_MATERIAL_AVAILABLE], [radio_24h] whether the 24-hour button is
    checked, [tab_size] the value of the spin box. *)
Definition _save_settings (settings : string -> option string)
    (theme : option string) (radio_24h : bool) (tab_size : Z)
    (_current_syntax_colors : list (string * string)) : string -> option string :=
  let settings :=
    match theme with
    | Some current_text => setValue settings "appearance/theme" current_text
    | None => settings
    end in
  let time_format := if radio_24h then "24h" else "12h" in
  let settings := setValue settings "display/time_format" time_format in
  let settings := setValue settings "editor/tab_size"
                    (NilZero.string_of_int (Z.to_int tab_size)) in
  fold_left
    (fun settings item =>
       setValue settings ("syntax_colors/" ++ fst item) (snd item))
    _current_syntax_colors settings.

End Preferences.

(** * Properties *)

(** ** The pattern engine stays inside the text *)

Module RegexFacts.

Import Chars Regex.

Section Bounds.

Variable caseless : bool.
Variable text : list ascii.

Lemma one_bounds (ok : ascii -> bool) (pos e : nat) :
  In e (one text ok pos) -> e = S pos /\ pos < length text.
Proof.
  unfold one. destruct (nth_error text pos) eqn:E; [|intros []].
  destruct (ok a); simpl; [|intros []].
  intros [<-|[]]. split; [reflexivity|].
  apply nth_error_Some. congruence.
Qed.

(** Membership in the ends of a quantifier, one iteration unfolded. *)
Lemma rep_in (step : nat -> list nat) (lazy : bool) (fuel lo : nat)
    (hi : option nat) (pos e : nat) :
  In e (rep step lazy fuel lo hi pos) ->
  (lo = 0 /\ e = pos) \/
  exists fuel' x, fuel = S fuel' /\ In x (step pos) /\ pos < x /\
    In e (rep step lazy fuel' (pred lo) (option_map pred hi) x).
Proof.
  intros Hin.
  assert (Hstop : In e (if lo =? 0 then [pos] else []) -> lo = 0 /\ e = pos).
  { destruct lo; simpl; [|intros []]. intros [<-|[]]. auto. }
  destruct fuel as [|fuel]; simpl in Hin.
  - left. apply Hstop.
    destruct lazy; [rewrite app_nil_r in Hin|]; exact Hin.
  - assert (Hmore : In e (flat_map
              (fun x => if pos <? x
                        then rep step lazy fuel (pred lo) (option_map pred hi) x
                        else []) (step pos)) ->
            exists fuel' x, S fuel = S fuel' /\ In x (step pos) /\ pos < x /\
              In e (rep step lazy fuel' (pred lo) (option_map pred hi) x)).
    { intros H. apply in_flat_map in H. destruct H as (x & Hx & He).
      destruct (Nat.ltb_spec pos x); [|contradiction]. exists fuel, x. auto. }
    destruct lazy; apply in_app_or in Hin; destruct Hin as [Hin|Hin];
      try (left; apply Hstop; exact Hin);
      right; destruct hi as [[|n]|]; try contradiction; apply Hmore; exact Hin.
Qed.

Lemma rep_bounds (step : nat -> list nat) :
  (forall p e, p <= length text -> In e (step p) -> p <= e <= length text) ->
  forall fuel lazy lo hi pos e,
    pos <= length text ->
    In e (rep step lazy fuel lo hi pos) -> pos <= e <= length text.
Proof.
  intros Hstep. induction fuel as [|fuel IH]; intros lazy lo hi pos e Hpos Hin;
    apply rep_in in Hin;
    destruct Hin as [[_ ->]|(fuel' & x & Hf & Hx & Hlt & Hin)];
    try lia; try discriminate.
  injection Hf as <-.
  pose proof (Hstep pos x Hpos Hx) as Hxb.
  assert (Hx' : x <= length text) by lia.
  specialize (IH lazy (pred lo) (option_map pred hi) x e Hx' Hin). lia.
Qed.

Lemma ends_bounds (r : regex) :
  forall pos e, pos <= length text -> In e (ends caseless text r pos) -> pos <= e <= length text.
Proof.
  induction r; intros pos e Hpos Hin; cbn [ends] in Hin.
  - destruct Hin as [<-|[]]. lia.
  - apply one_bounds in Hin. lia.
  - apply one_bounds in Hin. lia.
  - apply one_bounds in Hin. lia.
  - apply in_flat_map in Hin. destruct Hin as (x & Hx & He).
    specialize (IHr1 pos x Hpos Hx).
    assert (x <= length text) by lia.
    specialize (IHr2 x e H He). lia.
  - apply in_app_or in Hin. destruct Hin; eauto.
  - eapply rep_bounds; eauto.
  - destruct (pos =? 0); [destruct Hin as [<-|[]]; lia | contradiction].
  - destruct (pos =? length text); [destruct Hin as [<-|[]]; lia | contradiction].
  - destruct (boundary text pos); [destruct Hin as [<-|[]]; lia | contradiction].
  - destruct behind;
      match type of Hin with
      | In _ (if ?c then _ else _) => destruct c
      end; try contradiction; destruct Hin as [<-|[]]; lia.
Qed.

Lemma ends_advance (r : regex) :
  nullable r = false ->
  forall pos e, pos <= length text -> In e (ends caseless text r pos) -> pos < e.
Proof.
  induction r; cbn [nullable ends]; intros Hn pos e Hpos Hin; try discriminate.
  - apply one_bounds in Hin. lia.
  - apply one_bounds in Hin. lia.
  - apply one_bounds in Hin. lia.
  - apply in_flat_map in Hin. destruct Hin as (x & Hx & He).
    pose proof (ends_bounds r1 pos x Hpos Hx) as Hb1.
    assert (Hx' : x <= length text) by lia.
    pose proof (ends_bounds r2 x e Hx' He) as Hb2.
    apply andb_false_iff in Hn. destruct Hn as [Hn|Hn].
    + specialize (IHr1 Hn pos x Hpos Hx). lia.
    + specialize (IHr2 Hn x e Hx' He). lia.
  - apply orb_false_iff in Hn. destruct Hn as [Hn1 Hn2].
    apply in_app_or in Hin. destruct Hin; eauto.
  - apply orb_false_iff in Hn. destruct Hn as [Hlo Hn].
    apply Nat.eqb_neq in Hlo.
    apply rep_in in Hin.
    destruct Hin as [[Hlo' _]|(fuel' & x & _ & Hx & Hlt & He)]; [contradiction|].
    pose proof (ends_bounds r pos x Hpos Hx) as Hb.
    assert (Hx' : x <= length text) by lia.
    pose proof (rep_bounds (ends caseless text r) (ends_bounds r) _ _ _ _ _ _ Hx' He). lia.
Qed.

Lemma search_found (r : regex) :
  forall n pos s l,
    search caseless text r n pos = Some (s, l) ->
    exists e, In e (ends caseless text r s) /\ l = e - s /\ pos <= s <= pos + n.
Proof.
  induction n as [|n IH]; intros pos s l H; simpl in H.
  - destruct (ends caseless text r pos) as [|e es] eqn:E; [discriminate|].
    injection H as <- <-. exists e. rewrite E. simpl. split; [auto|lia].
  - destruct (ends caseless text r pos) as [|e es] eqn:E.
    + apply IH in H. destruct H as (e & He & Hl & Hs). exists e. split; [auto|lia].
    + injection H as <- <-. exists e. rewrite E. simpl. split; [auto|lia].
Qed.

Lemma search_from_bounds (r : regex) (offset s l : nat) :
  search_from caseless text r offset = Some (s, l) ->
  offset <= s /\ s + l <= length text /\ (nullable r = false -> 0 < l).
Proof.
  unfold search_from. destruct (Nat.leb_spec offset (length text)); [|discriminate].
  intros Hs. apply search_found in Hs. destruct Hs as (e & He & -> & Hs).
  assert (Hle : s <= length text) by lia.
  pose proof (ends_bounds r s e Hle He).
  split; [lia|]. split; [lia|].
  intros Hn. pose proof (ends_advance r Hn s e Hle He). lia.
Qed.

Lemma iterate_bounds (r : regex) :
  forall fuel offset prev_empty s l,
    offset <= length text ->
    In (s, l) (iterate caseless text r fuel offset prev_empty) ->
    s + l <= length text.
Proof.
  induction fuel as [|fuel IH]; intros offset prev_empty s l Hoff Hin;
    [contradiction|].
  simpl in Hin.
  match type of Hin with
  | In _ (match ?f with _ => _ end) => destruct f as [[s0 l0]|] eqn:Hfound
  end; [|contradiction].
  assert (Hb : s0 + l0 <= length text).
  { destruct prev_empty.
    - destruct (find (fun e => negb (e =? offset)) (ends caseless text r offset)) as [e|] eqn:Hf.
      + injection Hfound as <- <-. apply find_some in Hf. destruct Hf as [He _].
        pose proof (ends_bounds r offset e Hoff He). lia.
      + apply search_from_bounds in Hfound. lia.
    - apply search_from_bounds in Hfound. lia. }
  destruct Hin as [Heq|Hin].
  - injection Heq as <- <-. exact Hb.
  - eapply IH; [|exact Hin]. exact Hb.
Qed.

Lemma all_matches_bounds (r : regex) (s l : nat) :
  In (s, l) (all_matches caseless text r) -> s + l <= length text.
Proof.
  unfold all_matches. apply iterate_bounds. lia.
Qed.

End Bounds.

End RegexFacts.

(** ** The highlighter *)

Module HighlighterFacts.

Import Chars Regex RegexFacts Highlighter.

Close Scope string_scope.
Open Scope Z_scope.

(** *** Matches reported to [highlightBlock] *)

Lemma match_bounds (re : QRegularExpression) (text : list ascii) (offset s l : Z) :
  match_ re text offset = Some (s, l) ->
  0 <= offset <= s /\ 0 <= l /\ s + l <= len text /\ (advances re = true -> 0 < l).
Proof.
  unfold match_, advances, len. destruct (pattern re) as [r|]; [|discriminate].
  destruct (Z.ltb_spec offset 0); [discriminate|].
  destruct (search_from _ text r (Z.to_nat offset)) as [[s0 l0]|] eqn:E; [|discriminate].
  simpl. intros H'. injection H' as <- <-.
  apply search_from_bounds in E. destruct E as (Ho & Hb & Hadv).
  repeat split; try lia.
  intros Hn. apply negb_true_iff in Hn. specialize (Hadv Hn). lia.
Qed.

Lemma globalMatch_bounds (re : QRegularExpression) (text : list ascii) (s l : Z) :
  In (s, l) (globalMatch re text) -> 0 <= s /\ 0 <= l /\ s + l <= len text.
Proof.
  unfold globalMatch, len. destruct (pattern re) as [r|]; [|intros []].
  intros Hin. apply in_map_iff in Hin. destruct Hin as ([s0 l0] & Heq & Hin).
  unfold to_Z_pair in Heq. simpl in Heq. injection Heq as <- <-.
  apply all_matches_bounds in Hin. lia.
Qed.

(** *** Slices *)

Lemma len_nonneg (text : list ascii) : 0 <= len text.
Proof. unfold len. lia. Qed.

Lemma len_slice (text : list ascii) (a b : Z) :
  0 <= a <= len text -> a + len (slice text a b) <= len text.
Proof.
  intros Ha. unfold slice, len in *.
  rewrite length_firstn, length_skipn.
  assert (index (Z.of_nat (length text)) a = a) as ->.
  { unfold index. destruct (Z.ltb_spec a 0); lia. }
  lia.
Qed.

Lemma len_slice_from (text : list ascii) (a : Z) :
  0 <= a -> len (slice_from text a) = Z.max 0 (len text - a).
Proof.
  intros Ha. unfold slice_from, len, index.
  rewrite length_skipn. destruct (Z.ltb_spec a 0); lia.
Qed.

(** *** Spans inside a block of [n] characters *)

Lemma inside_setFormat (n start count : Z) (format : QTextCharFormat) (b : Block) :
  0 <= start -> 0 <= count -> start + count <= n ->
  spans_inside n b -> spans_inside n (setFormat start count format b).
Proof.
  intros H1 H2 H3 Hb. unfold spans_inside, setFormat. simpl.
  apply Forall_app. split; [exact Hb|].
  constructor; [|constructor]. unfold inside. simpl. lia.
Qed.

Lemma inside_setCurrentBlockState (n state : Z) (b : Block) :
  spans_inside n b -> spans_inside n (setCurrentBlockState state b).
Proof. intros Hb. exact Hb. Qed.

Section Inside.

Variable self : SyntaxHighlighter.
Variable previous_state : Z.

Lemma continuation_inside (n : Z) (text : list ascii) (b b' : Block)
    (start_index current_state : Z) :
  len text <= n ->
  continuation self previous_state text b = (start_index, current_state, b') ->
  spans_inside n b ->
  spans_inside n b' /\ 0 <= start_index <= len text.
Proof.
  intros Hn Hc Hb.
  assert (Hone : forall ml_end state format,
             continue_construct ml_end state format text b
             = (start_index, current_state, b') ->
             spans_inside n b' /\ 0 <= start_index <= len text).
  { intros ml_end state format. unfold continue_construct.
    pose proof (len_nonneg text).
    destruct (match_ ml_end text 0) as [[i l]|] eqn:E; intros Heq;
      injection Heq as <- <- <-.
    - apply match_bounds in E. split; [|lia].
      apply inside_setCurrentBlockState, inside_setFormat; auto; lia.
    - split; [|lia].
      apply inside_setCurrentBlockState, inside_setFormat; auto; lia. }
  unfold continuation in Hc.
  destruct (active previous_state STATE_ML_COMMENT (ml_comment_end self)); [eauto|].
  destruct (active previous_state STATE_ML_STRING_DQ (ml_string_dq_end self)); [eauto|].
  destruct (active previous_state STATE_ML_STRING_SQ (ml_string_sq_end self)); [eauto|].
  injection Hc as <- <- <-. pose proof (len_nonneg text). split; [exact Hb|lia].
Qed.

Lemma check_start_ok (advance : bool) (ml_start : option QRegularExpression)
    (state : Z) (text : list ascii) (start_index : Z) (found : Z * Z * Z) :
  (advance = true -> advances_opt ml_start = true) ->
  start_ok advance text start_index found ->
  start_ok advance text start_index (check_start ml_start state text start_index found).
Proof.
  intros Hadv Hf. unfold check_start.
  destruct ml_start as [re|]; [|exact Hf].
  destruct (match_ re text start_index) as [[idx l]|] eqn:E; [|exact Hf].
  destruct ((fst (fst found) =? -1) || (idx <? fst (fst found))); [|exact Hf].
  apply match_bounds in E. right. simpl. intuition lia.
Qed.

Lemma find_ml_start_ok (text : list ascii) (start_index : Z) :
  start_ok (delimiters_advance self) text start_index
           (find_ml_start self text start_index).
Proof.
  unfold find_ml_start, delimiters_advance.
  repeat apply check_start_ok; try (left; reflexivity);
    intros H; repeat (apply andb_prop in H; destruct H as [H ?]); assumption.
Qed.

Lemma apply_rule_inside (n start_index : Z) (sub_text : list ascii)
    (rule : QRegularExpression * QTextCharFormat) (b : Block) :
  0 <= start_index -> start_index + len sub_text <= n ->
  spans_inside n b -> spans_inside n (apply_rule start_index sub_text b rule).
Proof.
  intros H0 Hn. unfold apply_rule.
  pose proof (globalMatch_bounds (fst rule) sub_text) as Hm.
  revert b Hm. induction (globalMatch (fst rule) sub_text) as [|[s l] ms IH];
    intros b Hm Hb; simpl; [exact Hb|].
  apply IH.
  - intros s' l' Hin. apply Hm. right. exact Hin.
  - specialize (Hm s l (or_introl eq_refl)).
    apply inside_setFormat; auto; simpl; lia.
Qed.

Lemma apply_rules_inside (n start_index : Z) (sub_text : list ascii) (b : Block) :
  0 <= start_index -> start_index + len sub_text <= n ->
  spans_inside n b -> spans_inside n (apply_rules self start_index sub_text b).
Proof.
  intros H0 Hn. unfold apply_rules. destruct sub_text as [|c sub]; [auto|].
  revert b. induction (highlighting_rules self) as [|rule rules IH];
    intros b Hb; simpl; [exact Hb|].
  apply IH. apply apply_rule_inside; assumption.
Qed.

Lemma end_match_bounds (ml_end_regex : option QRegularExpression)
    (text : list ascii) (offset s l : Z) :
  end_match ml_end_regex text offset = Some (s, l) ->
  0 <= offset <= s /\ 0 <= l /\ s + l <= len text
  /\ (advances_opt ml_end_regex = true -> 0 < l).
Proof.
  unfold end_match. destruct ml_end_regex as [re|]; [|discriminate].
  apply match_bounds.
Qed.

Lemma ml_end_of_advances (current_state : Z) :
  delimiters_advance self = true ->
  advances_opt (fst (ml_end_of self current_state)) = true.
Proof.
  unfold delimiters_advance, ml_end_of. intros H.
  repeat (apply andb_prop in H; destruct H as [H ?]).
  destruct (current_state =? STATE_ML_COMMENT); [assumption|].
  destruct (current_state =? STATE_ML_STRING_DQ); [assumption|].
  destruct (current_state =? STATE_ML_STRING_SQ); [assumption|reflexivity].
Qed.

Lemma scan_inside (recurse : list ascii -> Block -> option Block)
    (n : Z) (text : list ascii) (start_index current_state : Z)
    (b : Block) (result : Z * Block) :
  (forall tail c c', len tail <= n -> recurse tail c = Some c' ->
                     spans_inside n c -> spans_inside n c') ->
  len text <= n -> 0 <= start_index <= len text ->
  scan self recurse text start_index current_state b = Some result ->
  spans_inside n b -> spans_inside n (snd result).
Proof.
  intros Hrec Hn Hsi Hscan Hb. unfold scan in Hscan.
  destruct ((start_index <? len text) || (len text =? 0));
    [|injection Hscan as <-; exact Hb].
  pose proof (find_ml_start_ok text start_index) as Hok.
  destruct (find_ml_start self text start_index) as [[next_ml_start matched_state] match_len].
  unfold start_ok in Hok. simpl in Hok.
  set (sub_text := slice text start_index
                     (if next_ml_start =? -1 then len text else next_ml_start)) in *.
  assert (Hrules : spans_inside n (apply_rules self start_index sub_text b)).
  { apply apply_rules_inside; [lia| |exact Hb].
    pose proof (len_slice text start_index
                  (if next_ml_start =? -1 then len text else next_ml_start) Hsi).
    fold sub_text in H. lia. }
  destruct (Z.eqb_spec next_ml_start (-1));
    [injection Hscan as <-; exact Hrules|].
  destruct Hok as [?|(Hs & Hl & Hb' & _)]; [contradiction|].
  destruct (ml_end_of self matched_state) as [ml_end_regex ml_format].
  destruct (end_match ml_end_regex text (next_ml_start + match_len))
    as [[end_index end_len]|] eqn:E.
  - apply end_match_bounds in E.
    match type of Hscan with
    | match recurse ?t ?c with _ => _ end = _ =>
        destruct (recurse t c) as [c'|] eqn:R; [|discriminate];
        injection Hscan as <-; simpl; apply (Hrec t c c')
    end; auto.
    + rewrite len_slice_from by lia. pose proof (len_nonneg text). lia.
    + apply inside_setFormat; auto; lia.
  - injection Hscan as <-. simpl. apply inside_setFormat; auto; lia.
Qed.

Lemma finish_inside (n : Z) (scanned : option (Z * Block)) (b' : Block) :
  finish previous_state scanned = Some b' ->
  (forall result, scanned = Some result -> spans_inside n (snd result)) ->
  spans_inside n b'.
Proof.
  unfold finish. destruct scanned as [[current_state b]|]; [|discriminate].
  intros H Hs. specialize (Hs _ eq_refl). simpl in Hs.
  destruct (previous_state =? STATE_NORMAL); injection H as <-; exact Hs.
Qed.

(** Every span [highlightBlock] adds lies inside the text it was given,
    hence inside any block that text is a part of. *)
Lemma highlightBlock_inside :
  forall fuel n text b b',
    len text <= n ->
    highlightBlock self previous_state fuel text b = Some b' ->
    spans_inside n b -> spans_inside n b'.
Proof.
  induction fuel as [|fuel IH]; intros n text b b' Hn H Hb; [discriminate|].
  simpl in H.
  destruct (continuation self previous_state text b)
    as [[start_index current_state] b0] eqn:Hc.
  destruct (continuation_inside n text b b0 start_index current_state Hn Hc Hb)
    as [Hb0 Hsi].
  eapply finish_inside; [exact H|].
  intros result Hscan.
  eapply scan_inside; [| | |exact Hscan|exact Hb0]; auto.
  intros tail c c' Ht R Hcin. eapply IH; eauto.
Qed.

End Inside.

(** *** The recursion ends *)

Section Termination.

Variable self : SyntaxHighlighter.
Variable previous_state : Z.

Lemma continuation_index (text : list ascii) (b b' : Block)
    (start_index current_state : Z) :
  continuation self previous_state text b = (start_index, current_state, b') ->
  0 <= start_index <= len text.
Proof.
  intros Hc.
  assert (Hone : forall ml_end state format,
             continue_construct ml_end state format text b
             = (start_index, current_state, b') ->
             0 <= start_index <= len text).
  { intros ml_end state format. unfold continue_construct.
    pose proof (len_nonneg text).
    destruct (match_ ml_end text 0) as [[i l]|] eqn:E; intros Heq;
      injection Heq as <- <- <-; [apply match_bounds in E|]; lia. }
  unfold continuation in Hc.
  destruct (active previous_state STATE_ML_COMMENT (ml_comment_end self)); [eauto|].
  destruct (active previous_state STATE_ML_STRING_DQ (ml_string_dq_end self)); [eauto|].
  destruct (active previous_state STATE_ML_STRING_SQ (ml_string_sq_end self)); [eauto|].
  injection Hc as <- <- <-. pose proof (len_nonneg text). lia.
Qed.

(** With delimiters that are never empty, the tail handed to the
    recursive call is strictly shorter than the text. *)
Lemma scan_total (recurse : list ascii -> Block -> option Block)
    (text : list ascii) (start_index current_state : Z) (b : Block) :
  delimiters_advance self = true ->
  (forall tail c, len tail < len text -> exists c', recurse tail c = Some c') ->
  0 <= start_index ->
  exists result, scan self recurse text start_index current_state b = Some result.
Proof.
  intros Hadv Hrec Hsi. unfold scan.
  destruct ((start_index <? len text) || (len text =? 0)); [|eauto].
  pose proof (find_ml_start_ok self text start_index) as Hok.
  destruct (find_ml_start self text start_index) as [[next_ml_start matched_state] match_len].
  unfold start_ok in Hok. simpl in Hok.
  destruct (Z.eqb_spec next_ml_start (-1)); [eauto|].
  destruct Hok as [?|(Hs & Hl & Hb' & _)]; [contradiction|].
  pose proof (ml_end_of_advances self matched_state Hadv) as Hend.
  destruct (ml_end_of self matched_state) as [ml_end_regex ml_format].
  simpl in Hend.
  destruct (end_match ml_end_regex text (next_ml_start + match_len))
    as [[end_index end_len]|] eqn:E; [|eauto].
  apply end_match_bounds in E. destruct E as (E1 & E2 & E3 & E4).
  specialize (E4 Hend).
  match goal with
  | |- exists _, match recurse ?t ?c with _ => _ end = _ =>
      destruct (Hrec t c) as [c' ->]; [|eauto]
  end.
  rewrite len_slice_from by lia. lia.
Qed.

Lemma highlightBlock_total :
  delimiters_advance self = true ->
  forall fuel text b,
    len text < Z.of_nat fuel ->
    exists b', highlightBlock self previous_state fuel text b = Some b'.
Proof.
  intros Hadv. induction fuel as [|fuel IH]; intros text b Hlen.
  - pose proof (len_nonneg text). lia.
  - simpl.
    destruct (continuation self previous_state text b)
      as [[start_index current_state] b0] eqn:Hc.
    apply continuation_index in Hc.
    destruct (scan_total (highlightBlock self previous_state fuel)
                text start_index current_state b0 Hadv) as [[cs b1] ->].
    + intros tail c Ht. apply IH. lia.
    + lia.
    + simpl. eauto.
Qed.

Lemma scan_more (rec1 rec2 : list ascii -> Block -> option Block)
    (text : list ascii) (start_index current_state : Z) (b : Block)
    (result : Z * Block) :
  (forall tail c c', rec1 tail c = Some c' -> rec2 tail c = Some c') ->
  scan self rec1 text start_index current_state b = Some result ->
  scan self rec2 text start_index current_state b = Some result.
Proof.
  intros Hrec. unfold scan.
  destruct ((start_index <? len text) || (len text =? 0)); [|auto].
  destruct (find_ml_start self text start_index) as [[next_ml_start matched_state] match_len].
  destruct (next_ml_start =? -1); [auto|].
  destruct (ml_end_of self matched_state) as [ml_end_regex ml_format].
  destruct (end_match ml_end_regex text (next_ml_start + match_len))
    as [[end_index end_len]|]; [|auto].
  match goal with
  | |- match rec1 ?t ?c with _ => _ end = _ -> _ =>
      destruct (rec1 t c) as [c'|] eqn:R; [|discriminate];
      rewrite (Hrec t c c' R); auto
  end.
Qed.

(** More fuel does not change a result. *)
Lemma highlightBlock_more :
  forall fuel extra text b b',
    highlightBlock self previous_state fuel text b = Some b' ->
    highlightBlock self previous_state (fuel + extra) text b = Some b'.
Proof.
  induction fuel as [|fuel IH]; intros extra text b b' H; [discriminate|].
  simpl in *.
  destruct (continuation self previous_state text b)
    as [[start_index current_state] b0].
  destruct (scan self (highlightBlock self previous_state fuel) text
              start_index current_state b0) as [result|] eqn:E; [|discriminate].
  rewrite (scan_more (highlightBlock self previous_state fuel)
             (highlightBlock self previous_state (fuel + extra))
             text start_index current_state b0 result); auto.
Qed.

End Termination.

(** *** The continuation branch that is taken *)

Lemma construct_continuation (self : SyntaxHighlighter) (previous_state : Z)
    (ml_end : QRegularExpression) (format : QTextCharFormat)
    (text : list ascii) (b : Block) :
  In previous_state construct_states ->
  ml_end_of self previous_state = (Some ml_end, format) ->
  continuation self previous_state text b
  = continue_construct ml_end previous_state format text b.
Proof.
  unfold construct_states, ml_end_of, continuation, active.
  intros [<-|[<-|[<-|[]]]]; simpl; intros H; injection H as Hre <-;
    rewrite Hre; reflexivity.
Qed.

Lemma finish_not_normal (previous_state : Z) (scanned : option (Z * Block)) :
  previous_state <> STATE_NORMAL ->
  finish previous_state scanned = option_map snd scanned.
Proof.
  intros Hne. apply Z.eqb_neq in Hne. unfold finish. rewrite Hne.
  destruct scanned as [[cs b]|]; reflexivity.
Qed.

(** The two outcomes of the continuation branch: after it the scan phase
    runs from the cursor, which is [0] when the end pattern was not
    found. *)
Lemma continuation_then_scan (self : SyntaxHighlighter) (previous_state : Z)
    (ml_end : QRegularExpression) (format : QTextCharFormat)
    (fuel : nat) (text : list ascii) (b : Block) :
  In previous_state construct_states ->
  ml_end_of self previous_state = (Some ml_end, format) ->
  highlightBlock self previous_state (S fuel) text b
  = match match_ ml_end text 0 with
    | None =>
        option_map snd
          (scan self (highlightBlock self previous_state fuel) text 0
                previous_state
                (setCurrentBlockState previous_state
                   (setFormat 0 (len text) format b)))
    | Some (i, L) =>
        option_map snd
          (scan self (highlightBlock self previous_state fuel) text (i + L)
                STATE_NORMAL
                (setCurrentBlockState STATE_NORMAL (setFormat 0 (i + L) format b)))
    end.
Proof.
  intros Hin Hend. cbn [highlightBlock].
  rewrite (construct_continuation self previous_state ml_end format text b Hin Hend).
  unfold continue_construct.
  assert (Hne : previous_state <> STATE_NORMAL).
  { unfold construct_states in Hin.
    destruct Hin as [<-|[<-|[<-|[]]]]; discriminate. }
  destruct (match_ ml_end text 0) as [[i L]|]; apply finish_not_normal; exact Hne.
Qed.

(** *** The tables of the languages *)

(** A name that is none of the recognised ones gives the table of the
    empty name. *)
Lemma setup_unknown (settings : string -> option string) (language : string) :
  ~ In language languages ->
  _setup_delimiters_and_rules settings language
  = _setup_delimiters_and_rules settings "".
Proof.
  intros Hnot.
  assert (Hneq : forall k, In k languages -> String.eqb language k = false).
  { intros k Hk. apply String.eqb_neq. intros ->. contradiction. }
  unfold _setup_delimiters_and_rules, among. cbn [existsb].
  rewrite ?(Hneq "python"%string), ?(Hneq "c++"%string), ?(Hneq "sql"%string),
    ?(Hneq "markdown"%string), ?(Hneq "c#"%string), ?(Hneq "html"%string),
    ?(Hneq "css"%string), ?(Hneq "javascript"%string), ?(Hneq "text"%string)
    by (unfold languages; simpl; tauto).
  vm_compute. reflexivity.
Qed.

Lemma setup_cases (settings : string -> option string) (language : string) :
  exists k, In k (""%string :: languages)
            /\ _setup_delimiters_and_rules settings language
               = _setup_delimiters_and_rules settings k.
Proof.
  destruct (in_dec string_dec language languages) as [Hin|Hnot].
  - exists language. split; [right; exact Hin|reflexivity].
  - exists ""%string. split; [left; reflexivity|apply setup_unknown; exact Hnot].
Qed.

Lemma init_delimiters_advance (settings : string -> option string) (language : string) :
  delimiters_advance (__init__ settings language) = true.
Proof.
  unfold __init__.
  destruct (setup_cases settings (lower language)) as (k & Hk & ->).
  simpl in Hk.
  repeat (destruct Hk as [<-|Hk]; [vm_compute; reflexivity|]).
  contradiction.
Qed.

(** No pattern of a table is refused by the reader of patterns. *)
Lemma init_patterns_compiled (settings : string -> option string) (language : string) :
  patterns_compiled (__init__ settings language) = true.
Proof.
  unfold __init__.
  destruct (setup_cases settings (lower language)) as (k & Hk & ->).
  simpl in Hk.
  repeat (destruct Hk as [<-|Hk]; [vm_compute; reflexivity|]).
  contradiction.
Qed.

(** With [S (length text)] calls allowed, one call on a block of a
    language returns. *)
Lemma init_highlight_total (settings : string -> option string) (language : string)
    (previous_state : Z) (text : list ascii) (b : Block) :
  exists b', highlight (__init__ settings language) previous_state text b = Some b'.
Proof.
  apply highlightBlock_total.
  - apply init_delimiters_advance.
  - unfold len. lia.
Qed.

(** *** What a call adds to the block *)

Section Emitted.

Variable self : SyntaxHighlighter.

Lemma apply_rule_formats (start_index : Z) (sub_text : list ascii)
    (rule : QRegularExpression * QTextCharFormat) (b : Block) :
  formats (apply_rule start_index sub_text b rule)
  = formats b ++ map (fun m => (start_index + fst m, snd m, snd rule))
                     (globalMatch (fst rule) sub_text).
Proof.
  unfold apply_rule. revert b.
  induction (globalMatch (fst rule) sub_text) as [|m ms IH]; intros b; simpl.
  - rewrite app_nil_r. reflexivity.
  - rewrite IH. simpl. rewrite <- app_assoc. reflexivity.
Qed.

Lemma apply_rules_formats (start_index : Z) (sub_text : list ascii) (b : Block) :
  formats (apply_rules self start_index sub_text b)
  = formats b ++ rule_spans self start_index sub_text.
Proof.
  unfold apply_rules, rule_spans. destruct sub_text as [|c sub].
  - rewrite app_nil_r. reflexivity.
  - revert b. induction (highlighting_rules self) as [|rule rules IH];
      intros b; simpl.
    + rewrite app_nil_r. reflexivity.
    + rewrite IH, apply_rule_formats, <- app_assoc. reflexivity.
Qed.

Lemma apply_rules_state (start_index : Z) (sub_text : list ascii) (b : Block) :
  currentBlockState (apply_rules self start_index sub_text b) = currentBlockState b.
Proof.
  unfold apply_rules. destruct sub_text as [|c sub]; [reflexivity|].
  revert b. induction (highlighting_rules self) as [|rule rules IH];
    intros b; simpl; [reflexivity|].
  rewrite IH. unfold apply_rule.
  generalize (globalMatch (fst rule) (c :: sub)). intros ms. revert b.
  induction ms as [|m ms IHm]; intros b; simpl; [reflexivity|].
  rewrite IHm. reflexivity.
Qed.

Lemma same_setFormat (start count : Z) (format : QTextCharFormat) (b1 b2 : Block) :
  same b1 b2 -> same (setFormat start count format b1) (setFormat start count format b2).
Proof. unfold same, setFormat. simpl. intros ->. reflexivity. Qed.

Lemma same_apply_rules (start_index : Z) (sub_text : list ascii) (b1 b2 : Block) :
  same b1 b2 ->
  same (apply_rules self start_index sub_text b1)
       (apply_rules self start_index sub_text b2).
Proof. unfold same. intros H. rewrite !apply_rules_formats, H. reflexivity. Qed.

(** The scan phase reads neither the state of the block nor the current
    state: its spans depend on the text and the cursor only. *)
Lemma scan_same (rec1 rec2 : list ascii -> Block -> option Block)
    (text : list ascii) (start_index cs1 cs2 : Z) (b1 b2 : Block) :
  (forall tail c1 c2, same c1 c2 -> same_result (rec1 tail c1) (rec2 tail c2)) ->
  same b1 b2 ->
  same_scanned (scan self rec1 text start_index cs1 b1)
               (scan self rec2 text start_index cs2 b2).
Proof.
  intros Hrec Hb. unfold scan.
  destruct ((start_index <? len text) || (len text =? 0)); [|exact Hb].
  destruct (find_ml_start self text start_index) as [[next_ml_start matched_state] match_len].
  pose proof (same_apply_rules start_index
                (slice text start_index
                   (if next_ml_start =? -1 then len text else next_ml_start))
                b1 b2 Hb) as Hrules.
  destruct (next_ml_start =? -1); [exact Hrules|].
  destruct (ml_end_of self matched_state) as [ml_end_regex ml_format].
  destruct (end_match ml_end_regex text (next_ml_start + match_len))
    as [[end_index end_len]|].
  - match goal with
    | |- same_scanned (match rec1 ?t ?c1 with _ => _ end)
                      (match rec2 ?t ?c2 with _ => _ end) =>
        assert (Hc : same c1 c2) by (apply same_setFormat; exact Hrules);
        specialize (Hrec t c1 c2 Hc);
        destruct (rec1 t c1), (rec2 t c2); simpl in *; auto
    end.
  - simpl. apply same_setFormat. exact Hrules.
Qed.

Lemma inactive_continuation (previous_state : Z) (text : list ascii) (b : Block) :
  inactive self previous_state ->
  continuation self previous_state text b = (0, STATE_NORMAL, b).
Proof.
  intros (H1 & H2 & H3). unfold continuation. rewrite H1, H2, H3. reflexivity.
Qed.

Lemma inactive_normal : inactive self STATE_NORMAL.
Proof. repeat split. Qed.

Lemma inactive_without_end (previous_state : Z) :
  fst (ml_end_of self previous_state) = None -> inactive self previous_state.
Proof.
  unfold ml_end_of, inactive, active, STATE_ML_COMMENT, STATE_ML_STRING_DQ,
    STATE_ML_STRING_SQ.
  destruct (Z.eqb_spec previous_state 1) as [->|]; simpl; [intros ->; auto|].
  destruct (Z.eqb_spec previous_state 2) as [->|]; simpl; [intros ->; auto|].
  destruct (Z.eqb_spec previous_state 3) as [->|]; simpl; [intros ->; auto|].
  auto.
Qed.

Lemma finish_same (p1 p2 : Z) (r1 r2 : option (Z * Block)) :
  same_scanned r1 r2 -> same_result (finish p1 r1) (finish p2 r2).
Proof.
  unfold finish. destruct r1 as [[c1 b1]|], r2 as [[c2 b2]|]; simpl; auto.
  destruct (p1 =? STATE_NORMAL), (p2 =? STATE_NORMAL); auto.
Qed.

Lemma highlightBlock_same (p1 p2 : Z) :
  inactive self p1 -> inactive self p2 ->
  forall fuel text b1 b2,
    same b1 b2 ->
    same_result (highlightBlock self p1 fuel text b1)
                (highlightBlock self p2 fuel text b2).
Proof.
  intros H1 H2. induction fuel as [|fuel IH]; intros text b1 b2 Hb; simpl; [exact I|].
  rewrite !inactive_continuation by assumption.
  apply finish_same, scan_same; auto.
Qed.

(** When no continuation branch is taken and the previous state is not
    normal, the state of the block is not written. *)
Lemma scan_state (recurse : list ascii -> Block -> option Block)
    (text : list ascii) (start_index current_state : Z) (b : Block)
    (result : Z * Block) :
  (forall tail c c', recurse tail c = Some c' ->
                     currentBlockState c' = currentBlockState c) ->
  scan self recurse text start_index current_state b = Some result ->
  currentBlockState (snd result) = currentBlockState b.
Proof.
  intros Hrec. unfold scan.
  destruct ((start_index <? len text) || (len text =? 0));
    [|intros H; injection H as <-; reflexivity].
  destruct (find_ml_start self text start_index) as [[next_ml_start matched_state] match_len].
  destruct (next_ml_start =? -1);
    [intros H; injection H as <-; apply apply_rules_state|].
  destruct (ml_end_of self matched_state) as [ml_end_regex ml_format].
  destruct (end_match ml_end_regex text (next_ml_start + match_len))
    as [[end_index end_len]|].
  - match goal with
    | |- match recurse ?t ?c with _ => _ end = _ -> _ =>
        destruct (recurse t c) as [c'|] eqn:R; [|discriminate];
        intros H; injection H as <-; simpl; rewrite (Hrec t c c' R)
    end.
    simpl. apply apply_rules_state.
  - intros H. injection H as <-. simpl. apply apply_rules_state.
Qed.

Lemma highlightBlock_state_untouched (previous_state : Z) :
  inactive self previous_state -> previous_state <> STATE_NORMAL ->
  forall fuel text b b',
    highlightBlock self previous_state fuel text b = Some b' ->
    currentBlockState b' = currentBlockState b.
Proof.
  intros Hin Hne. induction fuel as [|fuel IH]; intros text b b' H; [discriminate|].
  simpl in H. rewrite inactive_continuation in H by assumption.
  unfold finish in H.
  destruct (scan self (highlightBlock self previous_state fuel) text 0
              STATE_NORMAL b) as [[cs b1]|] eqn:E; [|discriminate].
  apply Z.eqb_neq in Hne. rewrite Hne in H. injection H as <-.
  apply (scan_state _ _ _ _ _ (cs, b1) IH E).
Qed.

(** The state the scan phase ends with is read off the text. *)
Lemma scan_current_state (rec1 rec2 : list ascii -> Block -> option Block)
    (text : list ascii) (start_index current_state : Z) (b1 b2 : Block)
    (r1 r2 : Z * Block) :
  scan self rec1 text start_index current_state b1 = Some r1 ->
  scan self rec2 text start_index current_state b2 = Some r2 ->
  fst r1 = fst r2.
Proof.
  unfold scan.
  destruct ((start_index <? len text) || (len text =? 0));
    [|intros H1 H2; injection H1 as <-; injection H2 as <-; reflexivity].
  destruct (find_ml_start self text start_index) as [[next_ml_start matched_state] match_len].
  destruct (next_ml_start =? -1);
    [intros H1 H2; injection H1 as <-; injection H2 as <-; reflexivity|].
  destruct (ml_end_of self matched_state) as [ml_end_regex ml_format].
  destruct (end_match ml_end_regex text (next_ml_start + match_len))
    as [[end_index end_len]|].
  - match goal with
    | |- match rec1 ?t ?c1 with _ => _ end = _ ->
         match rec2 ?t ?c2 with _ => _ end = _ -> _ =>
        destruct (rec1 t c1), (rec2 t c2); try discriminate
    end.
    intros H1 H2; injection H1 as <-; injection H2 as <-; reflexivity.
  - intros H1 H2; injection H1 as <-; injection H2 as <-; reflexivity.
Qed.

Lemma same_setCurrentBlockState (state : Z) (b1 b2 : Block) :
  same b1 b2 -> setCurrentBlockState state b1 = setCurrentBlockState state b2.
Proof. unfold same, setCurrentBlockState. intros ->. reflexivity. Qed.

(** With a normal previous state the result does not depend on the
    state the block had before the call. *)
Lemma highlightBlock_normal_same (fuel : nat) (text : list ascii) (b1 b2 : Block) :
  same b1 b2 ->
  highlightBlock self STATE_NORMAL fuel text b1
  = highlightBlock self STATE_NORMAL fuel text b2.
Proof.
  intros Hb. destruct fuel as [|fuel]; [reflexivity|]. cbn [highlightBlock].
  rewrite !inactive_continuation by apply inactive_normal.
  pose proof (scan_same (highlightBlock self STATE_NORMAL fuel)
                (highlightBlock self STATE_NORMAL fuel) text 0
                STATE_NORMAL STATE_NORMAL b1 b2
                (highlightBlock_same STATE_NORMAL STATE_NORMAL
                   inactive_normal inactive_normal fuel) Hb) as Hs.
  destruct (scan self (highlightBlock self STATE_NORMAL fuel) text 0
              STATE_NORMAL b1) as [[c1 x1]|] eqn:E1;
    destruct (scan self (highlightBlock self STATE_NORMAL fuel) text 0
                STATE_NORMAL b2) as [[c2 x2]|] eqn:E2;
    simpl in Hs; try contradiction; [|reflexivity].
  pose proof (scan_current_state _ _ _ _ _ _ _ _ _ E1 E2) as Hc.
  simpl in Hc. subst c2. simpl.
  rewrite (same_setCurrentBlockState c1 x1 x2 Hs). reflexivity.
Qed.

(** With a previous state whose continuation branch is taken, it does
    not either: the branch writes the state before anything reads it. *)
Lemma highlightBlock_active_same (previous_state : Z)
    (ml_end : QRegularExpression) (format : QTextCharFormat)
    (fuel : nat) (text : list ascii) (b1 b2 : Block) :
  (forall b, continuation self previous_state text b
             = continue_construct ml_end previous_state format text b) ->
  same b1 b2 ->
  highlightBlock self previous_state fuel text b1
  = highlightBlock self previous_state fuel text b2.
Proof.
  intros Hc Hb. destruct fuel as [|fuel]; [reflexivity|]. cbn [highlightBlock].
  rewrite !Hc. unfold continue_construct.
  assert (Heq : forall state start count,
             setCurrentBlockState state (setFormat start count format b1)
             = setCurrentBlockState state (setFormat start count format b2)).
  { intros. apply same_setCurrentBlockState, same_setFormat, Hb. }
  destruct (match_ ml_end text 0) as [[i l]|]; rewrite Heq; reflexivity.
Qed.

(** A construct that starts in the scan phase and does not end in the
    text is painted to the end of the text. *)
Lemma scan_open_construct (recurse : list ascii -> Block -> option Block)
    (text : list ascii) (start_index current_state : Z) (b : Block)
    (next_ml_start matched_state match_len : Z) :
  (start_index <? len text) || (len text =? 0) = true ->
  find_ml_start self text start_index = (next_ml_start, matched_state, match_len) ->
  next_ml_start <> -1 ->
  end_match (fst (ml_end_of self matched_state)) text (next_ml_start + match_len)
  = None ->
  scan self recurse text start_index current_state b
  = Some (matched_state,
          setFormat next_ml_start (len text - next_ml_start)
            (snd (ml_end_of self matched_state))
            (apply_rules self start_index (slice text start_index next_ml_start) b)).
Proof.
  intros Hguard Hfound Hne Hend. unfold scan. rewrite Hguard, Hfound.
  apply Z.eqb_neq in Hne. rewrite Hne.
  destruct (ml_end_of self matched_state) as [ml_end_regex ml_format].
  simpl in *. rewrite Hend. reflexivity.
Qed.

(** In the outermost scan of a block whose previous state is normal the
    state of that construct is the state of the block. *)
Lemma open_construct_at_top_level (fuel : nat) (text : list ascii) (b : Block)
    (next_ml_start matched_state match_len : Z) :
  find_ml_start self text 0 = (next_ml_start, matched_state, match_len) ->
  next_ml_start <> -1 ->
  end_match (fst (ml_end_of self matched_state)) text (next_ml_start + match_len)
  = None ->
  highlightBlock self STATE_NORMAL (S fuel) text b
  = Some (setCurrentBlockState matched_state
            (setFormat next_ml_start (len text - next_ml_start)
               (snd (ml_end_of self matched_state))
               (apply_rules self 0 (slice text 0 next_ml_start) b))).
Proof.
  intros Hfound Hne Hend. cbn [highlightBlock].
  rewrite inactive_continuation by apply inactive_normal.
  rewrite (scan_open_construct _ text 0 STATE_NORMAL b
             next_ml_start matched_state match_len); auto.
  pose proof (len_nonneg text).
  destruct (Z.ltb_spec 0 (len text)); [reflexivity|].
  destruct (Z.eqb_spec (len text) 0); [reflexivity|lia].
Qed.

End Emitted.

End HighlighterFacts.

(** ** Tags, [LIKE] and the store's reading of texts *)

Module SnippetsFacts.

Import Chars Snippets Store.

Close Scope string_scope.
Open Scope Z_scope.

(** *** [strip] *)

Lemma lstrip_headed (s : list ascii) : headed (lstrip s).
Proof.
  induction s as [|c s IH]; simpl; [exact I|].
  destruct (is_space c) eqn:E; [exact IH|exact E].
Qed.

Lemma headed_lstrip (s : list ascii) : headed s -> lstrip s = s.
Proof. destruct s as [|c s]; simpl; [reflexivity|]. intros ->. reflexivity. Qed.

Lemma lstrip_suffix (s : list ascii) : exists pre, s = pre ++ lstrip s.
Proof.
  induction s as [|c s [pre IH]]; simpl; [exists []; reflexivity|].
  destruct (is_space c).
  - exists (c :: pre). simpl. f_equal. exact IH.
  - exists []. reflexivity.
Qed.

Lemma headed_prefix (a b : list ascii) : headed (a ++ b) -> headed a.
Proof. destruct a; simpl; auto. Qed.

Lemma headed_app (a b : list ascii) : a <> [] -> headed a -> headed (a ++ b).
Proof. destruct a; simpl; [congruence|auto]. Qed.

(** What [strip] returns starts and ends with a character it keeps. *)
Lemma strip_trimmed (s : list ascii) :
  headed (strip s) /\ headed (rev (strip s)).
Proof.
  unfold strip. split.
  - destruct (lstrip_suffix (rev (lstrip s))) as [pre Hpre].
    assert (Hs : lstrip s = rev (lstrip (rev (lstrip s))) ++ rev pre).
    { rewrite <- rev_app_distr, <- Hpre, rev_involutive. reflexivity. }
    apply (headed_prefix _ (rev pre)). rewrite <- Hs. apply lstrip_headed.
  - rewrite rev_involutive. apply lstrip_headed.
Qed.

Lemma trimmed_strip (s : list ascii) :
  headed s -> headed (rev s) -> strip s = s.
Proof.
  intros H1 H2. unfold strip.
  rewrite (headed_lstrip s H1), (headed_lstrip (rev s) H2). apply rev_involutive.
Qed.

Lemma strip_idempotent (s : list ascii) : strip (strip s) = strip s.
Proof. destruct (strip_trimmed s). apply trimmed_strip; assumption. Qed.

Lemma lstrip_incl (s : list ascii) (c : ascii) : In c (lstrip s) -> In c s.
Proof.
  destruct (lstrip_suffix s) as [pre H]. intros Hin. rewrite H.
  apply in_or_app. right. exact Hin.
Qed.

Lemma strip_incl (s : list ascii) (c : ascii) : In c (strip s) -> In c s.
Proof.
  unfold strip. intros H. apply in_rev in H. apply lstrip_incl in H.
  apply in_rev in H. apply lstrip_incl in H. exact H.
Qed.

(** *** [split] and [join] *)

Lemma split_not_nil (sep : ascii) (s : list ascii) : split sep s <> [].
Proof.
  induction s as [|c s IH]; simpl; [discriminate|].
  destruct (Ascii.eqb c sep); [discriminate|].
  destruct (split sep s); discriminate.
Qed.

Lemma split_free (sep : ascii) (s : list ascii) :
  Forall (fun piece => ~ In sep piece) (split sep s).
Proof.
  induction s as [|c s IH]; simpl.
  - constructor; [intros []|constructor].
  - destruct (Ascii.eqb_spec c sep) as [->|Hne].
    + constructor; [intros []|exact IH].
    + destruct (split sep s) as [|piece pieces]; [constructor; [|constructor]|].
      * intros [H|[]]. congruence.
      * inversion IH as [|? ? Hp Hps]; subst. constructor; [|exact Hps].
        intros [H|H]; [congruence|auto].
Qed.

Lemma split_of_free (sep : ascii) (s : list ascii) :
  ~ In sep s -> split sep s = [s].
Proof.
  induction s as [|c s IH]; simpl; [reflexivity|]. intros H.
  destruct (Ascii.eqb_spec c sep) as [->|Hne]; [tauto|].
  rewrite IH by tauto. reflexivity.
Qed.

Lemma split_app (sep : ascii) (a b : list ascii) :
  split sep (a ++ sep :: b) = split sep a ++ split sep b.
Proof.
  induction a as [|c a IH]; simpl.
  - rewrite Ascii.eqb_refl. reflexivity.
  - destruct (Ascii.eqb c sep); [rewrite IH; reflexivity|].
    rewrite IH. pose proof (split_not_nil sep a) as Hn.
    destruct (split sep a) as [|piece pieces]; [congruence|reflexivity].
Qed.

Lemma join_cons (sep piece : list ascii) (rest : list (list ascii)) :
  rest <> [] -> join sep (piece :: rest) = piece ++ sep ++ join sep rest.
Proof. destruct rest; [congruence|reflexivity]. Qed.

Lemma split_join (sep : ascii) (pieces : list (list ascii)) :
  pieces <> [] ->
  Forall (fun piece => ~ In sep piece) pieces ->
  split sep (join [sep] pieces) = pieces.
Proof.
  induction pieces as [|piece rest IH]; [congruence|]. intros _ Hfree.
  inversion Hfree as [|? ? Hp Hrest]; subst.
  destruct rest as [|piece' rest'].
  - simpl. apply split_of_free. exact Hp.
  - rewrite join_cons by discriminate.
    change ([sep] ++ join [sep] (piece' :: rest'))
      with (sep :: join [sep] (piece' :: rest')).
    rewrite split_app. rewrite IH; [|discriminate|assumption].
    rewrite split_of_free by exact Hp. reflexivity.
Qed.

Lemma join_split (sep : ascii) (s : list ascii) :
  join [sep] (split sep s) = s.
Proof.
  induction s as [|c s IH]; simpl; [reflexivity|].
  destruct (Ascii.eqb_spec c sep) as [->|Hne].
  - rewrite join_cons by apply split_not_nil. rewrite IH. reflexivity.
  - pose proof (split_not_nil sep s) as Hn.
    destruct (split sep s) as [|piece pieces]; [congruence|].
    destruct pieces as [|piece' pieces'].
    + simpl in *. congruence.
    + rewrite join_cons in * by discriminate. simpl. rewrite <- IH. reflexivity.
Qed.

(** *** The pieces of a tags string *)

Lemma spaces_lstrip (ws s : list ascii) :
  spaces ws -> lstrip (ws ++ s) = lstrip s.
Proof.
  induction 1 as [|c ws Hc _ IH]; simpl; [reflexivity|]. rewrite Hc. exact IH.
Qed.

Lemma lstrip_spaces_prefix (s : list ascii) :
  exists ws, spaces ws /\ s = ws ++ lstrip s.
Proof.
  induction s as [|c s (ws & Hws & IH)]; simpl.
  - exists []. split; [constructor|reflexivity].
  - destruct (is_space c) eqn:E.
    + exists (c :: ws). split; [constructor; assumption|]. simpl. f_equal. exact IH.
    + exists []. split; [constructor|reflexivity].
Qed.

(** [strip] removes a run of space from each end of the string. *)
Lemma strip_decomposition (s : list ascii) :
  exists ws1 ws2, spaces ws1 /\ spaces ws2 /\ s = ws1 ++ strip s ++ ws2.
Proof.
  destruct (lstrip_spaces_prefix s) as (ws1 & H1 & E1).
  destruct (lstrip_spaces_prefix (rev (lstrip s))) as (w & H2 & E2).
  exists ws1, (rev w). split; [exact H1|]. split; [apply Forall_rev; exact H2|].
  unfold strip. rewrite <- rev_app_distr, <- E2, rev_involutive. exact E1.
Qed.

Lemma strip_spaces_prefix (ws s : list ascii) :
  spaces ws -> strip (ws ++ s) = strip s.
Proof. intros H. unfold strip. rewrite (spaces_lstrip ws s H). reflexivity. Qed.

Lemma lstrip_spaces_suffix (s ws : list ascii) :
  spaces ws ->
  lstrip (s ++ ws) = match lstrip s with
                     | [] => []
                     | _ => lstrip s ++ ws
                     end.
Proof.
  intros H. induction s as [|c s IH]; simpl.
  - rewrite <- (app_nil_r ws). rewrite (spaces_lstrip ws [] H). reflexivity.
  - destruct (is_space c); [exact IH|reflexivity].
Qed.

Lemma strip_spaces_suffix (s ws : list ascii) :
  spaces ws -> strip (s ++ ws) = strip s.
Proof.
  intros H. unfold strip. rewrite (lstrip_spaces_suffix s ws H).
  destruct (lstrip s) as [|c u] eqn:E; [reflexivity|].
  rewrite rev_app_distr. rewrite spaces_lstrip by (apply Forall_rev; exact H).
  reflexivity.
Qed.

Lemma spaces_free (sep : ascii) (ws : list ascii) :
  is_space sep = false -> spaces ws -> ~ In sep ws.
Proof.
  intros Hsep H Hin. unfold spaces in H. rewrite Forall_forall in H.
  specialize (H sep Hin). congruence.
Qed.

Lemma split_free_prefix (sep : ascii) (a s : list ascii) :
  ~ In sep a ->
  split sep (a ++ s) = match split sep s with
                       | piece :: pieces => (a ++ piece) :: pieces
                       | [] => []
                       end.
Proof.
  induction a as [|c a IH]; simpl; intros H.
  - destruct (split sep s); reflexivity.
  - destruct (Ascii.eqb_spec c sep) as [->|Hne]; [tauto|].
    rewrite IH by tauto. pose proof (split_not_nil sep s) as Hn.
    destruct (split sep s); [congruence|reflexivity].
Qed.

Lemma split_free_suffix (sep : ascii) (s a : list ascii) :
  ~ In sep a ->
  exists init last,
    split sep s = init ++ [last] /\ split sep (s ++ a) = init ++ [last ++ a].
Proof.
  intros Ha. induction s as [|c s (init & last & E1 & E2)]; simpl.
  - exists [], []. split; [reflexivity|]. simpl. apply split_of_free. exact Ha.
  - destruct (Ascii.eqb c sep).
    + exists ([] :: init), last. rewrite E1, E2. split; reflexivity.
    + rewrite E1, E2. destruct init as [|piece init].
      * exists [], (c :: last). split; reflexivity.
      * exists ((c :: piece) :: init), last. split; reflexivity.
Qed.

Lemma pieces_filter (s : list ascii) :
  pieces s = filter nonempty (map strip (split "," s)).
Proof.
  unfold pieces. induction (split "," s) as [|t l IH]; simpl; [reflexivity|].
  destruct (nonempty (strip t)); simpl; rewrite IH; reflexivity.
Qed.

(** Trimming the whole string first does not change its pieces. *)
Lemma pieces_strip (s : list ascii) : pieces (strip s) = pieces s.
Proof.
  rewrite !pieces_filter. f_equal.
  destruct (strip_decomposition s) as (ws1 & ws2 & H1 & H2 & E).
  rewrite E at 2.
  rewrite (split_free_prefix "," ws1 (strip s ++ ws2))
    by (apply spaces_free; [reflexivity|exact H1]).
  destruct (split_free_suffix "," (strip s) ws2
              (spaces_free "," ws2 eq_refl H2)) as (init & last & E1 & E2).
  rewrite E1, E2.
  destruct init as [|piece init]; simpl.
  - rewrite strip_spaces_prefix by exact H1.
    rewrite strip_spaces_suffix by exact H2. reflexivity.
  - rewrite strip_spaces_prefix by exact H1. f_equal.
    rewrite !map_app. simpl. rewrite strip_spaces_suffix by exact H2. reflexivity.
Qed.

Lemma pieces_trimmed (s : list ascii) :
  Forall (fun t => strip t = t /\ nonempty t = true /\ ~ In ","%char t) (pieces s).
Proof.
  unfold pieces. pose proof (split_free "," s) as Hfree.
  induction (split "," s) as [|t l IH]; simpl; [constructor|].
  inversion Hfree as [|? ? Ht Hl]; subst.
  destruct (nonempty (strip t)) eqn:E; [|apply IH; exact Hl].
  simpl. constructor; [|apply IH; exact Hl].
  split; [apply strip_idempotent|]. split; [exact E|].
  intros Hin. apply Ht. apply strip_incl. exact Hin.
Qed.

(** Joining the pieces and taking the pieces again gives the same pieces. *)
Lemma pieces_join (s : list ascii) :
  pieces (join [","%char] (pieces s)) = pieces s.
Proof.
  pose proof (pieces_trimmed s) as H.
  destruct (pieces s) as [|t l] eqn:E; [reflexivity|].
  rewrite <- E in *. unfold pieces at 1.
  rewrite split_join.
  - clear E. induction H as [|u l' (Hs & Hn & _) _ IH]; simpl; [reflexivity|].
    rewrite Hs, Hn. simpl. rewrite Hs, IH. reflexivity.
  - rewrite E. discriminate.
  - eapply Forall_impl; [|exact H]. simpl. tauto.
Qed.

Lemma saved_tags_pieces (tags_input : string) :
  saved_tags tags_input
  = string_of_list_ascii
      (join [","%char] (pieces (list_ascii_of_string tags_input))).
Proof.
  unfold saved_tags. fold (pieces (strip (list_ascii_of_string tags_input))).
  rewrite pieces_strip. reflexivity.
Qed.

Lemma tags_this_row_pieces (tags : string) :
  tags_this_row tags
  = map string_of_list_ascii (pieces (list_ascii_of_string tags)).
Proof. unfold tags_this_row, pieces. rewrite map_map. reflexivity. Qed.

Lemma saved_row_pieces (tags_input : string) :
  tags_this_row (saved_tags tags_input)
  = map string_of_list_ascii (pieces (list_ascii_of_string tags_input)).
Proof.
  rewrite tags_this_row_pieces, saved_tags_pieces.
  rewrite list_ascii_of_string_of_list_ascii, pieces_join. reflexivity.
Qed.

(** *** The comparison of [LIKE] *)

Lemma compare_nil (text : list ascii) : patternCompare [] text = true <-> text = [].
Proof. destruct text; simpl; split; congruence. Qed.

Lemma compare_percent_eq (pat text : list ascii) :
  patternCompare ("%"%char :: pat) text
  = patternCompare pat text || match text with
                     | [] => false
                     | _ :: text' => patternCompare ("%"%char :: pat) text'
                     end.
Proof. destruct text; reflexivity. Qed.

Lemma compare_percent (pat text : list ascii) :
  patternCompare ("%"%char :: pat) text = true
  <-> exists t1 t2, text = t1 ++ t2 /\ patternCompare pat t2 = true.
Proof.
  induction text as [|d text IH]; rewrite compare_percent_eq.
  - rewrite orb_false_r. split.
    + intros H. exists [], []. auto.
    + intros (t1 & t2 & E & H). symmetry in E. apply app_eq_nil in E.
      destruct E as [_ ->]. exact H.
  - rewrite orb_true_iff, IH. split.
    + intros [H|(t1 & t2 & -> & H)].
      * exists [], (d :: text). auto.
      * exists (d :: t1), t2. auto.
    + intros (t1 & t2 & E & H). destruct t1 as [|c t1]; simpl in E.
      * left. rewrite E. exact H.
      * right. injection E as _ ->. exists t1, t2. auto.
Qed.

Lemma compare_underscore (pat text : list ascii) :
  patternCompare ("_"%char :: pat) text
  = match text with
    | _ :: text' => patternCompare pat text'
    | [] => false
    end.
Proof. reflexivity. Qed.

Lemma compare_char (c : ascii) (pat text : list ascii) :
  c <> "%"%char -> c <> "_"%char ->
  patternCompare (c :: pat) text
  = match text with
    | d :: text' => Ascii.eqb (to_lower c) (to_lower d) && patternCompare pat text'
    | [] => false
    end.
Proof.
  intros H1 H2.
  destruct c as [[] [] [] [] [] [] [] []]; try reflexivity; congruence.
Qed.

Lemma wildcard_cases (c : ascii) :
  c = "%"%char \/ c = "_"%char \/ (c <> "%"%char /\ c <> "_"%char).
Proof.
  destruct (ascii_dec c "%") as [->|H1]; [auto|].
  destruct (ascii_dec c "_") as [->|H2]; auto.
Qed.

(** A pattern matches itself, whatever wildcards it holds, and what
    follows it is matched by what follows in the pattern. *)
Lemma compare_app (p q text : list ascii) :
  patternCompare q text = true -> patternCompare (p ++ q) (p ++ text) = true.
Proof.
  intros H. induction p as [|c p IH]; [exact H|].
  destruct (wildcard_cases c) as [->|[->|[H1 H2]]]; simpl app.
  - apply compare_percent. exists ["%"%char], (p ++ text). auto.
  - rewrite compare_underscore. exact IH.
  - rewrite compare_char by assumption. rewrite Ascii.eqb_refl. exact IH.
Qed.

(** A pattern without wildcards matches the strings equal to it up to
    the case of the letters. *)
Lemma compare_literal (p q text : list ascii) :
  literal p ->
  patternCompare (p ++ q) text = true
  <-> exists t1 t2, text = t1 ++ t2 /\ caseless t1 p /\ patternCompare q t2 = true.
Proof.
  intros Hp. revert text. induction Hp as [|c p (H1 & H2 & _) _ IH]; intros text.
  - simpl. split.
    + intros H. exists [], text. repeat split; auto.
    + intros (t1 & t2 & -> & Hc & H). unfold caseless in Hc.
      destruct t1; [exact H|discriminate].
  - simpl app. rewrite compare_char by assumption. destruct text as [|d text].
    + split; [discriminate|]. intros (t1 & t2 & E & Hc & _).
      destruct t1; [discriminate Hc|discriminate E].
    + rewrite andb_true_iff, IH. split.
      * intros (Hcd & t1 & t2 & -> & Hc & H).
        apply Ascii.eqb_eq in Hcd.
        exists (d :: t1), t2. repeat split; auto.
        unfold caseless in *. simpl. rewrite Hc, Hcd. reflexivity.
      * intros (t1 & t2 & E & Hc & H). destruct t1 as [|d' t1]; [discriminate Hc|].
        injection E as <- ->. unfold caseless in Hc. simpl in Hc.
        injection Hc as Hd Hc. split; [apply Ascii.eqb_eq; auto|].
        exists t1, t2. auto.
Qed.

Lemma caseless_refl (s : list ascii) : caseless s s.
Proof. reflexivity. Qed.

Lemma to_lower_comma (c : ascii) : to_lower c = ","%char -> c = ","%char.
Proof.
  destruct c as [[] [] [] [] [] [] [] []]; vm_compute; intros H;
    first [reflexivity|discriminate H].
Qed.

Lemma caseless_free (s t : list ascii) :
  caseless s t -> ~ In ","%char t -> ~ In ","%char s.
Proof.
  unfold caseless. revert t. induction s as [|c s IH]; intros t E Ht; [intros []|].
  destruct t as [|d t]; [discriminate|]. simpl in E. injection E as Hc E.
  intros [->|Hin].
  - apply Ht. left. apply to_lower_comma. rewrite <- Hc. reflexivity.
  - apply (IH t E); [|exact Hin]. intros H. apply Ht. right. exact H.
Qed.

Lemma list_of_append (s t : string) :
  list_ascii_of_string (s ++ t)%string
  = list_ascii_of_string s ++ list_ascii_of_string t.
Proof. induction s as [|c s IH]; simpl; [reflexivity|]. rewrite IH. reflexivity. Qed.

Lemma list_of_string_inj (s t : string) :
  list_ascii_of_string s = list_ascii_of_string t -> s = t.
Proof.
  intros H. rewrite <- (string_of_list_ascii_of_string s), H.
  apply string_of_list_ascii_of_string.
Qed.

(** The four patterns, on lists of characters. *)
(** The place of a piece in the joined string. *)
Lemma join_middle (sep : ascii) (l1 l2 : list (list ascii)) (tok : list ascii) :
  join [sep] (l1 ++ tok :: l2)
  = match l1, l2 with
    | [], [] => tok
    | [], _ => tok ++ sep :: join [sep] l2
    | _, [] => join [sep] l1 ++ sep :: tok
    | _, _ => join [sep] l1 ++ sep :: tok ++ sep :: join [sep] l2
    end.
Proof.
  induction l1 as [|t l1 IH].
  - destruct l2; reflexivity.
  - change ((t :: l1) ++ tok :: l2) with (t :: (l1 ++ tok :: l2)).
    rewrite join_cons by (destruct l1; discriminate). rewrite IH.
    destruct l1 as [|t' l1].
    + destruct l2; simpl; rewrite <- ?app_assoc; reflexivity.
    + rewrite (join_cons [sep] t (t' :: l1)) by discriminate.
      destruct l2; simpl; rewrite <- ?app_assoc; reflexivity.
Qed.

Lemma compare_percent_nil (text : list ascii) : patternCompare ["%"%char] text = true.
Proof. apply compare_percent. exists text, []. rewrite app_nil_r. auto. Qed.

Lemma compare_comma (q text : list ascii) :
  patternCompare (","%char :: q) text = true
  <-> exists text', text = ","%char :: text' /\ patternCompare q text' = true.
Proof.
  rewrite compare_char by discriminate. destruct text as [|d text].
  - split; [discriminate|]. intros (t & E & _). discriminate E.
  - rewrite andb_true_iff. split.
    + intros [Hd H]. apply Ascii.eqb_eq in Hd. symmetry in Hd.
      apply to_lower_comma in Hd. subst d. exists text. auto.
    + intros (t & E & H). injection E as -> ->. split; [reflexivity|exact H].
Qed.

Lemma plain_tag_literal (s : list ascii) : plain_tag s -> literal s.
Proof. apply Forall_impl. tauto. Qed.

Lemma plain_tag_free (s : list ascii) : plain_tag s -> ~ In ","%char s.
Proof.
  unfold plain_tag. rewrite Forall_forall. intros H Hin.
  destruct (H _ Hin) as (_ & _ & _ & Hc). congruence.
Qed.

Lemma literal_nul_free (s : list ascii) : literal s -> ~ In NUL s.
Proof.
  unfold literal. rewrite Forall_forall. intros H Hin.
  destruct (H _ Hin) as (_ & _ & Hc). congruence.
Qed.

(** *** What the store reads and how long a pattern may be *)

Lemma until_nul_free (s : list ascii) : ~ In NUL s -> until_nul s = s.
Proof.
  induction s as [|c s IH]; simpl; [reflexivity|]. intros H.
  destruct (Ascii.eqb_spec c NUL) as [->|_]; [tauto|].
  rewrite IH by tauto. reflexivity.
Qed.

Lemma bytes_cons (c : ascii) (s : list ascii) :
  bytes (c :: s) = (if (Chars.code c <? 128)%nat then 1 else 2) + bytes s.
Proof. reflexivity. Qed.

Lemma bytes_app (a b : list ascii) : bytes (a ++ b) = bytes a + bytes b.
Proof.
  induction a as [|c a IH]; [reflexivity|].
  simpl app. rewrite !bytes_cons, IH. lia.
Qed.

Lemma like_within (pat text : list ascii) :
  ~ In NUL pat -> bytes pat <= SQLITE_MAX_LIKE_PATTERN_LENGTH ->
  like pat text = Some (patternCompare pat (until_nul text)).
Proof.
  intros Hnul Hlen. unfold like.
  destruct (Z.ltb_spec SQLITE_MAX_LIKE_PATTERN_LENGTH (bytes pat)); [lia|].
  rewrite (until_nul_free pat Hnul). reflexivity.
Qed.

Lemma OR_some (a b : bool) : OR (Some a) (Some b) = Some (a || b).
Proof. destruct a; reflexivity. Qed.

(** The tag condition for a filter that is read whole and whose patterns
    are not too long: the four comparisons, on what is read of the tags. *)
Lemma tag_condition_within (tag_filter tags : string) :
  ~ In NUL (list_ascii_of_string tag_filter) ->
  bytes (list_ascii_of_string tag_filter) + 4 <= SQLITE_MAX_LIKE_PATTERN_LENGTH ->
  tag_condition tag_filter tags
  = Some (patternCompare
            ("%"%char :: ","%char :: list_ascii_of_string tag_filter ++ [","%char; "%"%char])
            (until_nul (list_ascii_of_string tags))
          || patternCompare (list_ascii_of_string tag_filter ++ [","%char; "%"%char])
                            (until_nul (list_ascii_of_string tags))
          || patternCompare ("%"%char :: ","%char :: list_ascii_of_string tag_filter)
                            (until_nul (list_ascii_of_string tags))
          || String.eqb tags tag_filter).
Proof.
  intros Hnul Hlen. unfold SQLITE_MAX_LIKE_PATTERN_LENGTH in Hlen.
  unfold tag_condition, LIKE, tag_in_the_middle, tag_at_the_start, tag_at_the_end,
    tag_is_the_only_one.
  rewrite !list_of_append. cbn [list_ascii_of_string app].
  set (f := list_ascii_of_string tag_filter) in *.
  assert (Htail : ~ In NUL [","%char; "%"%char])
    by (intros [H|[H|[]]]; discriminate H).
  assert (Hb : bytes [","%char; "%"%char] = 2) by reflexivity.
  assert (H1 : forall t,
             like ("%"%char :: ","%char :: f ++ [","%char; "%"%char]) t
             = Some (patternCompare
                       ("%"%char :: ","%char :: f ++ [","%char; "%"%char])
                       (until_nul t))).
  { intros t. apply like_within; unfold SQLITE_MAX_LIKE_PATTERN_LENGTH.
    - intros [H|[H|H]]; [discriminate H|discriminate H|].
      apply in_app_or in H. tauto.
    - rewrite !bytes_cons, bytes_app, Hb.
      change (Chars.code "%" <? 128)%nat with true.
      change (Chars.code "," <? 128)%nat with true. cbv iota. lia. }
  assert (H2 : forall t,
             like (f ++ [","%char; "%"%char]) t
             = Some (patternCompare (f ++ [","%char; "%"%char]) (until_nul t))).
  { intros t. apply like_within; unfold SQLITE_MAX_LIKE_PATTERN_LENGTH.
    - intros H. apply in_app_or in H. tauto.
    - rewrite bytes_app, Hb. lia. }
  assert (H3 : forall t,
             like ("%"%char :: ","%char :: f) t
             = Some (patternCompare ("%"%char :: ","%char :: f) (until_nul t))).
  { intros t. apply like_within; unfold SQLITE_MAX_LIKE_PATTERN_LENGTH.
    - intros [H|[H|H]]; [discriminate H|discriminate H|tauto].
    - rewrite !bytes_cons.
      change (Chars.code "%" <? 128)%nat with true.
      change (Chars.code "," <? 128)%nat with true. cbv iota. lia. }
  rewrite H1, H2, H3, !OR_some. reflexivity.
Qed.

(** A piece of a string of tags, given as the filter, matches it. *)
Lemma piece_matches (t tok : list ascii) :
  In tok (split "," t) ->
  patternCompare ("%"%char :: ","%char :: tok ++ [","%char; "%"%char]) t
  || patternCompare (tok ++ [","%char; "%"%char]) t
  || patternCompare ("%"%char :: ","%char :: tok) t = true
  \/ t = tok.
Proof.
  intros Hin. destruct (in_split _ _ Hin) as (l1 & l2 & E).
  pose proof (join_split "," t) as Hj. rewrite E, join_middle in Hj.
  destruct l1 as [|t1 l1], l2 as [|t2 l2].
  - right. auto.
  - left. rewrite !orb_true_iff. left. right. rewrite <- Hj. apply compare_app.
    rewrite compare_char by discriminate.
    rewrite Ascii.eqb_refl. apply compare_percent_nil.
  - left. rewrite !orb_true_iff. right. rewrite <- Hj. apply compare_percent.
    eexists _, _. split; [reflexivity|].
    pose proof (compare_app (","%char :: tok) [] [] eq_refl) as H.
    rewrite !app_nil_r in H. exact H.
  - left. rewrite !orb_true_iff. left. left. rewrite <- Hj. apply compare_percent.
    eexists _, _. split; [reflexivity|].
    apply (compare_app (","%char :: tok) [","%char; "%"%char]).
    rewrite compare_char by discriminate.
    rewrite Ascii.eqb_refl. apply compare_percent_nil.
Qed.

(** The four comparisons for a filter without wildcards and commas. *)
Lemma comparisons_plain (f t : list ascii) :
  plain_tag f ->
  patternCompare ("%"%char :: ","%char :: f ++ [","%char; "%"%char]) t
  || patternCompare (f ++ [","%char; "%"%char]) t
  || patternCompare ("%"%char :: ","%char :: f) t = true
  <-> In ","%char t /\ exists tok, In tok (split "," t) /\ caseless tok f.
Proof.
  intros Hplain. pose proof (plain_tag_literal _ Hplain) as Hlit.
  pose proof (plain_tag_free _ Hplain) as Hfree.
  rewrite !orb_true_iff. split.
  - intros [[H|H]|H].
    + apply compare_percent in H. destruct H as (t1 & t2 & E & H).
      apply compare_comma in H. destruct H as (t3 & -> & H).
      apply (compare_literal f) in H; [|exact Hlit].
      destruct H as (u & t4 & -> & Hc & H).
      apply compare_comma in H. destruct H as (t5 & -> & _).
      split; [rewrite E; apply in_or_app; right; left; reflexivity|].
      exists u. split; [|exact Hc].
      rewrite E, !split_app, (split_of_free "," u (caseless_free _ _ Hc Hfree)).
      apply in_or_app. right. left. reflexivity.
    + apply (compare_literal f) in H; [|exact Hlit].
      destruct H as (u & t4 & E & Hc & H).
      apply compare_comma in H. destruct H as (t5 & -> & _).
      split; [rewrite E; apply in_or_app; right; left; reflexivity|].
      exists u. split; [|exact Hc].
      rewrite E, split_app, (split_of_free "," u (caseless_free _ _ Hc Hfree)).
      left. reflexivity.
    + apply compare_percent in H. destruct H as (t1 & t2 & E & H).
      apply compare_comma in H. destruct H as (t3 & -> & H).
      rewrite <- (app_nil_r f) in H.
      apply (compare_literal f) in H; [|exact Hlit].
      destruct H as (u & t4 & -> & Hc & H).
      apply compare_nil in H. subst t4. rewrite app_nil_r in E.
      split; [rewrite E; apply in_or_app; right; left; reflexivity|].
      exists u. split; [|exact Hc].
      rewrite E, split_app, (split_of_free "," u (caseless_free _ _ Hc Hfree)).
      apply in_or_app. right. left. reflexivity.
  - intros (Hcomma & tok & Hin & Hc).
    pose proof (split_free "," t) as Hpieces.
    destruct (in_split _ _ Hin) as (l1 & l2 & E).
    pose proof (join_split "," t) as Hj. rewrite E, join_middle in Hj.
    destruct l1 as [|p1 l1], l2 as [|p2 l2].
    + exfalso. rewrite Forall_forall in Hpieces.
      apply (Hpieces tok Hin). rewrite Hj. exact Hcomma.
    + left. right. rewrite <- Hj. apply (compare_literal f); [exact Hlit|].
      eexists _, _. split; [reflexivity|]. split; [exact Hc|].
      apply compare_comma. eexists. split; [reflexivity|apply compare_percent_nil].
    + right. rewrite <- Hj. apply compare_percent.
      eexists _, _. split; [reflexivity|].
      apply compare_comma. eexists. split; [reflexivity|].
      rewrite <- (app_nil_r f). apply (compare_literal f); [exact Hlit|].
      exists tok, []. rewrite app_nil_r. auto.
    + left. left. rewrite <- Hj. apply compare_percent.
      eexists _, _. split; [reflexivity|].
      apply compare_comma. eexists. split; [reflexivity|].
      apply (compare_literal f); [exact Hlit|].
      eexists _, _. split; [reflexivity|]. split; [exact Hc|].
      apply compare_comma. eexists. split; [reflexivity|apply compare_percent_nil].
Qed.

(** The tag condition for a filter without wildcards, commas and [NUL]
    whose patterns are not too long: the condition is evaluated without
    error, and it holds when the tags are the filter itself, or when
    what the store reads of them has several pieces of which one is the
    filter up to the case of its letters. *)
Lemma tag_condition_plain (tag_filter tags : string) :
  plain_tag (list_ascii_of_string tag_filter) ->
  bytes (list_ascii_of_string tag_filter) + 4 <= SQLITE_MAX_LIKE_PATTERN_LENGTH ->
  exists selected,
    tag_condition tag_filter tags = Some selected
    /\ (selected = true
        <-> tags = tag_filter
            \/ (In ","%char (until_nul (list_ascii_of_string tags))
                /\ exists tok,
                     In tok (split "," (until_nul (list_ascii_of_string tags)))
                     /\ caseless tok (list_ascii_of_string tag_filter))).
Proof.
  intros Hplain Hlen.
  rewrite (tag_condition_within tag_filter tags
             (literal_nul_free _ (plain_tag_literal _ Hplain)) Hlen).
  eexists. split; [reflexivity|].
  rewrite orb_true_iff, (comparisons_plain _ _ Hplain), String.eqb_eq. tauto.
Qed.

(** *** The search condition *)

Lemma compare_contains (term text : list ascii) :
  literal term ->
  patternCompare ("%"%char :: term ++ ["%"%char]) text = true <-> occurs term text.
Proof.
  intros Hlit. rewrite compare_percent. unfold occurs. split.
  - intros (t1 & t2 & -> & H). apply (compare_literal term) in H; [|exact Hlit].
    destruct H as (u & t3 & -> & Hc & _). exists t1, u, t3. auto.
  - intros (t1 & u & t3 & -> & Hc). exists t1, (u ++ t3). split; [reflexivity|].
    apply (compare_literal term); [exact Hlit|].
    exists u, t3. repeat split; auto. apply compare_percent_nil.
Qed.

(** [text LIKE '%term%'] for a term without wildcards and [NUL] that is
    not too long. *)
Lemma LIKE_contains (term text : string) :
  literal (list_ascii_of_string term) ->
  bytes (list_ascii_of_string term) + 2 <= SQLITE_MAX_LIKE_PATTERN_LENGTH ->
  exists found,
    LIKE text ("%" ++ term ++ "%") = Some found
    /\ (found = true
        <-> occurs (list_ascii_of_string term)
                   (until_nul (list_ascii_of_string text))).
Proof.
  intros Hlit Hlen. unfold SQLITE_MAX_LIKE_PATTERN_LENGTH in Hlen.
  unfold LIKE. rewrite !list_of_append.
  cbn [list_ascii_of_string app]. rewrite like_within;
    unfold SQLITE_MAX_LIKE_PATTERN_LENGTH.
  - eexists. split; [reflexivity|]. apply compare_contains. exact Hlit.
  - intros [H|H]; [discriminate H|]. apply in_app_or in H.
    destruct H as [H|[H|[]]]; [|discriminate H].
    exact (literal_nul_free _ Hlit H).
  - rewrite bytes_cons, bytes_app. change (Chars.code "%" <? 128)%nat with true.
    change (bytes ["%"%char]) with 1. cbv iota. lia.
Qed.

(** *** The characters of a stored tags string *)

Lemma split_chars (sep : ascii) (s piece : list ascii) (c : ascii) :
  In piece (split sep s) -> In c piece -> In c s.
Proof.
  intros Hp Hc. rewrite <- (join_split sep s).
  destruct (in_split _ _ Hp) as (l1 & l2 & ->). rewrite join_middle.
  destruct l1, l2; repeat (apply in_or_app; simpl); auto 6.
  - right. right. apply in_or_app. auto.
Qed.

Lemma join_chars (sep : ascii) (ps : list (list ascii)) (c : ascii) :
  In c (join [sep] ps) -> c = sep \/ exists p, In p ps /\ In c p.
Proof.
  induction ps as [|p ps IH]; [intros []|].
  destruct ps as [|q ps].
  - simpl. intros H. right. exists p. auto.
  - rewrite join_cons by discriminate. intros H.
    apply in_app_or in H. destruct H as [H|H].
    + right. exists p. split; [left; reflexivity|exact H].
    + destruct H as [<-|H]; [auto|].
      destruct (IH H) as [->|(p' & Hp & Hc)]; [auto|].
      right. exists p'. split; [right; exact Hp|exact Hc].
Qed.

Lemma pieces_chars (s p : list ascii) (c : ascii) :
  In p (pieces s) -> In c p -> In c s.
Proof.
  unfold pieces. intros Hp Hc. apply in_map_iff in Hp.
  destruct Hp as (t & <- & Ht). apply filter_In in Ht. destruct Ht as [Ht _].
  apply (split_chars "," s t c Ht). apply strip_incl. exact Hc.
Qed.

End SnippetsFacts.

(** ** The statements of the specification *)

Module Specification.

Import Chars Regex RegexFacts Highlighter HighlighterFacts Snippets Document Store
  SnippetsFacts.

Open Scope string_scope.
Open Scope Z_scope.

(** C1 (the code departs from it).  A block inside a comment whose end
    pattern matches nowhere is painted as a comment and keeps the state,
    but [start_index] stays [0], so the scan phase still runs over the
    whole block: for c++, the block [int x;] after an open comment gets
    the operator, type and keyword spans on top of the comment span, and
    [int] ends with the keyword format. *)
Theorem continuation_without_end_still_applies_rules :
  forall (settings : string -> option string) (old : Z),
    highlight (__init__ settings "c++") STATE_ML_COMMENT (text_of "int x;") (fresh old)
    = Some {| formats := [(0, 6, comment_format_ settings);
                          (5, 1, operator_format settings);
                          (0, 3, cpp_type_format settings);
                          (0, 3, keyword_format settings)];
              currentBlockState := STATE_ML_COMMENT |}
    /\ format_at 6 [(0, 6, comment_format_ settings);
                    (5, 1, operator_format settings);
                    (0, 3, cpp_type_format settings);
                    (0, 3, keyword_format settings)] 0
       = Some (keyword_format settings)
    /\ keyword_format settings <> comment_format_ settings.
Proof.
  intros settings old. split; [vm_compute; reflexivity|].
  split; [vm_compute; reflexivity|].
  unfold keyword_format, comment_format_, setFontWeightBold, setFontItalic, plain.
  simpl. discriminate.
Qed.

(** C2 (the code departs from it).  After a construct that starts and
    ends in the block the scan is run again on the tail, but as a call on
    the tail alone, so the spans of that call are counted from the start
    of the tail: for c++, in the block with two comments around a string,
    the string span is reported at offset 1 (not 9) and the second
    comment at offset 7 (not 15). *)
Theorem tail_spans_are_relative_to_the_tail :
  forall (settings : string -> option string) (old : Z),
    highlight (__init__ settings "c++") STATE_NORMAL
      (text_of ("/* c1 */ " ++ dq ++ "str" ++ dq ++ " /* c2 */")) (fresh old)
    = Some {| formats := [(0, 8, comment_format_ settings);
                          (1, 5, string_format_ settings);
                          (1, 5, string_format_ settings);
                          (7, 8, comment_format_ settings)];
              currentBlockState := STATE_NORMAL |}.
Proof. intros settings old. vm_compute. reflexivity. Qed.

(** C3, the statement of the specification, fails: the five characters
    of [class] do not end with the class/type format. *)
Lemma class_token_is_not_class_type :
  ~ (exists b,
        highlight (__init__ defaults "python") STATE_NORMAL (text_of "class Foo:")
                  (fresh STATE_NORMAL) = Some b
        /\ forall i, 0 <= i < 5 ->
                     format_at 10 (formats b) i = Some (class_type_format defaults)).
Proof.
  intros (b & Hb & Hstyle).
  vm_compute in Hb. injection Hb as <-.
  specialize (Hstyle 0 ltac:(lia)). vm_compute in Hstyle. discriminate.
Qed.

(** C3, as the code has it.  For python and the block [class Foo:] the
    class-definition rule paints offsets 0 to 8 with the class/type
    format, and the keyword rule for [class], which comes later in the
    table, paints offsets 0 to 4 again: the token [class] ends with the
    keyword format and the rest of the match with the class/type
    format. *)
Theorem class_token_ends_as_keyword :
  forall (settings : string -> option string) (old : Z),
    exists b,
      highlight (__init__ settings "python") STATE_NORMAL (text_of "class Foo:")
                (fresh old) = Some b
      /\ formats b = [(9, 1, operator_format settings);
                      (0, 9, class_type_format settings);
                      (0, 5, keyword_format settings)]
      /\ (forall i, 0 <= i < 5 ->
                    format_at 10 (formats b) i = Some (keyword_format settings))
      /\ (forall i, 5 <= i < 9 ->
                    format_at 10 (formats b) i = Some (class_type_format settings))
      /\ keyword_format settings <> class_type_format settings.
Proof.
  intros settings old. eexists. split; [vm_compute; reflexivity|].
  split; [reflexivity|]. split; [|split].
  - intros i Hi.
    assert (H : i = 0 \/ i = 1 \/ i = 2 \/ i = 3 \/ i = 4) by lia.
    repeat (destruct H as [->|H]; [vm_compute; reflexivity|]).
    subst i. vm_compute. reflexivity.
  - intros i Hi.
    assert (H : i = 5 \/ i = 6 \/ i = 7 \/ i = 8) by lia.
    repeat (destruct H as [->|H]; [vm_compute; reflexivity|]).
    subst i. vm_compute. reflexivity.
  - unfold keyword_format, class_type_format, setFontWeightBold, plain.
    simpl. discriminate.
Qed.

(** C4 (the code departs from it).  When a construct that stays open
    starts after an earlier construct of the same line, it is found by
    the call on the tail: its span is counted from the start of the tail
    and the state it sets is overwritten with the normal state when the
    outer call ends.  For c++ and [/* a */ x /* b] the open comment is
    reported at offset 3 (not 10) and the block ends in the normal
    state. *)
Theorem open_construct_after_closed_one_is_lost :
  forall (settings : string -> option string) (old : Z),
    highlight (__init__ settings "c++") STATE_NORMAL (text_of "/* a */ x /* b")
              (fresh old)
    = Some {| formats := [(0, 7, comment_format_ settings);
                          (3, 4, comment_format_ settings)];
              currentBlockState := STATE_NORMAL |}.
Proof. intros settings old. vm_compute. reflexivity. Qed.

(** C5, the statement of the specification, fails: for c++ a block
    whose previous state is the double-quoted string state, for which
    the table has no end pattern, is neither left in that state nor
    painted as a string. *)
Lemma missing_end_pattern_is_no_continuation :
  ~ (exists b,
        highlight (__init__ defaults "c++") STATE_ML_STRING_DQ (text_of "int x;")
                  (fresh STATE_NORMAL) = Some b
        /\ (currentBlockState b = STATE_ML_STRING_DQ
            \/ forall i, 0 <= i < 6 ->
                         format_at 6 (formats b) i
                         = Some (string_format (__init__ defaults "c++")))).
Proof.
  intros (b & Hb & [Hstate|Hstyle]); vm_compute in Hb; injection Hb as <-.
  - vm_compute in Hstate. discriminate.
  - specialize (Hstyle 0 ltac:(lia)). vm_compute in Hstyle. discriminate.
Qed.

(** C5, as the code has it.  When the previous state names a construct
    for which the table of the language has no end pattern, no
    continuation branch is taken: with any number of calls allowed, the
    call fails exactly when the call on the same block with a normal
    previous state fails, and otherwise the spans it adds are those of
    that call (the scan phase from offset 0, no span of the construct
    for the whole block). *)
Theorem missing_end_pattern_scans_like_normal :
  forall (settings : string -> option string) (language : string)
         (previous_state : Z) (limit : nat) (text : list ascii) (b : Block),
    In previous_state construct_states ->
    fst (ml_end_of (__init__ settings language) previous_state) = None ->
    same_result
      (highlightBlock (__init__ settings language) previous_state limit text b)
      (highlightBlock (__init__ settings language) STATE_NORMAL limit text b).
Proof.
  intros settings language previous_state limit text b _ Hend.
  apply (highlightBlock_same (__init__ settings language) previous_state STATE_NORMAL
           (inactive_without_end _ previous_state Hend)
           (inactive_normal _) limit text b b eq_refl).
Qed.

Lemma missing_end_pattern_scans_like_normal_witness :
  In STATE_ML_STRING_DQ construct_states
  /\ fst (ml_end_of (__init__ defaults "c++") STATE_ML_STRING_DQ) = None
  /\ same_result
       (highlightBlock (__init__ defaults "c++") STATE_ML_STRING_DQ 7
                       (text_of "int x;") (fresh STATE_NORMAL))
       (highlightBlock (__init__ defaults "c++") STATE_NORMAL 7
                       (text_of "int x;") (fresh STATE_NORMAL)).
Proof.
  split; [right; left; reflexivity|].
  split; [vm_compute; reflexivity|].
  apply (missing_end_pattern_scans_like_normal defaults "c++" STATE_ML_STRING_DQ 7
           (text_of "int x;") (fresh STATE_NORMAL)).
  - right; left; reflexivity.
  - vm_compute; reflexivity.
Defined.

(** C6 (the code departs from it).  After the end of the construct the
    call goes on with the scan phase, but the state it has reverted to
    is a local of the call: a call on a tail reads the previous state of
    the block again and takes the continuation branch once more.  For
    c++ and the block [a */ b /* c */ d] after an open comment, the
    first comment is painted up to offset 4 and the second over
    [/* c */]; the call on the tail [ d] then finds no end of a comment,
    paints the tail as a comment, counted from the start of the tail,
    and leaves the block in the comment state, although every comment of
    the line is closed. *)
Theorem tail_after_the_end_is_continued_again :
  forall (settings : string -> option string) (old : Z),
    highlight (__init__ settings "c++") STATE_ML_COMMENT
              (text_of "a */ b /* c */ d") (fresh old)
    = Some {| formats := [(0, 4, comment_format_ settings);
                          (7, 7, comment_format_ settings);
                          (0, 2, comment_format_ settings)];
              currentBlockState := STATE_ML_COMMENT |}.
Proof. intros settings old. vm_compute. reflexivity. Qed.

(** C7 (the code departs from it).  The state of the block is written
    only in a continuation branch or when the previous state is normal.
    For c++ and a previous state that is the double-quoted string state
    neither holds, and the state the call leaves is the one the block had
    before: it is not a function of the language, the text and the
    previous state. *)
Theorem state_left_from_before_the_call :
  forall (settings : string -> option string) (old : Z),
    highlight (__init__ settings "c++") STATE_ML_STRING_DQ (text_of "x") (fresh old)
    = Some {| formats := []; currentBlockState := old |}.
Proof. intros settings old. vm_compute. reflexivity. Qed.

(** The table of c++ has the comment delimiters and no string
    delimiters. *)
Lemma cpp_delimiters (settings : string -> option string) :
  ml_comment_start (__init__ settings "c++") = Some (QRegularExpression_ "/\*")
  /\ ml_comment_end (__init__ settings "c++") = Some (QRegularExpression_ "\*/")
  /\ ml_string_dq_start (__init__ settings "c++") = None
  /\ ml_string_sq_start (__init__ settings "c++") = None
  /\ comment_format (__init__ settings "c++") = comment_format_ settings.
Proof. repeat split; vm_compute; reflexivity. Qed.

(** A line that starts with a closed comment: the comment is painted and
    the call goes on with a call on what follows it. *)
Lemma closed_comment_first (settings : string -> option string) (limit : nat)
    (rest : list ascii) (b : Block) :
  highlightBlock (__init__ settings "c++") STATE_NORMAL (S limit)
                 (text_of "/**/" ++ rest) b
  = match highlightBlock (__init__ settings "c++") STATE_NORMAL limit rest
            (setFormat 0 4 (comment_format_ settings) b) with
    | Some b' => Some (setCurrentBlockState STATE_NORMAL b')
    | None => None
    end.
Proof.
  cbn [highlightBlock].
  set (self := __init__ settings "c++").
  change (text_of "/**/" ++ rest)%list
    with ("/"%char :: "*"%char :: "*"%char :: "/"%char :: rest).
  set (text := "/"%char :: "*"%char :: "*"%char :: "/"%char :: rest).
  destruct (cpp_delimiters settings) as (Hs & He & Hdq & Hsq & Hfmt).
  fold self in Hs, He, Hdq, Hsq, Hfmt.
  assert (Hc : continuation self STATE_NORMAL text b = (0, STATE_NORMAL, b))
    by reflexivity.
  rewrite Hc.
  assert (Hstart : match_ (QRegularExpression_ "/\*") text 0 = Some (0, 2))
    by (vm_compute; reflexivity).
  assert (Hstop : match_ (QRegularExpression_ "\*/") text (0 + 2) = Some (2, 2))
    by (vm_compute; reflexivity).
  assert (Hf : find_ml_start self text 0 = (0, STATE_ML_COMMENT, 2)).
  { unfold find_ml_start, check_start, end_match. rewrite Hs, Hdq, Hsq, Hstart.
    reflexivity. }
  assert (Hg : (0 <? len text) || (len text =? 0) = true).
  { unfold text, len. cbn [length]. rewrite !Nat2Z.inj_succ.
    apply orb_true_iff. left. apply Z.ltb_lt. lia. }
  assert (Ht : slice_from text (2 + 2) = rest).
  { unfold slice_from, index, text, len. cbn [length]. rewrite !Nat2Z.inj_succ.
    change (2 + 2) with 4.
    destruct (Z.ltb_spec 4 0); [lia|].
    rewrite Z.min_l by lia. reflexivity. }
  assert (Hsub : slice text 0 0 = []) by reflexivity.
  unfold scan. rewrite Hf, Hg. cbn [Z.eqb].
  unfold ml_end_of. cbn [Z.eqb STATE_ML_COMMENT Pos.eqb]. rewrite He, Hfmt.
  unfold end_match. rewrite Hstop, Ht, Hsub.
  cbn [apply_rules]. change (2 + 2 - 0) with 4.
  destruct (highlightBlock self STATE_NORMAL limit rest
              (setFormat 0 4 (comment_format_ settings) b)); reflexivity.
Qed.

Lemma closed_comments_exhaust (settings : string -> option string) (limit : nat) :
  forall b,
    highlightBlock (__init__ settings "c++") STATE_NORMAL limit
                   (closed_comments limit) b = None.
Proof.
  induction limit as [|limit IH]; intros b; [reflexivity|].
  change (closed_comments (S limit))
    with (text_of "/**/" ++ closed_comments limit)%list.
  rewrite closed_comment_first, IH. reflexivity.
Qed.

Lemma closed_comments_painted (settings : string -> option string) (n : nat) :
  forall b,
    highlightBlock (__init__ settings "c++") STATE_NORMAL (S n)
                   (closed_comments n) b
    = Some {| formats := formats b ++ repeat (0, 4, comment_format_ settings) n;
              currentBlockState := STATE_NORMAL |}.
Proof.
  induction n as [|n IH]; intros b.
  - simpl repeat. rewrite app_nil_r. vm_compute. reflexivity.
  - change (closed_comments (S n))
      with (text_of "/**/" ++ closed_comments n)%list.
    rewrite closed_comment_first, IH.
    unfold setCurrentBlockState, setFormat. simpl formats.
    rewrite <- app_assoc. reflexivity.
Qed.

(** C8 (the code departs from it).  Each construct that is closed on
    the line costs one more call on the stack of the interpreter, which
    allows a limited number: whatever that number is, on the c++ line of
    as many closed comments the call fails, for the call on the last
    tail finds no call left.  One call more and every comment is
    painted. *)
Theorem closed_constructs_use_up_the_calls :
  forall (settings : string -> option string) (limit : nat) (old : Z),
    highlightBlock (__init__ settings "c++") STATE_NORMAL limit
                   (closed_comments limit) (fresh old) = None
    /\ highlightBlock (__init__ settings "c++") STATE_NORMAL (S limit)
                      (closed_comments limit) (fresh old)
       = Some {| formats := repeat (0, 4, comment_format_ settings) limit;
                 currentBlockState := STATE_NORMAL |}.
Proof.
  intros settings limit old. split.
  - apply closed_comments_exhaust.
  - apply (closed_comments_painted settings limit (fresh old)).
Qed.

(** The depth of the recursion follows the number of constructs closed
    on the line: three comments need four levels. *)
Lemma three_comments_need_four_levels :
  forall (settings : string -> option string) (old : Z),
    highlightBlock (__init__ settings "c++") STATE_NORMAL 3
                   (text_of "/**//**//**/") (fresh old) = None
    /\ highlightBlock (__init__ settings "c++") STATE_NORMAL 4
                      (text_of "/**//**//**/") (fresh old)
       = Some {| formats := [(0, 4, comment_format_ settings);
                             (0, 4, comment_format_ settings);
                             (0, 4, comment_format_ settings)];
                 currentBlockState := STATE_NORMAL |}.
Proof. intros settings old. split; vm_compute; reflexivity. Qed.




End Specification.

(** ** More on the highlighter *)

Module DocumentFacts.

Import Chars Regex RegexFacts Highlighter HighlighterFacts Document.

Close Scope string_scope.
Open Scope Z_scope.

(** *** The start that [find_ml_start] reports *)

Lemma check_start_cases (ml_start : option QRegularExpression) (state : Z)
    (text : list ascii) (start_index : Z) (found : Z * Z * Z) :
  (end_match ml_start text start_index = None
   /\ check_start ml_start state text start_index found = found)
  \/ exists idx l,
       end_match ml_start text start_index = Some (idx, l) /\ 0 <= idx
       /\ ((fst (fst found) = -1 \/ idx < fst (fst found))
           /\ check_start ml_start state text start_index found = (idx, state, l)
           \/ (fst (fst found) <> -1 /\ fst (fst found) <= idx)
              /\ check_start ml_start state text start_index found = found).
Proof.
  unfold check_start, end_match. destruct ml_start as [re|]; [|left; auto].
  destruct (match_ re text start_index) as [[idx l]|] eqn:E; [|left; auto].
  right. exists idx, l. apply match_bounds in E.
  split; [reflexivity|]. split; [lia|].
  destruct (Z.eqb_spec (fst (fst found)) (-1)) as [Heq|Hne]; simpl.
  - left. auto.
  - destruct (Z.ltb_spec idx (fst (fst found))).
    + left. auto.
    + right. auto.
Qed.

Lemma for_construct_states (P : Z -> Prop) :
  P STATE_ML_COMMENT -> P STATE_ML_STRING_DQ -> P STATE_ML_STRING_SQ ->
  forall state, In state construct_states -> P state.
Proof. intros H1 H2 H3 state [<-|[<-|[<-|[]]]]; assumption. Qed.

Lemma ml_start_of_comment (self : SyntaxHighlighter) :
  ml_start_of self STATE_ML_COMMENT = ml_comment_start self.
Proof. reflexivity. Qed.

Lemma ml_start_of_string_dq (self : SyntaxHighlighter) :
  ml_start_of self STATE_ML_STRING_DQ = ml_string_dq_start self.
Proof. reflexivity. Qed.

Lemma ml_start_of_string_sq (self : SyntaxHighlighter) :
  ml_start_of self STATE_ML_STRING_SQ = ml_string_sq_start self.
Proof. reflexivity. Qed.

Lemma find_ml_start_cases (self : SyntaxHighlighter) (text : list ascii)
    (start_index next_ml_start matched_state match_len : Z) :
  find_ml_start self text start_index = (next_ml_start, matched_state, match_len) ->
  (next_ml_start = -1 /\ matched_state = STATE_NORMAL /\ match_len = 0
   /\ forall state, In state construct_states ->
        end_match (ml_start_of self state) text start_index = None)
  \/ (In matched_state construct_states
      /\ end_match (ml_start_of self matched_state) text start_index
         = Some (next_ml_start, match_len)
      /\ forall state idx l,
           In state construct_states ->
           end_match (ml_start_of self state) text start_index = Some (idx, l) ->
           next_ml_start <= idx /\ (state < matched_state -> next_ml_start < idx)).
Proof.
  unfold find_ml_start.
  pose proof (check_start_cases (ml_comment_start self) STATE_ML_COMMENT text
                start_index (-1, STATE_NORMAL, 0)) as Hc.
  set (f1 := check_start (ml_comment_start self) STATE_ML_COMMENT text
               start_index (-1, STATE_NORMAL, 0)) in *.
  pose proof (check_start_cases (ml_string_dq_start self) STATE_ML_STRING_DQ text
                start_index f1) as Hd.
  set (f2 := check_start (ml_string_dq_start self) STATE_ML_STRING_DQ text
               start_index f1) in *.
  pose proof (check_start_cases (ml_string_sq_start self) STATE_ML_STRING_SQ text
                start_index f2) as Hs.
  set (f3 := check_start (ml_string_sq_start self) STATE_ML_STRING_SQ text
               start_index f2) in *.
  clearbody f1 f2 f3. intros Hf.
  destruct Hc as [[Hc E1]|(ic & lc & Hc & Hic & [[Hc1 E1]|[Hc1 E1]])];
    rewrite E1 in *; clear E1; try (simpl in Hc1); try (exfalso; lia);
    destruct Hd as [[Hd E2]|(id & ld & Hd & Hid & [[Hd1 E2]|[Hd1 E2]])];
    rewrite E2 in *; clear E2; try (simpl in Hd1); try (exfalso; lia);
    destruct Hs as [[Hs E3]|(is_ & ls & Hs & His & [[Hs1 E3]|[Hs1 E3]])];
    rewrite E3 in *; clear E3; try (simpl in Hs1); try (exfalso; lia);
    injection Hf as <- <- <-;
    first
      [ left; repeat split; apply for_construct_states;
        rewrite ?ml_start_of_comment, ?ml_start_of_string_dq,
          ?ml_start_of_string_sq; assumption
      | right; split; [unfold construct_states; simpl; auto 6|];
        split;
        [ rewrite ?ml_start_of_comment, ?ml_start_of_string_dq,
            ?ml_start_of_string_sq; assumption
        | intros state idx l Hin Hm; unfold construct_states in Hin;
          destruct Hin as [<-|[<-|[<-|[]]]];
          rewrite ?ml_start_of_comment, ?ml_start_of_string_dq,
            ?ml_start_of_string_sq in Hm;
          rewrite ?Hc, ?Hd, ?Hs in Hm; try discriminate;
          injection Hm as <- <-;
          unfold STATE_ML_COMMENT, STATE_ML_STRING_DQ, STATE_ML_STRING_SQ;
          lia ] ].
Qed.

(** X1.  The start reported is the earliest start of a construct at or
    after the cursor; of two constructs that start at the same offset
    the one checked first wins: the comment, then the double-quoted
    string, then the single-quoted string.  Without any start the
    result is [(-1, STATE_NORMAL, 0)]. *)
Theorem find_ml_start_earliest (self : SyntaxHighlighter) (text : list ascii)
    (start_index next_ml_start matched_state match_len : Z) :
  find_ml_start self text start_index = (next_ml_start, matched_state, match_len) ->
  (next_ml_start = -1 /\ matched_state = STATE_NORMAL /\ match_len = 0
   /\ forall state, In state construct_states ->
        end_match (ml_start_of self state) text start_index = None)
  \/ (In matched_state construct_states
      /\ end_match (ml_start_of self matched_state) text start_index
         = Some (next_ml_start, match_len)
      /\ forall state idx l,
           In state construct_states ->
           end_match (ml_start_of self state) text start_index = Some (idx, l) ->
           next_ml_start <= idx /\ (state < matched_state -> next_ml_start < idx)).
Proof. apply find_ml_start_cases. Qed.

Lemma find_ml_start_earliest_witness :
  find_ml_start (__init__ defaults "python") (text_of "a '''b''' c") 0
  = (2, STATE_ML_STRING_SQ, 3)
  /\ ((2 = -1 /\ STATE_ML_STRING_SQ = STATE_NORMAL /\ 3 = 0
       /\ forall state, In state construct_states ->
            end_match (ml_start_of (__init__ defaults "python") state)
                      (text_of "a '''b''' c") 0 = None)
      \/ (In STATE_ML_STRING_SQ construct_states
          /\ end_match (ml_start_of (__init__ defaults "python") STATE_ML_STRING_SQ)
                       (text_of "a '''b''' c") 0 = Some (2, 3)
          /\ forall state idx l,
               In state construct_states ->
               end_match (ml_start_of (__init__ defaults "python") state)
                         (text_of "a '''b''' c") 0 = Some (idx, l) ->
               2 <= idx /\ (state < STATE_ML_STRING_SQ -> 2 < idx))).
Proof.
  split; [vm_compute; reflexivity|].
  apply (find_ml_start_earliest (__init__ defaults "python")
           (text_of "a '''b''' c") 0 2 STATE_ML_STRING_SQ 3).
  vm_compute; reflexivity.
Defined.

(** *** The state a call leaves *)

Section NextState.

Variable self : SyntaxHighlighter.

Lemma slice_all (text : list ascii) : slice text 0 (len text) = text.
Proof.
  pose proof (len_nonneg text) as Hn. unfold slice.
  assert (H0 : index (len text) 0 = 0).
  { unfold index. simpl. lia. }
  assert (H1 : index (len text) (len text) = len text).
  { unfold index. destruct (Z.ltb_spec (len text) 0); lia. }
  rewrite H0, H1. simpl. rewrite Z.sub_0_r. unfold len.
  rewrite Nat2Z.id. apply firstn_all.
Qed.

Lemma scan_guard_at_0 (text : list ascii) :
  (0 <? len text) || (len text =? 0) = true.
Proof.
  pose proof (len_nonneg text).
  destruct (Z.ltb_spec 0 (len text)); [reflexivity|].
  destruct (Z.eqb_spec (len text) 0); [reflexivity|lia].
Qed.

(** The state of the block after the scan phase is the one before it or
    the one the call on the tail left. *)
Lemma scan_block_state (P : Z -> Prop)
    (recurse : list ascii -> Block -> option Block)
    (text : list ascii) (start_index current_state : Z) (b : Block)
    (result : Z * Block) :
  (forall tail c c', recurse tail c = Some c' -> P (currentBlockState c')) ->
  P (currentBlockState b) ->
  scan self recurse text start_index current_state b = Some result ->
  P (currentBlockState (snd result)).
Proof.
  intros Hrec Hb. unfold scan.
  destruct ((start_index <? len text) || (len text =? 0));
    [|intros H; injection H as <-; exact Hb].
  destruct (find_ml_start self text start_index) as [[next_ml_start matched_state] match_len].
  destruct (next_ml_start =? -1);
    [intros H; injection H as <-; simpl; rewrite apply_rules_state; exact Hb|].
  destruct (ml_end_of self matched_state) as [ml_end_regex ml_format].
  destruct (end_match ml_end_regex text (next_ml_start + match_len))
    as [[end_index end_len]|].
  - match goal with
    | |- match recurse ?t ?c with _ => _ end = _ -> _ =>
        destruct (recurse t c) as [c'|] eqn:R; [|discriminate];
        intros H; injection H as <-; simpl; apply (Hrec t c c' R)
    end.
  - intros H. injection H as <-. simpl. rewrite apply_rules_state. exact Hb.
Qed.

(** The current state after the scan phase is the one before it, the
    normal state, or the state of a construct that the object has a
    start pattern for. *)
Lemma scan_current_state_cases
    (recurse : list ascii -> Block -> option Block)
    (text : list ascii) (start_index current_state : Z) (b : Block)
    (result : Z * Block) :
  scan self recurse text start_index current_state b = Some result ->
  fst result = current_state \/ fst result = STATE_NORMAL
  \/ (In (fst result) construct_states /\ ml_start_of self (fst result) <> None).
Proof.
  unfold scan.
  destruct ((start_index <? len text) || (len text =? 0));
    [|intros H; injection H as <-; auto].
  pose proof (find_ml_start_cases self text start_index) as Hf.
  destruct (find_ml_start self text start_index) as [[next_ml_start matched_state] match_len].
  specialize (Hf _ _ _ eq_refl).
  destruct (Z.eqb_spec next_ml_start (-1)); [intros H; injection H as <-; auto|].
  destruct Hf as [[? _]|(Hin & Hm & _)]; [contradiction|].
  destruct (ml_end_of self matched_state) as [ml_end_regex ml_format].
  destruct (end_match ml_end_regex text (next_ml_start + match_len))
    as [[end_index end_len]|].
  - match goal with
    | |- match recurse ?t ?c with _ => _ end = _ -> _ =>
        destruct (recurse t c) as [c'|]; [|discriminate];
        intros H; injection H as <-; auto
    end.
  - intros H. injection H as <-. right. right. simpl. split; [exact Hin|].
    intros Hnone. rewrite Hnone in Hm. discriminate.
Qed.

(** From the normal state a block goes to the normal state or to the
    state of a construct whose start pattern the object has. *)
Lemma normal_next_state (fuel : nat) (text : list ascii) (b b' : Block) :
  highlightBlock self STATE_NORMAL fuel text b = Some b' ->
  currentBlockState b' = STATE_NORMAL
  \/ (In (currentBlockState b') construct_states
      /\ ml_start_of self (currentBlockState b') <> None).
Proof.
  destruct fuel as [|fuel]; [discriminate|]. cbn [highlightBlock].
  rewrite inactive_continuation by apply inactive_normal.
  unfold finish.
  destruct (scan self (highlightBlock self STATE_NORMAL fuel) text 0
              STATE_NORMAL b) as [[cs b1]|] eqn:E; [|discriminate].
  intros H. injection H as <-. simpl.
  apply scan_current_state_cases in E. simpl in E.
  destruct E as [->|[->|E]]; auto.
Qed.

(** From the state of a construct that has an end pattern a block stays
    in that state or goes to the normal state. *)
Lemma active_next_state (previous_state : Z) (ml_end : QRegularExpression)
    (format : QTextCharFormat) :
  In previous_state construct_states ->
  ml_end_of self previous_state = (Some ml_end, format) ->
  forall fuel text b b',
    highlightBlock self previous_state fuel text b = Some b' ->
    currentBlockState b' = previous_state \/ currentBlockState b' = STATE_NORMAL.
Proof.
  intros Hin Hend. induction fuel as [|fuel IH]; intros text b b' H; [discriminate|].
  rewrite (continuation_then_scan self previous_state ml_end format fuel text b
             Hin Hend) in H.
  destruct (match_ ml_end text 0) as [[i L]|];
    match type of H with
    | option_map snd ?s = _ =>
        destruct s as [[cs b1]|] eqn:E; [|discriminate];
        injection H as <-;
        apply (scan_block_state
                 (fun st => st = previous_state \/ st = STATE_NORMAL)
                 _ _ _ _ _ (cs, b1)) in E; auto
    end.
Qed.

Lemma closable_cases (state : Z) :
  closable self state ->
  state = STATE_NORMAL
  \/ (In state construct_states
      /\ exists ml_end, ml_end_of self state = (Some ml_end, snd (ml_end_of self state))).
Proof.
  intros [->|Hend]; [left; reflexivity|]. right. revert Hend.
  unfold ml_end_of, construct_states, STATE_ML_COMMENT, STATE_ML_STRING_DQ,
    STATE_ML_STRING_SQ.
  destruct (Z.eqb_spec state 1) as [E|_]; [subst state|].
  { simpl. destruct (ml_comment_end self) as [e|]; [eauto 6|contradiction]. }
  destruct (Z.eqb_spec state 2) as [E|_]; [subst state|].
  { simpl. destruct (ml_string_dq_end self) as [e|]; [eauto 6|contradiction]. }
  destruct (Z.eqb_spec state 3) as [E|_]; [subst state|].
  { simpl. destruct (ml_string_sq_end self) as [e|]; [eauto 6|contradiction]. }
  simpl. contradiction.
Qed.

Lemma paired_start_closable (state : Z) :
  paired self = true -> In state construct_states ->
  ml_start_of self state <> None -> closable self state.
Proof.
  unfold paired. rewrite forallb_forall. intros Hp Hin Hs.
  specialize (Hp state Hin). right.
  destruct (ml_start_of self state); [|contradiction].
  destruct (fst (ml_end_of self state)); [discriminate|discriminate].
Qed.

(** With paired constructs, a block highlighted after a closable state is
    left in a closable state. *)
Lemma closable_next_state (previous_state : Z) (fuel : nat)
    (text : list ascii) (b b' : Block) :
  paired self = true -> closable self previous_state ->
  highlightBlock self previous_state fuel text b = Some b' ->
  closable self (currentBlockState b').
Proof.
  intros Hp Hc H. apply closable_cases in Hc.
  destruct Hc as [->|(Hin & ml_end & Hend)].
  - apply normal_next_state in H. destruct H as [->|[Hin Hs]].
    + left. reflexivity.
    + apply paired_start_closable; assumption.
  - destruct (active_next_state previous_state ml_end _ Hin Hend fuel text b b' H)
      as [->| ->].
    + right. rewrite Hend. discriminate.
    + left. reflexivity.
Qed.

(** After a closable state the result does not depend on the state the
    block carried before the call. *)
Lemma closable_same (previous_state : Z) (fuel : nat)
    (text : list ascii) (b1 b2 : Block) :
  closable self previous_state -> same b1 b2 ->
  highlightBlock self previous_state fuel text b1
  = highlightBlock self previous_state fuel text b2.
Proof.
  intros Hc Hb. apply closable_cases in Hc.
  destruct Hc as [->|(Hin & ml_end & Hend)].
  - apply highlightBlock_normal_same. exact Hb.
  - apply (highlightBlock_active_same self previous_state ml_end
             (snd (ml_end_of self previous_state))); [|exact Hb].
    intros b. apply construct_continuation; assumption.
Qed.

End NextState.

(** *** Tables without constructs *)

Lemma no_constructs_fields (self : SyntaxHighlighter) :
  no_constructs self = true ->
  ml_comment_start self = None /\ ml_comment_end self = None
  /\ ml_string_dq_start self = None /\ ml_string_dq_end self = None
  /\ ml_string_sq_start self = None /\ ml_string_sq_end self = None.
Proof.
  unfold no_constructs, construct_states. cbn [forallb].
  rewrite ml_start_of_comment, ml_start_of_string_dq, ml_start_of_string_sq.
  unfold ml_end_of. simpl.
  destruct (ml_comment_start self), (ml_comment_end self),
    (ml_string_dq_start self), (ml_string_dq_end self),
    (ml_string_sq_start self), (ml_string_sq_end self);
    simpl; intros H; try discriminate; auto 7.
Qed.

(** Without constructs a call paints the block with the single-line rules
    over the whole text, and writes the normal state when the previous
    state is normal. *)
Lemma no_constructs_highlightBlock (self : SyntaxHighlighter)
    (previous_state : Z) (fuel : nat) (text : list ascii) (b : Block) :
  no_constructs self = true ->
  highlightBlock self previous_state (S fuel) text b
  = Some (if previous_state =? STATE_NORMAL
          then setCurrentBlockState STATE_NORMAL (apply_rules self 0 text b)
          else apply_rules self 0 text b).
Proof.
  intros Hno. apply no_constructs_fields in Hno.
  destruct Hno as (Hcs & Hce & Hds & Hde & Hss & Hse).
  cbn [highlightBlock].
  assert (Hc : continuation self previous_state text b = (0, STATE_NORMAL, b)).
  { unfold continuation, active. rewrite Hce, Hde, Hse.
    destruct (previous_state =? STATE_ML_COMMENT),
      (previous_state =? STATE_ML_STRING_DQ),
      (previous_state =? STATE_ML_STRING_SQ); reflexivity. }
  rewrite Hc. unfold scan. rewrite scan_guard_at_0.
  unfold find_ml_start, check_start. rewrite Hcs, Hds, Hss. simpl.
  rewrite slice_all. reflexivity.
Qed.

(** *** The tables of the languages, again *)

Ltac language_cases settings l :=
  unfold __init__;
  destruct (in_dec string_dec l languages) as [Hin|Hnot];
  [ unfold languages in Hin; simpl in Hin
  | rewrite (setup_unknown settings l Hnot) ].

Lemma init_paired (settings : string -> option string) (language : string) :
  paired (__init__ settings language) = true.
Proof.
  unfold __init__.
  destruct (setup_cases settings (lower language)) as (k & Hk & ->).
  simpl in Hk.
  repeat (destruct Hk as [<-|Hk]; [vm_compute; reflexivity|]).
  contradiction.
Qed.

Lemma init_no_constructs (settings : string -> option string) (language : string) :
  ~ In (lower language) construct_languages ->
  no_constructs (__init__ settings language) = true.
Proof.
  intros Hnc. unfold __init__. remember (lower language) as l eqn:El. clear El.
  language_cases settings l.
  - repeat (destruct Hin as [<-|Hin];
            [first [ vm_compute; reflexivity
                   | exfalso; apply Hnc; unfold construct_languages; simpl; auto 10 ]|]).
    contradiction.
  - vm_compute. reflexivity.
Qed.

Open Scope string_scope.

(** X2.  A language name that, in lower case, is none of the recognised
    ones gets the ten generic rules (strings, numbers, operators and braces,
    strings again) and no multi-line construct. *)
Theorem unknown_language_table (settings : string -> option string)
    (language : string) :
  ~ In (lower language) languages ->
  highlighting_rules (__init__ settings language)
  = [(QRegularExpression_ (dq ++ ".*?(?<!\\)" ++ dq), string_format_ settings);
     (QRegularExpression_ "'.*?(?<!\\)'", string_format_ settings);
     (QRegularExpression_ "\b[0-9]+\.?[0-9]*([eE][-+]?[0-9]+)?\b", number_format settings);
     (QRegularExpression_ "\b0[xX][0-9a-fA-F]+\b", number_format settings);
     (QRegularExpression_ "\b0[bB][01]+\b", number_format settings);
     (QRegularExpression_ "\b0[oO]?[0-7]+\b", number_format settings);
     (QRegularExpression_ "[=\+\-\*\/%<>&\|\^~!:\.\?,\.;]", operator_format settings);
     (QRegularExpression_ "[\(\)\{\}\[\]]", brace_format settings);
     (QRegularExpression_ (dq ++ ".*?(?<!\\)" ++ dq), string_format_ settings);
     (QRegularExpression_ "'.*?(?<!\\)'", string_format_ settings)]
  /\ no_constructs (__init__ settings language) = true.
Proof.
  intros Hnot. unfold __init__. rewrite (setup_unknown settings _ Hnot).
  split; vm_compute; reflexivity.
Qed.

Lemma unknown_language_table_witness :
  ~ In (lower "Cobol") languages
  /\ length (highlighting_rules (__init__ defaults "Cobol")) = 10%nat
  /\ no_constructs (__init__ defaults "Cobol") = true.
Proof.
  assert (H : ~ In (lower "Cobol") languages).
  { vm_compute. intros H.
    repeat (destruct H as [H|H]; [discriminate H|]). exact H. }
  split; [exact H|].
  destruct (unknown_language_table defaults "Cobol" H) as [Hr Hn].
  split; [rewrite Hr; reflexivity|exact Hn].
Defined.

Close Scope string_scope.

(** X3.  For a language without multi-line construct (sql, markdown, text and
    every name that is not recognised) a call adds the spans of the
    single-line rules over the whole text and nothing else; it writes the
    normal state when the previous state is normal and no state
    otherwise. *)
Theorem language_without_constructs (settings : string -> option string)
    (language : string) (previous_state : Z) (text : list ascii) (b : Block) :
  ~ In (lower language) construct_languages ->
  exists b',
    highlight (__init__ settings language) previous_state text b = Some b'
    /\ formats b' = (formats b ++ rule_spans (__init__ settings language) 0 text)%list
    /\ currentBlockState b'
       = (if previous_state =? STATE_NORMAL then STATE_NORMAL
          else currentBlockState b).
Proof.
  intros Hnc. unfold highlight.
  rewrite (no_constructs_highlightBlock _ previous_state (length text) text b
             (init_no_constructs settings language Hnc)).
  eexists. split; [reflexivity|].
  destruct (previous_state =? STATE_NORMAL); simpl;
    rewrite apply_rules_formats, ?apply_rules_state; auto.
Qed.

Lemma language_without_constructs_witness :
  ~ In (lower "SQL") construct_languages
  /\ exists b',
       highlight (__init__ defaults "SQL") STATE_ML_COMMENT
                 (text_of "select 1 /* x") (fresh 7) = Some b'
       /\ formats b'
          = (formats (fresh 7)
             ++ rule_spans (__init__ defaults "SQL") 0 (text_of "select 1 /* x"))%list
       /\ currentBlockState b'
          = (if STATE_ML_COMMENT =? STATE_NORMAL then STATE_NORMAL
             else currentBlockState (fresh 7)).
Proof.
  assert (H : ~ In (lower "SQL") construct_languages).
  { vm_compute. intros H.
    repeat (destruct H as [H|H]; [discriminate H|]). exact H. }
  split; [exact H|].
  apply (language_without_constructs defaults "SQL" STATE_ML_COMMENT
           (text_of "select 1 /* x") (fresh 7) H).
Defined.

(** *** The empty block *)

Lemma no_match_in_empty_text (re : option QRegularExpression) (offset : Z) :
  advances_opt re = true -> end_match re [] offset = None.
Proof.
  intros Hadv. destruct (end_match re [] offset) as [[s l]|] eqn:E; [|reflexivity].
  apply end_match_bounds in E. destruct E as (E1 & E2 & E3 & E4).
  specialize (E4 Hadv). unfold len in E3. simpl in E3. lia.
Qed.

Lemma scan_empty_text (self : SyntaxHighlighter)
    (recurse : list ascii -> Block -> option Block) (current_state : Z) (b : Block) :
  delimiters_advance self = true ->
  scan self recurse [] 0 current_state b = Some (current_state, b).
Proof.
  intros Hadv. unfold delimiters_advance in Hadv.
  repeat (apply andb_prop in Hadv; destruct Hadv as [Hadv ?]).
  unfold scan. simpl.
  assert (Hfind : find_ml_start self [] 0 = (-1, STATE_NORMAL, 0)).
  { unfold find_ml_start.
    assert (Hcheck : forall re state found,
               advances_opt re = true -> check_start re state [] 0 found = found).
    { intros re state found Hre. unfold check_start.
      pose proof (no_match_in_empty_text re 0 Hre) as Hm. unfold end_match in Hm.
      destruct re as [r|]; [rewrite Hm|]; reflexivity. }
    rewrite !Hcheck by assumption. reflexivity. }
  rewrite Hfind. reflexivity.
Qed.

(** X4.  An empty block of a language: after the normal state nothing is
    painted and the state is normal; inside a construct that has an end
    pattern the block gets the span [(0, 0)] of the construct and stays
    in its state, so the construct goes on after a blank line. *)
Theorem empty_block (settings : string -> option string) (language : string)
    (previous_state : Z) (b : Block) :
  highlight (__init__ settings language) previous_state [] b
  = Some (match ml_end_of (__init__ settings language) previous_state with
          | (Some _, format) =>
              setCurrentBlockState previous_state (setFormat 0 0 format b)
          | (None, _) =>
              if previous_state =? STATE_NORMAL
              then setCurrentBlockState STATE_NORMAL b
              else b
          end).
Proof.
  pose proof (init_delimiters_advance settings language) as Hadv.
  set (self := __init__ settings language) in *.
  unfold highlight. simpl length.
  destruct (ml_end_of self previous_state) as [[ml_end|] format] eqn:Hend.
  - assert (Hc : closable self previous_state).
    { right. rewrite Hend. discriminate. }
    apply closable_cases in Hc. destruct Hc as [->|[Hin _]].
    { unfold ml_end_of in Hend. simpl in Hend. discriminate. }
    rewrite (continuation_then_scan self previous_state ml_end format 0 [] b
               Hin Hend).
    assert (Hm : match_ ml_end [] 0 = None).
    { apply (no_match_in_empty_text (Some ml_end) 0).
      pose proof (ml_end_of_advances self previous_state Hadv) as H.
      rewrite Hend in H. exact H. }
    rewrite Hm, scan_empty_text by exact Hadv. reflexivity.
  - cbn [highlightBlock].
    rewrite inactive_continuation
      by (apply inactive_without_end; rewrite Hend; reflexivity).
    rewrite scan_empty_text by exact Hadv. reflexivity.
Qed.

(** *** A whole document *)

Section Rehighlight.

Variable self : SyntaxHighlighter.
Hypothesis Hpaired : paired self = true.
Hypothesis Hadvance : delimiters_advance self = true.

Lemma rehighlight_from_closable (document : list (list ascii * Z)) :
  forall previous_state,
    closable self previous_state ->
    exists blocks,
      rehighlight_from self previous_state document = Some blocks
      /\ length blocks = length document
      /\ Forall (fun b => closable self (currentBlockState b)) blocks.
Proof.
  induction document as [|[text state] rest IH]; intros previous_state Hc.
  - exists []. simpl. auto.
  - simpl.
    destruct (highlightBlock_total self previous_state Hadvance
                (S (length text)) text (fresh state)) as [b Hb];
      [unfold len; lia|].
    unfold highlight. rewrite Hb.
    pose proof (closable_next_state self previous_state _ _ _ _ Hpaired Hc Hb) as Hc'.
    destruct (IH _ Hc') as (blocks & -> & Hlen & Hall).
    exists (b :: blocks). simpl. auto.
Qed.

Lemma rehighlight_from_same (doc1 doc2 : list (list ascii * Z)) :
  map fst doc1 = map fst doc2 ->
  forall previous_state,
    closable self previous_state ->
    rehighlight_from self previous_state doc1
    = rehighlight_from self previous_state doc2.
Proof.
  revert doc2. induction doc1 as [|[text s1] rest1 IH];
    intros [|[text' s2] rest2] Hmap previous_state Hc;
    try discriminate; [reflexivity|].
  simpl in Hmap. injection Hmap as <- Hrest. simpl. unfold highlight.
  rewrite (closable_same self previous_state (S (length text)) text
             (fresh s1) (fresh s2) Hc eq_refl).
  destruct (highlightBlock self previous_state (S (length text)) text (fresh s2))
    as [b|] eqn:Hb; [|reflexivity].
  pose proof (closable_next_state self previous_state _ _ _ _ Hpaired Hc Hb) as Hc'.
  rewrite (IH rest2 Hrest _ Hc'). reflexivity.
Qed.

End Rehighlight.

(** X5.  When the highlighter of a language is put on a document and the
    document is highlighted from its first block, every block of what
    that returns is left in the normal state or in the state of a
    construct that the table can close: no block is ever highlighted
    after a state without an end pattern. *)
Theorem rehighlight_states (settings : string -> option string)
    (language : string) (document : list (list ascii * Z)) (blocks : list Block) :
  _update_highlighter settings language document = Some blocks ->
  length blocks = length document
  /\ Forall (fun b => closable (__init__ settings language) (currentBlockState b))
            blocks.
Proof.
  unfold _update_highlighter, rehighlight. intros H.
  destruct (rehighlight_from_closable (__init__ settings language)
              (init_paired settings language)
              (init_delimiters_advance settings language)
              document (-1) (or_introl eq_refl))
    as (blocks' & H' & Hlen & Hall).
  rewrite H' in H. injection H as <-. auto.
Qed.

Lemma rehighlight_states_witness :
  exists blocks,
    _update_highlighter defaults "c++"
      [(text_of "int x; /* a", 3); (text_of "b */ y", 0)] = Some blocks
    /\ length blocks = 2%nat
    /\ Forall (fun b => closable (__init__ defaults "c++") (currentBlockState b))
              blocks.
Proof.
  eexists. split; [vm_compute; reflexivity|].
  apply (rehighlight_states defaults "c++"
           [(text_of "int x; /* a", 3); (text_of "b */ y", 0)]).
  vm_compute. reflexivity.
Defined.

(** X6.  The result of highlighting a document from its first block depends on
    the texts of the blocks only, not on the states the blocks carried
    before. *)
Theorem rehighlight_ignores_old_states (settings : string -> option string)
    (language : string) (doc1 doc2 : list (list ascii * Z)) :
  map fst doc1 = map fst doc2 ->
  _update_highlighter settings language doc1
  = _update_highlighter settings language doc2.
Proof.
  intros Hmap. unfold _update_highlighter, rehighlight.
  apply rehighlight_from_same.
  - apply init_paired.
  - exact Hmap.
  - left. reflexivity.
Qed.

Lemma rehighlight_ignores_old_states_witness :
  map fst [(text_of "/* a", 3); (text_of "b */ int x;", 2)]
  = map fst [(text_of "/* a", -1); (text_of "b */ int x;", 1)]
  /\ _update_highlighter defaults "c++"%string
       [(text_of "/* a", 3); (text_of "b */ int x;", 2)]
     = _update_highlighter defaults "c++"%string
         [(text_of "/* a", -1); (text_of "b */ int x;", 1)].
Proof.
  split; [reflexivity|].
  apply (rehighlight_ignores_old_states defaults "c++"%string
           [(text_of "/* a", 3); (text_of "b */ int x;", 2)]
           [(text_of "/* a", -1); (text_of "b */ int x;", 1)]).
  reflexivity.
Defined.

(** *** Formats and places *)

Section Alike.

Variables self1 self2 : SyntaxHighlighter.
Hypothesis Hsame : same_patterns self1 self2.

Lemma alike_setFormat (start count : Z) (f1 f2 : QTextCharFormat) (b1 b2 : Block) :
  alike b1 b2 -> alike (setFormat start count f1 b1) (setFormat start count f2 b2).
Proof.
  intros [Hp Hs]. unfold alike, setFormat, places in *. simpl.
  rewrite !map_app, Hp. auto.
Qed.

Lemma alike_setCurrentBlockState (state : Z) (b1 b2 : Block) :
  alike b1 b2 -> alike (setCurrentBlockState state b1) (setCurrentBlockState state b2).
Proof. intros [Hp Hs]. split; [exact Hp|reflexivity]. Qed.

Lemma rule_places (self : SyntaxHighlighter) (start_index : Z) (sub_text : list ascii) :
  places (rule_spans self start_index sub_text)
  = match sub_text with
    | [] => []
    | _ => flat_map (fun re => map (fun m => (start_index + fst m, snd m))
                                   (globalMatch re sub_text))
                    (map fst (highlighting_rules self))
    end.
Proof.
  unfold rule_spans, places. destruct sub_text as [|c sub]; [reflexivity|].
  induction (highlighting_rules self) as [|rule rules IH]; [reflexivity|].
  simpl. rewrite map_app, IH, map_map. reflexivity.
Qed.

Lemma alike_apply_rules (start_index : Z) (sub_text : list ascii) (b1 b2 : Block) :
  alike b1 b2 ->
  alike (apply_rules self1 start_index sub_text b1)
        (apply_rules self2 start_index sub_text b2).
Proof.
  intros [Hp Hs]. destruct Hsame as (Hr & _). split.
  - rewrite !apply_rules_formats. unfold places in *.
    rewrite !map_app, Hp. f_equal.
    apply (eq_trans (rule_places self1 start_index sub_text)).
    rewrite Hr. symmetry. apply rule_places.
  - rewrite !apply_rules_state. exact Hs.
Qed.

Lemma alike_continuation (previous_state : Z) (text : list ascii) (b1 b2 : Block) :
  alike b1 b2 ->
  fst (continuation self1 previous_state text b1)
  = fst (continuation self2 previous_state text b2)
  /\ alike (snd (continuation self1 previous_state text b1))
           (snd (continuation self2 previous_state text b2)).
Proof.
  intros Hb. destruct Hsame as (_ & _ & Hce & _ & Hde & _ & Hse).
  assert (Hone : forall ml_end state f1 f2,
             fst (continue_construct ml_end state f1 text b1)
             = fst (continue_construct ml_end state f2 text b2)
             /\ alike (snd (continue_construct ml_end state f1 text b1))
                      (snd (continue_construct ml_end state f2 text b2))).
  { intros ml_end state f1 f2. unfold continue_construct.
    destruct (match_ ml_end text 0) as [[i l]|]; simpl;
      (split; [reflexivity|]);
      apply alike_setCurrentBlockState, alike_setFormat, Hb. }
  unfold continuation. rewrite Hce, Hde, Hse.
  destruct (active previous_state STATE_ML_COMMENT (ml_comment_end self2)); [apply Hone|].
  destruct (active previous_state STATE_ML_STRING_DQ (ml_string_dq_end self2)); [apply Hone|].
  destruct (active previous_state STATE_ML_STRING_SQ (ml_string_sq_end self2)); [apply Hone|].
  simpl. auto.
Qed.

Lemma same_find_ml_start (text : list ascii) (start_index : Z) :
  find_ml_start self1 text start_index = find_ml_start self2 text start_index.
Proof.
  destruct Hsame as (_ & Hcs & _ & Hds & _ & Hss & _).
  unfold find_ml_start. rewrite Hcs, Hds, Hss. reflexivity.
Qed.

Lemma same_ml_end (state : Z) :
  fst (ml_end_of self1 state) = fst (ml_end_of self2 state).
Proof.
  destruct Hsame as (_ & _ & Hce & _ & Hde & _ & Hse).
  unfold ml_end_of.
  destruct (state =? STATE_ML_COMMENT); [exact Hce|].
  destruct (state =? STATE_ML_STRING_DQ); [exact Hde|].
  destruct (state =? STATE_ML_STRING_SQ); [exact Hse|reflexivity].
Qed.

Lemma alike_scan (rec1 rec2 : list ascii -> Block -> option Block)
    (text : list ascii) (start_index current_state : Z) (b1 b2 : Block) :
  (forall tail c1 c2, alike c1 c2 -> alike_result (rec1 tail c1) (rec2 tail c2)) ->
  alike b1 b2 ->
  alike_scanned (scan self1 rec1 text start_index current_state b1)
                (scan self2 rec2 text start_index current_state b2).
Proof.
  intros Hrec Hb. unfold scan. rewrite same_find_ml_start.
  destruct ((start_index <? len text) || (len text =? 0)); [|simpl; auto].
  destruct (find_ml_start self2 text start_index) as [[next_ml_start matched_state] match_len].
  pose proof (alike_apply_rules start_index
                (slice text start_index
                   (if next_ml_start =? -1 then len text else next_ml_start))
                b1 b2 Hb) as Hrules.
  destruct (next_ml_start =? -1); [simpl; auto|].
  pose proof (same_ml_end matched_state) as Hend.
  destruct (ml_end_of self1 matched_state) as [e1 f1].
  destruct (ml_end_of self2 matched_state) as [e2 f2].
  simpl in Hend. subst e2.
  destruct (end_match e1 text (next_ml_start + match_len)) as [[end_index end_len]|].
  - match goal with
    | |- alike_scanned (match rec1 ?t ?c1 with _ => _ end)
                       (match rec2 ?t ?c2 with _ => _ end) =>
        assert (Hc : alike c1 c2) by (apply alike_setFormat; exact Hrules);
        specialize (Hrec t c1 c2 Hc);
        destruct (rec1 t c1), (rec2 t c2); simpl in *; auto
    end.
  - simpl. split; [reflexivity|]. apply alike_setFormat. exact Hrules.
Qed.

Lemma alike_finish (previous_state : Z) (r1 r2 : option (Z * Block)) :
  alike_scanned r1 r2 ->
  alike_result (finish previous_state r1) (finish previous_state r2).
Proof.
  unfold finish. destruct r1 as [[c1 b1]|], r2 as [[c2 b2]|]; simpl; auto.
  intros [<- Hb]. destruct (previous_state =? STATE_NORMAL); [|exact Hb].
  apply alike_setCurrentBlockState. exact Hb.
Qed.

(** Two objects with the same patterns paint the same places and leave
    the same state, whatever their formats. *)
Lemma alike_highlightBlock (previous_state : Z) :
  forall fuel text b1 b2,
    alike b1 b2 ->
    alike_result (highlightBlock self1 previous_state fuel text b1)
                 (highlightBlock self2 previous_state fuel text b2).
Proof.
  induction fuel as [|fuel IH]; intros text b1 b2 Hb; [exact I|].
  cbn [highlightBlock].
  destruct (alike_continuation previous_state text b1 b2 Hb) as [Hfst Hsnd].
  destruct (continuation self1 previous_state text b1) as [[si1 cs1] c1].
  destruct (continuation self2 previous_state text b2) as [[si2 cs2] c2].
  simpl in Hfst, Hsnd. injection Hfst as <- <-.
  apply alike_finish, alike_scan; auto.
Qed.

End Alike.

(** The patterns of a table do not depend on the settings. *)
Lemma init_same_patterns (settings1 settings2 : string -> option string)
    (language : string) :
  same_patterns (__init__ settings1 language) (__init__ settings2 language).
Proof.
  unfold __init__.
  destruct (in_dec string_dec (lower language) languages) as [Hin|Hnot].
  - unfold languages in Hin. simpl in Hin.
    repeat (destruct Hin as [<-|Hin];
            [unfold same_patterns; repeat split; vm_compute; reflexivity|]).
    contradiction.
  - rewrite !(setup_unknown _ _ Hnot).
    unfold same_patterns; repeat split; vm_compute; reflexivity.
Qed.

(** X7.  The colours of the settings change the formats of the spans only:
    with any two settings and any number of calls allowed, the two
    calls on the same block fail together, or they emit spans at the
    same places, in the same order, and leave the same state. *)
Theorem colours_change_formats_only (settings1 settings2 : string -> option string)
    (language : string) (previous_state : Z) (limit : nat) (text : list ascii)
    (old : Z) :
  alike_result
    (highlightBlock (__init__ settings1 language) previous_state limit text (fresh old))
    (highlightBlock (__init__ settings2 language) previous_state limit text (fresh old)).
Proof.
  apply alike_highlightBlock.
  - apply init_same_patterns.
  - split; reflexivity.
Qed.

End DocumentFacts.

(** ** The table of snippets *)

Module StoreFacts.

Import Chars Snippets Store SnippetsFacts.

Close Scope string_scope.
Open Scope Z_scope.

(** *** Tags that are saved and read *)

(** X8.  The tags read back from the stored string are the tags of the
    input: the pieces between the commas of the input, trimmed, without
    the empty ones, in their order. *)
Theorem stored_tags_are_the_tags_of_the_input (tags_input : string) :
  tags_this_row (saved_tags tags_input) = tags_this_row tags_input.
Proof.
  rewrite saved_row_pieces.
  symmetry. apply tags_this_row_pieces.
Qed.

(** X9.  Saving a stored tags string again stores the same string: the
    tags of a snippet that is opened and saved without a change stay as
    they are. *)
Theorem saved_tags_idempotent (tags_input : string) :
  saved_tags (saved_tags tags_input) = saved_tags tags_input.
Proof.
  rewrite (saved_tags_pieces (saved_tags tags_input)).
  rewrite (saved_tags_pieces tags_input).
  rewrite list_ascii_of_string_of_list_ascii, pieces_join. reflexivity.
Qed.

(** X10.  A tag that the list of tags offers for a saved row selects
    that row when it is chosen as the tag filter, when the tags input
    holds no [NUL] and the patterns of the tag are not too long. *)
Theorem offered_tag_selects_the_saved_row (tags_input tag : string) :
  ~ In NUL (list_ascii_of_string tags_input) ->
  bytes (list_ascii_of_string tag) + 4 <= SQLITE_MAX_LIKE_PATTERN_LENGTH ->
  In tag (tags_this_row (saved_tags tags_input)) ->
  passes_tag_filter (Some tag) (saved_tags tags_input) = Some true.
Proof.
  intros Hnul Hlen Hin. rewrite saved_row_pieces in Hin.
  apply in_map_iff in Hin. destruct Hin as (tok & <- & Hin).
  rewrite list_ascii_of_string_of_list_ascii in Hlen.
  unfold passes_tag_filter.
  destruct (negb (string_of_list_ascii tok =? "")%string
            && negb (string_of_list_ascii tok =? "All Tags")%string);
    [|reflexivity].
  assert (Htok : ~ In NUL tok).
  { intros H. apply Hnul. exact (pieces_chars _ _ _ Hin H). }
  assert (Hstored : ~ In NUL (list_ascii_of_string (saved_tags tags_input))).
  { rewrite saved_tags_pieces, list_ascii_of_string_of_list_ascii. intros H.
    apply join_chars in H. destruct H as [H|(p & Hp & H)]; [discriminate H|].
    apply Hnul. exact (pieces_chars _ _ _ Hp H). }
  rewrite tag_condition_within;
    rewrite ?list_ascii_of_string_of_list_ascii; try assumption.
  rewrite (until_nul_free _ Hstored). f_equal.
  pose proof (pieces_trimmed (list_ascii_of_string tags_input)) as Ht.
  assert (Hsplit : In tok (split "," (list_ascii_of_string (saved_tags tags_input)))).
  { rewrite saved_tags_pieces, list_ascii_of_string_of_list_ascii.
    rewrite split_join; [exact Hin| |].
    - intros E. rewrite E in Hin. exact Hin.
    - eapply Forall_impl; [|exact Ht]. simpl. tauto. }
  destruct (piece_matches _ _ Hsplit) as [H|H].
  - rewrite H. reflexivity.
  - apply orb_true_iff. right. apply String.eqb_eq.
    apply list_of_string_inj. rewrite list_ascii_of_string_of_list_ascii. exact H.
Qed.

Lemma offered_tag_selects_the_saved_row_witness :
  ~ In NUL (list_ascii_of_string " a, b ,,c ")
  /\ In "b"%string (tags_this_row (saved_tags " a, b ,,c "))
  /\ passes_tag_filter (Some "b"%string) (saved_tags " a, b ,,c ") = Some true.
Proof.
  assert (Hnul : ~ In NUL (list_ascii_of_string " a, b ,,c "))
    by (vm_compute; intuition discriminate).
  split; [exact Hnul|]. split; [vm_compute; auto|].
  apply offered_tag_selects_the_saved_row.
  - exact Hnul.
  - vm_compute. discriminate.
  - vm_compute. auto.
Defined.

(** X11.  A filter without wildcards, commas and [NUL], whose patterns
    are not too long, is evaluated without error, and it selects the
    rows whose tags string is the filter itself, or of whose tags the
    store reads several pieces of which one is the filter up to the case
    of its letters.  What the store reads of the tags is the part before
    their first [NUL]. *)
Theorem tag_filter_selects_rows_with_the_tag (tag_filter tags : string) :
  plain_tag (list_ascii_of_string tag_filter) ->
  bytes (list_ascii_of_string tag_filter) + 4 <= SQLITE_MAX_LIKE_PATTERN_LENGTH ->
  exists selected,
    tag_condition tag_filter tags = Some selected
    /\ (selected = true
        <-> tags = tag_filter
            \/ (In ","%char (until_nul (list_ascii_of_string tags))
                /\ exists tok,
                     In tok (split "," (until_nul (list_ascii_of_string tags)))
                     /\ caseless tok (list_ascii_of_string tag_filter))).
Proof. apply tag_condition_plain. Qed.

Lemma tag_filter_selects_rows_with_the_tag_witness :
  exists selected,
    tag_condition "b" "a,B,c" = Some selected
    /\ (selected = true
        <-> "a,B,c"%string = "b"%string
            \/ (In ","%char (until_nul (list_ascii_of_string "a,B,c"))
                /\ exists tok,
                     In tok (split "," (until_nul (list_ascii_of_string "a,B,c")))
                     /\ caseless tok (list_ascii_of_string "b"))).
Proof.
  apply tag_filter_selects_rows_with_the_tag.
  - repeat constructor; discriminate.
  - vm_compute. discriminate.
Defined.

(** *** The search condition *)

Lemma column_like_contains (term : string) (column : option string) :
  literal (list_ascii_of_string term) ->
  bytes (list_ascii_of_string term) + 2 <= SQLITE_MAX_LIKE_PATTERN_LENGTH ->
  exists found,
    column_like column ("%" ++ term ++ "%") = Some found
    /\ (found = true
        <-> exists text, column = Some text
                         /\ occurs (list_ascii_of_string term)
                                   (until_nul (list_ascii_of_string text))).
Proof.
  intros Hlit Hlen. destruct column as [text|]; unfold column_like.
  - destruct (LIKE_contains term text Hlit Hlen) as (found & -> & Hiff).
    exists found. split; [reflexivity|]. rewrite Hiff. split.
    + intros H. exists text. auto.
    + intros (t & E & H). injection E as <-. exact H.
  - rewrite !list_of_append. cbn [list_ascii_of_string app].
    rewrite bytes_cons, bytes_app. change (Chars.code "%" <? 128)%nat with true.
    change (bytes ["%"%char]) with 1. cbv iota.
    unfold SQLITE_MAX_LIKE_PATTERN_LENGTH in *.
    destruct (Z.ltb_spec 50000 (1 + (bytes (list_ascii_of_string term) + 1)));
      [lia|].
    exists false. split; [reflexivity|]. split; [discriminate|].
    intros (t & E & _). discriminate E.
Qed.

(** X12.  With a search term without wildcards and [NUL] whose pattern is
    not too long, the search condition is evaluated without error, and
    it selects the rows in which the term occurs, up to the case of the
    letters, in what the store reads of the title, the tags, the
    language, the description or the code: the part before the first
    [NUL] of the column. *)
Theorem search_selects_rows_with_the_term (search_term : string) (row : Row) :
  literal (list_ascii_of_string search_term) ->
  bytes (list_ascii_of_string search_term) + 2 <= SQLITE_MAX_LIKE_PATTERN_LENGTH ->
  exists selected,
    search_condition search_term row = Some selected
    /\ (selected = true
        <-> exists text, In text (searched_columns row)
                         /\ occurs (list_ascii_of_string search_term)
                                   (until_nul (list_ascii_of_string text))).
Proof.
  intros Hlit Hlen. unfold search_condition, searched_columns. cbv zeta.
  destruct (LIKE_contains search_term (title row) Hlit Hlen) as (f1 & -> & H1).
  destruct (column_like_contains search_term (tags row) Hlit Hlen) as (f2 & -> & H2).
  destruct (column_like_contains search_term (language row) Hlit Hlen) as (f3 & -> & H3).
  destruct (column_like_contains search_term (description row) Hlit Hlen)
    as (f4 & -> & H4).
  destruct (column_like_contains search_term (code row) Hlit Hlen) as (f5 & -> & H5).
  rewrite !OR_some. eexists. split; [reflexivity|].
  rewrite !orb_true_iff, H1, H2, H3, H4, H5. split.
  - intros [[[[H|H]|H]|H]|H].
    + exists (title row). split; [left; reflexivity|exact H].
    + destruct H as (t & E & H). exists t. split; [|exact H].
      rewrite E. right. left. reflexivity.
    + destruct H as (t & E & H). exists t. split; [|exact H].
      rewrite E. right. apply in_or_app. right. left. reflexivity.
    + destruct H as (t & E & H). exists t. split; [|exact H].
      rewrite E. right. apply in_or_app. right. apply in_or_app. right.
      left. reflexivity.
    + destruct H as (t & E & H). exists t. split; [|exact H].
      rewrite E. right. do 3 (apply in_or_app; right). left. reflexivity.
  - intros (text & Hin & Hocc).
    destruct Hin as [<-|Hin]; [auto 6|].
    apply in_app_or in Hin. destruct Hin as [Hin|Hin].
    { destruct (tags row) as [t|]; [|destruct Hin].
      destruct Hin as [<-|[]]. left. left. left. right. exists t. auto. }
    apply in_app_or in Hin. destruct Hin as [Hin|Hin].
    { destruct (language row) as [t|]; [|destruct Hin].
      destruct Hin as [<-|[]]. left. left. right. exists t. auto. }
    apply in_app_or in Hin. destruct Hin as [Hin|Hin].
    { destruct (description row) as [t|]; [|destruct Hin].
      destruct Hin as [<-|[]]. left. right. exists t. auto. }
    destruct (code row) as [t|]; [|destruct Hin].
    destruct Hin as [<-|[]]. right. exists t. auto.
Qed.

Lemma search_selects_rows_with_the_term_witness :
  let row := {| snippet_id := "1"; title := "Quick Sort"; code := None;
                language := Some "Python"%string; tags := None;
                description := None; created_at := None; updated_at := None |} in
  exists selected,
    search_condition "sort" row = Some selected
    /\ (selected = true
        <-> exists text, In text (searched_columns row)
                         /\ occurs (list_ascii_of_string "sort")
                                   (until_nul (list_ascii_of_string text))).
Proof.
  apply search_selects_rows_with_the_term.
  - repeat constructor; discriminate.
  - vm_compute. discriminate.
Defined.

(** *** The table *)

Lemma has_id_true (snippet_id_ : string) (row : Row) :
  has_id snippet_id_ row = true <-> snippet_id row = snippet_id_.
Proof. apply String.eqb_eq. Qed.

Lemma get_none (db : Table) (snippet_id_ : string) :
  get_snippet_details db snippet_id_ = None <-> existsb (has_id snippet_id_) db = false.
Proof.
  unfold get_snippet_details. induction db as [|row db IH]; simpl; [tauto|].
  destruct (has_id snippet_id_ row); simpl; [split; discriminate|exact IH].
Qed.

Lemma get_not_in (db : Table) (snippet_id_ : string) :
  get_snippet_details db snippet_id_ = None <-> ~ In snippet_id_ (map snippet_id db).
Proof.
  unfold get_snippet_details. induction db as [|row db IH]; simpl; [tauto|].
  destruct (has_id snippet_id_ row) eqn:E.
  - apply has_id_true in E. split; [discriminate|]. tauto.
  - rewrite IH. split; [|tauto]. intros H [H'|H']; [|tauto].
    apply has_id_true in H'. congruence.
Qed.

Lemma get_app (db : Table) (row : Row) (snippet_id_ : string) :
  get_snippet_details (db ++ [row]) snippet_id_
  = match get_snippet_details db snippet_id_ with
    | Some r => Some r
    | None => if has_id snippet_id_ row then Some row else None
    end.
Proof.
  unfold get_snippet_details. induction db as [|r db IH]; simpl; [reflexivity|].
  destruct (has_id snippet_id_ r); [reflexivity|exact IH].
Qed.

Lemma get_update (db : Table) (now snippet_id_ title_ code_ language_ tags_ description_ : string)
    (id' : string) :
  get_snippet_details
    (update_snippet db now snippet_id_ title_ code_ language_ tags_ description_) id'
  = match get_snippet_details db id' with
    | Some old =>
        if String.eqb id' snippet_id_
        then Some {| snippet_id := snippet_id old;
                     title := title_;
                     code := Some code_;
                     language := Some language_;
                     tags := Some tags_;
                     description := Some description_;
                     created_at := created_at old;
                     updated_at := Some now |}
        else Some old
    | None => None
    end.
Proof.
  unfold get_snippet_details, update_snippet.
  induction db as [|row db IH]; simpl; [reflexivity|].
  destruct (has_id snippet_id_ row) eqn:E1; unfold has_id at 1; simpl;
    fold (has_id id' row); destruct (has_id id' row) eqn:E2; try exact IH.
  - apply has_id_true in E1, E2.
    assert (E : id' = snippet_id_) by congruence.
    apply String.eqb_eq in E. rewrite E. reflexivity.
  - destruct (String.eqb_spec id' snippet_id_) as [E|_]; [|reflexivity].
    rewrite E in E2. congruence.
Qed.

Lemma ids_update (db : Table) (now snippet_id_ title_ code_ language_ tags_ description_ : string) :
  map snippet_id
    (update_snippet db now snippet_id_ title_ code_ language_ tags_ description_)
  = map snippet_id db.
Proof.
  unfold update_snippet. rewrite map_map. apply map_ext.
  intros row. destruct (has_id snippet_id_ row); reflexivity.
Qed.

Lemma primary_key_add (db db' : Table) (new_id now title_ code_ language_ tags_ description_ id_ : string) :
  primary_key db ->
  add_snippet db new_id now title_ code_ language_ tags_ description_ = Some (db', id_) ->
  primary_key db'.
Proof.
  unfold primary_key, add_snippet. intros Hdb H.
  destruct (existsb (has_id new_id) db) eqn:E; [discriminate|].
  injection H as <- _. rewrite map_app. simpl.
  apply (Permutation_NoDup (Permutation_cons_append (map snippet_id db) new_id)).
  constructor; [|exact Hdb].
  apply get_not_in, get_none. exact E.
Qed.

Lemma primary_key_delete (db : Table) (snippet_id_ : string) :
  primary_key db -> primary_key (delete_snippet db snippet_id_).
Proof.
  unfold primary_key, delete_snippet. induction db as [|row db IH]; simpl; [auto|].
  intros H. inversion H as [|? ? Hn Hd]; subst.
  destruct (negb (has_id snippet_id_ row)); simpl; [|auto].
  constructor; [|auto]. intros Hin. apply Hn.
  apply in_map_iff in Hin. destruct Hin as (r & E & Hr).
  apply filter_In in Hr. apply in_map_iff. exists r. tauto.
Qed.

(** *** Saving *)

(** X13.  A new snippet is read back under its new id: the title and the
    description trimmed, the tags normalised, the code and the language
    as they were entered, and both times the time of the call. *)
Theorem new_snippet_is_read_back (db : Table) (new_id now : string) (self : Panel) :
  truthy (strip_ (title_input self)) = true ->
  current_snippet_id self = None ->
  get_snippet_details db new_id = None ->
  get_snippet_details (_save_snippet db new_id now self) new_id
  = Some {| snippet_id := new_id;
            title := strip_ (title_input self);
            code := Some (code_edit self);
            language := Some (language_combo self);
            tags := Some (saved_tags (tags_input self));
            description := Some (strip_ (description_edit self));
            created_at := Some now;
            updated_at := Some now |}.
Proof.
  intros Htitle Hnew Hfresh. unfold _save_snippet.
  rewrite Htitle, Hnew. simpl negb. cbv iota zeta. unfold add_snippet.
  pose proof (proj1 (get_none db new_id) Hfresh) as E. rewrite E.
  rewrite get_app, Hfresh. unfold has_id. simpl. rewrite String.eqb_refl.
  reflexivity.
Qed.

Lemma new_snippet_is_read_back_witness :
  let self := {| title_input := " sort "; code_edit := "qsort()";
                 language_combo := "C++"; tags_input := "a, b ,c";
                 description_edit := ""; current_snippet_id := None |} in
  get_snippet_details (_save_snippet [] "id1" "2025-01-01 10:00:00" self) "id1"
  = Some {| snippet_id := "id1";
            title := strip_ (title_input self);
            code := Some (code_edit self);
            language := Some (language_combo self);
            tags := Some (saved_tags (tags_input self));
            description := Some (strip_ (description_edit self));
            created_at := Some "2025-01-01 10:00:00"%string;
            updated_at := Some "2025-01-01 10:00:00"%string |}.
Proof.
  apply new_snippet_is_read_back; reflexivity.
Defined.

(** X14.  Saving the snippet being edited replaces its title, code, language,
    tags and description, keeps its id and the time it was created, and
    sets the time of its last update to the time of the call. *)
Theorem edited_snippet_is_read_back (db : Table) (new_id now : string) (self : Panel)
    (snippet_id_ : string) (old : Row) :
  truthy (strip_ (title_input self)) = true ->
  current_snippet_id self = Some snippet_id_ ->
  truthy snippet_id_ = true ->
  get_snippet_details db snippet_id_ = Some old ->
  get_snippet_details (_save_snippet db new_id now self) snippet_id_
  = Some {| snippet_id := snippet_id_;
            title := strip_ (title_input self);
            code := Some (code_edit self);
            language := Some (language_combo self);
            tags := Some (saved_tags (tags_input self));
            description := Some (strip_ (description_edit self));
            created_at := created_at old;
            updated_at := Some now |}.
Proof.
  intros Htitle Hid Htruthy Hold. unfold _save_snippet.
  rewrite Htitle, Hid, Htruthy. simpl negb. cbv iota zeta.
  rewrite get_update, Hold, String.eqb_refl.
  apply find_some in Hold. destruct Hold as [_ Hold].
  apply has_id_true in Hold. rewrite Hold. reflexivity.
Qed.

Lemma edited_snippet_is_read_back_witness :
  let old := {| snippet_id := "id1"; title := "sort"; code := Some "qsort()"%string;
                language := Some "C++"%string; tags := Some "a,b"%string;
                description := Some ""%string;
                created_at := Some "2025-01-01 10:00:00"%string;
                updated_at := Some "2025-01-01 10:00:00"%string |} in
  let self := {| title_input := "quick sort"; code_edit := "qsort();";
                 language_combo := "C++"; tags_input := "a,b, c";
                 description_edit := " sorts "; current_snippet_id := Some "id1"%string |} in
  get_snippet_details (_save_snippet [old] "id2" "2025-02-02 12:00:00" self) "id1"
  = Some {| snippet_id := "id1";
            title := strip_ (title_input self);
            code := Some (code_edit self);
            language := Some (language_combo self);
            tags := Some (saved_tags (tags_input self));
            description := Some (strip_ (description_edit self));
            created_at := created_at old;
            updated_at := Some "2025-02-02 12:00:00"%string |}.
Proof.
  intros old self.
  apply (edited_snippet_is_read_back [old] "id2" "2025-02-02 12:00:00" self "id1" old);
    reflexivity.
Defined.

Lemma save_cases (db : Table) (new_id now : string) (self : Panel) :
  let saved := _save_snippet db new_id now self in
  saved = db
  \/ (exists snippet_id_ title_ code_ language_ tags_ description_,
        current_snippet_id self = Some snippet_id_
        /\ saved = update_snippet db now snippet_id_ title_ code_ language_ tags_
                     description_)
  \/ (exists title_ code_ language_ tags_ description_,
        add_snippet db new_id now title_ code_ language_ tags_ description_
        = Some (saved, new_id)).
Proof.
  unfold _save_snippet. cbv zeta.
  destruct (negb (truthy (strip_ (title_input self)))); [auto|].
  assert (Hadd : forall t c l g d,
             let saved := match add_snippet db new_id now t c l g d with
                          | Some (db', _) => db'
                          | None => db
                          end in
             saved = db
             \/ add_snippet db new_id now t c l g d = Some (saved, new_id)).
  { intros t c l g d. unfold add_snippet.
    destruct (existsb (has_id new_id) db); auto. }
  destruct (current_snippet_id self) as [id_|].
  - destruct (truthy id_).
    + right. left. eexists _, _, _, _, _, _. split; reflexivity.
    + match goal with
      | |- match add_snippet _ _ _ ?t ?c ?l ?g ?d with _ => _ end = _ \/ _ =>
          destruct (Hadd t c l g d) as [H|H]; [auto|]
      end.
      right. right. eexists _, _, _, _, _. exact H.
  - match goal with
    | |- match add_snippet _ _ _ ?t ?c ?l ?g ?d with _ => _ end = _ \/ _ =>
        destruct (Hadd t c l g d) as [H|H]; [auto|]
    end.
    right. right. eexists _, _, _, _, _. exact H.
Qed.

(** X15.  Saving leaves every other snippet as it was: a row that has neither
    the new id nor the id of the snippet being edited is read back
    unchanged, also when nothing is saved. *)
Theorem save_leaves_the_other_snippets (db : Table) (new_id now : string) (self : Panel)
    (other : string) :
  other <> new_id ->
  current_snippet_id self <> Some other ->
  get_snippet_details (_save_snippet db new_id now self) other
  = get_snippet_details db other.
Proof.
  intros Hnew Hcur.
  destruct (save_cases db new_id now self) as [H|[H|H]]; cbv zeta in H.
  - rewrite H. reflexivity.
  - destruct H as (i & t & c & l & g & d & Hi & ->).
    rewrite get_update. destruct (get_snippet_details db other); [|reflexivity].
    destruct (String.eqb_spec other i) as [E|_]; [|reflexivity].
    congruence.
  - destruct H as (t & c & l & g & d & H). unfold add_snippet in H.
    destruct (existsb (has_id new_id) db); [discriminate|].
    injection H as <-. rewrite get_app.
    destruct (get_snippet_details db other); [reflexivity|].
    unfold has_id. simpl.
    destruct (String.eqb_spec new_id other) as [E|_]; [congruence|reflexivity].
Qed.

Lemma save_leaves_the_other_snippets_witness :
  let old := {| snippet_id := "id1"; title := "sort"; code := None;
                language := None; tags := None; description := None;
                created_at := None; updated_at := None |} in
  let self := {| title_input := "search"; code_edit := "";
                 language_combo := "Text"; tags_input := "";
                 description_edit := ""; current_snippet_id := None |} in
  get_snippet_details (_save_snippet [old] "id2" "2025-02-02 12:00:00" self) "id1"
  = get_snippet_details [old] "id1".
Proof.
  intros old self. apply save_leaves_the_other_snippets; discriminate.
Defined.

(** X16.  Neither saving nor deleting gives two rows the same id. *)
Theorem primary_key_is_kept (db : Table) (new_id now : string) (self : Panel)
    (snippet_id_ : string) :
  primary_key db ->
  primary_key (_save_snippet db new_id now self)
  /\ primary_key (delete_snippet db snippet_id_).
Proof.
  intros Hdb. split; [|apply primary_key_delete; exact Hdb].
  destruct (save_cases db new_id now self) as [H|[H|H]]; cbv zeta in H.
  - rewrite H. exact Hdb.
  - destruct H as (i & t & c & l & g & d & _ & ->).
    unfold primary_key. rewrite ids_update. exact Hdb.
  - destruct H as (t & c & l & g & d & H).
    exact (primary_key_add _ _ _ _ _ _ _ _ _ _ Hdb H).
Qed.

Lemma primary_key_is_kept_witness :
  let old := {| snippet_id := "id1"; title := "sort"; code := None;
                language := None; tags := None; description := None;
                created_at := None; updated_at := None |} in
  let self := {| title_input := "search"; code_edit := "";
                 language_combo := "Text"; tags_input := "";
                 description_edit := ""; current_snippet_id := None |} in
  primary_key (_save_snippet [old] "id1" "2025-02-02 12:00:00" self)
  /\ primary_key (delete_snippet [old] "id1").
Proof.
  intros old self. apply primary_key_is_kept.
  repeat constructor. simpl. tauto.
Defined.

(** X17.  After a snippet is deleted there is no row with its id, and the
    other rows are read back as before. *)
Theorem deleted_snippet_is_gone (db : Table) (snippet_id_ id' : string) :
  get_snippet_details (delete_snippet db snippet_id_) id'
  = if String.eqb id' snippet_id_ then None else get_snippet_details db id'.
Proof.
  unfold get_snippet_details, delete_snippet.
  induction db as [|row db IH]; simpl.
  - destruct (String.eqb id' snippet_id_); reflexivity.
  - destruct (has_id snippet_id_ row) eqn:E1; simpl.
    + rewrite IH. destruct (String.eqb_spec id' snippet_id_) as [E|Hne]; [reflexivity|].
      destruct (has_id id' row) eqn:E2; [|reflexivity].
      apply has_id_true in E1, E2. congruence.
    + destruct (has_id id' row) eqn:E2; [|exact IH].
      destruct (String.eqb_spec id' snippet_id_) as [E|Hne]; [|reflexivity].
      rewrite E in E2. congruence.
Qed.

End StoreFacts.

(** ** The width of the line number area *)

Module EditorFacts.

Import Editor.

Open Scope Z_scope.

Lemma count_digits_spec (fuel : nat) :
  forall max_val digits,
    1 <= max_val -> (Z.to_nat max_val < fuel)%nat ->
    exists k, 0 <= k
              /\ count_digits fuel max_val digits = Some (digits + k)
              /\ 10 ^ k <= max_val < 10 ^ (k + 1).
Proof.
  induction fuel as [|fuel IH]; intros max_val digits Hpos Hfuel; [lia|].
  simpl. destruct (Z.geb_spec max_val 10) as [Hge|Hlt].
  - assert (Hdiv : 1 <= max_val / 10) by (apply Z.div_le_lower_bound; lia).
    assert (Hless : max_val / 10 < max_val) by (apply Z.div_lt; lia).
    destruct (IH (max_val / 10) (digits + 1) Hdiv ltac:(lia)) as (k & Hk & E & Hlo & Hhi).
    exists (k + 1). split; [lia|]. split; [rewrite E; f_equal; lia|].
    rewrite !Z.pow_add_r by lia. change (10 ^ 1) with 10.
    pose proof (Z.div_mod max_val 10 ltac:(lia)) as Hdm.
    pose proof (Z.mod_pos_bound max_val 10 ltac:(lia)) as Hm.
    rewrite Z.pow_add_r in Hhi by lia. change (10 ^ 1) with 10 in Hhi.
    nia.
  - exists 0. split; [lia|]. split; [f_equal; lia|].
    change (10 ^ 0) with 1. change (10 ^ (0 + 1)) with 10. lia.
Qed.

(** X19.  The hint is as wide as the digits of the last line number need: its
    width is five more than [digits] times the width of a digit, where
    [digits] is the number of decimal digits of the number of blocks (of
    [1] when there is no block), and its height is zero. *)
Theorem sizeHint_fits_the_last_line_number (blockCount advance : Z) :
  exists digits,
    sizeHint blockCount advance = Some (5 + advance * digits, 0)
    /\ 1 <= digits
    /\ 10 ^ (digits - 1) <= Z.max 1 blockCount < 10 ^ digits.
Proof.
  unfold sizeHint. cbv zeta.
  destruct (count_digits_spec (S (Z.to_nat (Z.max 1 blockCount)))
              (Z.max 1 blockCount) 1 ltac:(lia) ltac:(lia))
    as (k & Hk & E & H).
  exists (1 + k). rewrite E. split; [reflexivity|]. split; [lia|].
  replace (1 + k - 1) with k by lia. replace (1 + k) with (k + 1) by lia. exact H.
Qed.

End EditorFacts.

(** ** The colours of the preferences and of the highlighter *)

Module PreferencesFacts.

Import Chars Regex Highlighter HighlighterFacts Preferences.

Close Scope string_scope.
Open Scope Z_scope.

Lemma setup_frame (settings1 settings2 : string -> option string) (k : string) :
  In k (""%string :: languages) ->
  (forall key, In key (map fst Highlighter.DEFAULT_COLORS) ->
     Highlighter.value settings1 ("syntax_colors/" ++ key) (default_color key)
     = Highlighter.value settings2 ("syntax_colors/" ++ key) (default_color key)) ->
  _setup_delimiters_and_rules settings1 k = _setup_delimiters_and_rules settings2 k.
Proof.
  intros Hk H.
  pose proof (H "keyword"%string ltac:(simpl; auto 13)) as H1.
  pose proof (H "comment"%string ltac:(simpl; auto 13)) as H2.
  pose proof (H "string"%string ltac:(simpl; auto 13)) as H3.
  pose proof (H "number"%string ltac:(simpl; auto 13)) as H4.
  pose proof (H "function"%string ltac:(simpl; auto 13)) as H5.
  pose proof (H "class_type"%string ltac:(simpl; auto 13)) as H6.
  pose proof (H "operator_brace"%string ltac:(simpl; auto 13)) as H7.
  pose proof (H "preprocessor_decorator"%string ltac:(simpl; auto 13)) as H8.
  pose proof (H "tag"%string ltac:(simpl; auto 13)) as H9.
  pose proof (H "attribute"%string ltac:(simpl; auto 13)) as H10.
  pose proof (H "selector"%string ltac:(simpl; auto 13)) as H11.
  pose proof (H "property"%string ltac:(simpl; auto 13)) as H12.
  clear H. vm_compute in H1, H2, H3, H4, H5, H6, H7, H8, H9, H10, H11, H12.
  simpl in Hk.
  repeat (destruct Hk as [<-|Hk];
          [vm_compute;
           rewrite ?H1, ?H2, ?H3, ?H4, ?H5, ?H6, ?H7, ?H8, ?H9, ?H10, ?H11, ?H12;
           reflexivity|]).
  contradiction.
Qed.

Lemma init_frame (settings1 settings2 : string -> option string) (language : string) :
  (forall key, In key (map fst Highlighter.DEFAULT_COLORS) ->
     Highlighter.value settings1 ("syntax_colors/" ++ key) (default_color key)
     = Highlighter.value settings2 ("syntax_colors/" ++ key) (default_color key)) ->
  __init__ settings1 language = __init__ settings2 language.
Proof.
  intros H. unfold __init__.
  destruct (in_dec string_dec (lower language) languages) as [Hin|Hnot].
  - apply setup_frame; [right; exact Hin|exact H].
  - rewrite !(setup_unknown _ _ Hnot). apply setup_frame; [left; reflexivity|exact H].
Qed.

(** X20.  The table of a language depends on the settings through twelve
    keys only, the colours stored under [syntax_colors/]: two settings
    that hold the same under these keys give the same table, whatever
    they hold under other keys. *)
Theorem table_depends_on_the_twelve_colours
    (settings1 settings2 : string -> option string) (language : string) :
  (forall key, In key (map fst Highlighter.DEFAULT_COLORS) ->
     settings1 ("syntax_colors/" ++ key)%string
     = settings2 ("syntax_colors/" ++ key)%string) ->
  __init__ settings1 language = __init__ settings2 language.
Proof.
  intros H. apply init_frame. intros key Hin.
  unfold Highlighter.value. rewrite (H key Hin). reflexivity.
Qed.

Lemma table_depends_on_the_twelve_colours_witness :
  __init__ (fun _ => None) "Python"
  = __init__ (fun key => if String.eqb key "editor/tab_size"
                         then Some "8"%string
                         else None)
             "Python".
Proof.
  apply table_depends_on_the_twelve_colours.
  intros key Hin. simpl in Hin.
  repeat (destruct Hin as [<-|Hin]; [reflexivity|]). contradiction.
Defined.

(** X21.  Saving the preferences without choosing a colour leaves the table of
    every language as it was: the colours the dialog writes for the
    missing keys are the defaults of the highlighter. *)
Theorem saving_untouched_preferences_keeps_the_colours
    (settings : string -> option string) (theme : option string)
    (radio_24h : bool) (tab_size : Z) (language : string) :
  __init__ (_save_settings settings theme radio_24h tab_size
              (_load_syntax_colors settings))
           language
  = __init__ settings language.
Proof.
  apply init_frame. intros key Hin. simpl in Hin.
  destruct theme;
    repeat (destruct Hin as [<-|Hin]; [vm_compute; reflexivity|]);
    contradiction.
Qed.

(** *** Saving the colours *)

Lemma append_inj (p s t : string) : (p ++ s)%string = (p ++ t)%string -> s = t.
Proof. induction p as [|c p IH]; simpl; [auto|]. intros H. injection H as H. auto. Qed.

Lemma save_colours (prefix : string) (colours : list (string * string)) :
  forall (settings : string -> option string) (key : string),
    fold_left (fun settings item =>
                 setValue settings (prefix ++ fst item) (snd item))
              colours settings (prefix ++ key)%string
    = match find (fun kv => String.eqb (fst kv) key) (rev colours) with
      | Some kv => Some (snd kv)
      | None => settings (prefix ++ key)%string
      end.
Proof.
  induction colours as [|[k v] colours IH] using rev_ind; intros settings key;
    [reflexivity|].
  rewrite fold_left_app, rev_app_distr.
  cbn [fold_left rev app find fst snd]. unfold setValue at 1.
  destruct (String.eqb_spec (prefix ++ key) (prefix ++ k)) as [E|Hne].
  - apply append_inj in E. subst k. rewrite String.eqb_refl. reflexivity.
  - destruct (String.eqb_spec k key) as [->|_]; [congruence|]. apply IH.
Qed.

Lemma find_append (A : Type) (f : A -> bool) (l1 l2 : list A) :
  find f (l1 ++ l2) = match find f l1 with
                      | Some x => Some x
                      | None => find f l2
                      end.
Proof.
  induction l1 as [|a l1 IH]; simpl; [reflexivity|]. destruct (f a); auto.
Qed.

Lemma find_rev_unique (colours : list (string * string)) (key : string) :
  NoDup (map fst colours) ->
  find (fun kv => String.eqb (fst kv) key) (rev colours)
  = find (fun kv => String.eqb (fst kv) key) colours.
Proof.
  induction colours as [|[k v] colours IH]; [reflexivity|]. simpl. intros H.
  inversion H as [|? ? Hn Hd]; subst. rewrite find_append, (IH Hd). simpl.
  destruct (find (fun kv => String.eqb (fst kv) key) colours) as [[k' v']|] eqn:E.
  - destruct (String.eqb_spec k key) as [->|_]; [|reflexivity].
    apply find_some in E. destruct E as [Hin E]. simpl in E.
    apply String.eqb_eq in E. subst k'. exfalso. apply Hn.
    apply in_map_iff. exists (key, v'). auto.
  - destruct (String.eqb k key); reflexivity.
Qed.

(** X22.  What is saved is what is read: after the preferences are saved, the
    value of a colour key of the settings is the colour the dialog holds
    for it. *)
Theorem saved_colour_is_read (settings : string -> option string)
    (theme : option string) (radio_24h : bool) (tab_size : Z)
    (_current_syntax_colors : list (string * string)) (key color_str default : string) :
  NoDup (map fst _current_syntax_colors) ->
  get _current_syntax_colors key = Some color_str ->
  value (_save_settings settings theme radio_24h tab_size _current_syntax_colors)
        ("syntax_colors/" ++ key) default
  = color_str.
Proof.
  intros Hdup Hget. unfold value, _save_settings. cbv zeta.
  rewrite (save_colours "syntax_colors/"), (find_rev_unique _ _ Hdup).
  unfold get in Hget.
  destruct (find (fun kv => String.eqb (fst kv) key) _current_syntax_colors);
    [|discriminate].
  injection Hget as ->. reflexivity.
Qed.

Lemma saved_colour_is_read_witness :
  value (_save_settings (fun _ => None) None true 4
           (_change_color (Some "Comment"%string) (Some "#112233"%string)
              (_load_syntax_colors (fun _ => None))))
        ("syntax_colors/" ++ "comment") "#6A9955"
  = "#112233"%string.
Proof.
  apply saved_colour_is_read.
  - vm_compute. repeat constructor; simpl; intuition discriminate.
  - reflexivity.
Defined.

End PreferencesFacts.
